(** * hash-wasm: the CRC-32, SHA-224 and xxHash64 facades

    A shallow embedding of [lib/crc32.ts], [lib/sha224.ts] and
    [lib/xxhash64.ts]: the lazily created, shared WebAssembly instance behind
    the one-shot functions, the private instances behind the streaming
    hashers, and the seed handling of xxHash64. *)

From Stdlib Require Import ZArith QArith Qround String Lia.
From stdpp Require Import base option list.

Local Open Scope Z_scope.

(** ** JavaScript numbers *)

(** A [number] is an IEEE double: not-a-number, an infinity, or a finite
    value.  Every finite double is a rational, so the finite values are
    embedded in [Q] (negative zero is identified with zero: [isInteger], the
    comparisons and [ToUint32] do not tell them apart). *)
Inductive number : Type :=
  | NaN
  | Infinity (negative : bool)
  | Fin (q : Q).

Definition num (z : Z) : number := Fin (inject_Z z).

(** [Number.isInteger]. *)
Definition isInteger (n : number) : bool :=
  match n with
  | Fin q => Qeq_bool q (inject_Z (Qfloor q))
  | _ => false
  end.

(** [a < b] on numbers; any comparison with [NaN] is false. *)
Definition num_lt (a b : number) : bool :=
  match a, b with
  | NaN, _ | _, NaN => false
  | Infinity true, Infinity true => false
  | Infinity true, _ => true
  | _, Infinity true => false
  | Infinity false, _ => false
  | Fin _, Infinity false => true
  | Fin x, Fin y => negb (Qle_bool y x)
  end.

Definition num_gt (a b : number) : bool := num_lt b a.

(** [ToUint32] of ECMAScript, as applied by [DataView.prototype.setUint32]:
    truncate towards zero, then reduce modulo 2^32. *)
Definition ToUint32 (n : number) : Z :=
  match n with
  | Fin q => (Z.quot (Qnum q) (Z.pos (Qden q))) mod 2 ^ 32
  | _ => 0
  end.

(** ** Errors and byte buffers *)

Inductive Error : Type :=
  | JsError (message : string)      (* [new Error(message)] *)
  | RangeError                      (* a [DataView] access out of bounds *)
  | TypeError (message : string)    (* calling a property that is not a function *)
  | LoadError (code : Z)            (* the module loader failed *)
  | ComputeError (code : Z)         (* a backend entry point rejected an operation *)
  | IOError (code : Z).             (* [load] given an inconsistent blob *)

(** An [ArrayBuffer] / [Uint8Array]: its bytes, each an 8-bit value. *)
Definition bytes := list Z.

Definition is_byte (b : Z) : Prop := 0 <= b < 256.

(** The four bytes of a 32-bit value, least significant first. *)
Definition le32 (v : Z) : bytes :=
  [ Z.land v 255;
    Z.land (Z.shiftr v 8) 255;
    Z.land (Z.shiftr v 16) 255;
    Z.land (Z.shiftr v 24) 255 ].

(** Reading four bytes back, least significant first. *)
Definition le32_value (bs : bytes) : Z :=
  match bs with
  | [b0; b1; b2; b3] => b0 + 256 * b1 + 65536 * b2 + 16777216 * b3
  | _ => 0
  end.

(** [new DataView(arr).setUint32(byteOffset, value, true)]: a [RangeError]
    when the four bytes do not fit, the buffer with the bytes replaced
    otherwise. *)
Definition setUint32 (arr : bytes) (byteOffset : nat) (value : number)
  : Error + bytes :=
  if (byteOffset + 4 <=? length arr)%nat
  then inr (take byteOffset arr ++ le32 (ToUint32 value) ++ drop (byteOffset + 4) arr)
  else inl RangeError.

(** ** xxhash64.ts: seed validation and encoding *)

Definition seed_message : string :=
  "Seed must be given as two valid 32-bit long unsigned integer (lo + high).".

(** [validateSeed]: an [Error] object for a bad seed, [null] ([None])
    otherwise. *)
Definition validateSeed (seed : number) : option Error :=
  if negb (isInteger seed) || num_lt seed (num 0) || num_gt seed (num 4294967295)
  then Some (JsError seed_message)
  else None.

(** [writeSeed]: both words written in little-endian format.  The buffer is
    changed in place: the result is the error thrown, if any, and the bytes
    the buffer holds afterwards. *)
Definition writeSeed (arr : bytes) (low high : number) : (Error + unit) * bytes :=
  match setUint32 arr 0 low with
  | inl e => (inl e, arr)
  | inr arr1 =>
      match setUint32 arr1 4 high with
      | inl e => (inl e, arr1)
      | inr arr2 => (inr tt, arr2)
      end
  end.

(** The number [n] is the integer [z], and [z] fits 32 unsigned bits. *)
Definition seed_value (n : number) (z : Z) : Prop :=
  0 <= z <= 4294967295 /\
  match n with Fin q => (q == inject_Z z)%Q | _ => False end.

(** What the specification calls a valid seed component: an integer in
    [0, 2^32 - 1]. *)
Definition is_uint32 (n : number) : Prop := exists z : Z, seed_value n z.

(** ** The WebAssembly side *)

(** The packaged binaries imported as [wasmJson]. *)
Inductive Binary : Type := crc32_wasm | sha256_wasm | xxhash64_wasm.

(** The [outputType] argument of [digest]. *)
Inductive OutputType : Type := hex | binary.

Inductive Digest : Type :=
  | HexString (s : string)
  | Raw (b : bytes).

(** The compiled hash routines are opaque: a platform supplies the linear
    memory of a fresh instance and the exported functions, each acting on
    that memory.  [retry_failed_load] is the policy of the creation lock after
    a failed load (retry on the next call, or replay the failure). *)
Class Platform : Type := {
  IDataType : Type;
  memory_of : Binary -> bytes;
  Hash_Init : Binary -> option Z -> bytes -> bytes;
  Hash_Update : Binary -> IDataType -> bytes -> Error + bytes;
  Hash_Final : Binary -> Z -> bytes -> bytes;
  to_hex : bytes -> string;
  state_region : Binary -> bytes -> bytes;
  state_restore : Binary -> bytes -> bytes -> Error + bytes;
  retry_failed_load : bool
}.

(** The logical state of a streaming session. *)
Inductive Label : Type := Initialized | Accumulating | Digested.

(** The three source files, each with its own module-level [mutex] and
    [wasmCache]. *)
Inductive File : Type := crc32_ts | sha224_ts | xxhash64_ts.

(** The creation lock of a file: nothing loaded, one load in flight, or the
    settled outcome of that load. *)
Inductive Cell : Type :=
  | Empty
  | Loading (binary : Binary) (hashLength : Z)
  | Ready (wasm : nat)
  | Failed (e : Error).

Record FileVars : Type := {
  mutex : Cell;
  wasmCache : option nat
}.

Section Facades.
Context {P : Platform}.

(** Calls that reach the WebAssembly side, in the order they are made. *)
Inductive Event : Type :=
  | EvInstantiate (binary : Binary) (hashLength : Z)
  | EvWriteMemory (wasm : nat) (data : bytes) (offset : nat)
  | EvInit (wasm : nat) (bits : option Z)
  | EvUpdate (wasm : nat) (data : IDataType)
  | EvDigest (wasm : nat) (outputType : OutputType)
  | EvSave (wasm : nat)
  | EvLoad (wasm : nat) (blob : bytes).

(** One instantiated module together with its wrapper. *)
Record ComputeModule : Type := {
  cm_binary : Binary;
  cm_hashLength : Z;
  cm_memory : bytes;
  cm_label : Label
}.

(** The store: every instance created so far (an instance is referred to by
    its index), the calls made so far, the module-level variables of the three
    files, and the module-level [seedBuffer] of xxhash64.ts. *)
Record World : Type := {
  heap : list ComputeModule;
  trace : list Event;
  crc32_vars : FileVars;
  sha224_vars : FileVars;
  xxhash64_vars : FileVars;
  seedBuffer : bytes
}.

Definition initial_world : World :=
  {| heap := [];
     trace := [];
     crc32_vars := {| mutex := Empty; wasmCache := None |};
     sha224_vars := {| mutex := Empty; wasmCache := None |};
     xxhash64_vars := {| mutex := Empty; wasmCache := None |};
     seedBuffer := replicate 8 0 |}.

Definition vars (f : File) (w : World) : FileVars :=
  match f with
  | crc32_ts => crc32_vars w
  | sha224_ts => sha224_vars w
  | xxhash64_ts => xxhash64_vars w
  end.

Definition with_heap (h : list ComputeModule) (w : World) : World :=
  {| heap := h; trace := trace w; crc32_vars := crc32_vars w;
     sha224_vars := sha224_vars w; xxhash64_vars := xxhash64_vars w;
     seedBuffer := seedBuffer w |}.

Definition with_trace (t : list Event) (w : World) : World :=
  {| heap := heap w; trace := t; crc32_vars := crc32_vars w;
     sha224_vars := sha224_vars w; xxhash64_vars := xxhash64_vars w;
     seedBuffer := seedBuffer w |}.

Definition with_vars (f : File) (v : FileVars) (w : World) : World :=
  {| heap := heap w; trace := trace w;
     crc32_vars := match f with crc32_ts => v | _ => crc32_vars w end;
     sha224_vars := match f with sha224_ts => v | _ => sha224_vars w end;
     xxhash64_vars := match f with xxhash64_ts => v | _ => xxhash64_vars w end;
     seedBuffer := seedBuffer w |}.

Definition with_seedBuffer (b : bytes) (w : World) : World :=
  {| heap := heap w; trace := trace w; crc32_vars := crc32_vars w;
     sha224_vars := sha224_vars w; xxhash64_vars := xxhash64_vars w;
     seedBuffer := b |}.

Definition with_memory (mem : bytes) (cm : ComputeModule) : ComputeModule :=
  {| cm_binary := cm_binary cm; cm_hashLength := cm_hashLength cm;
     cm_memory := mem; cm_label := cm_label cm |}.

Definition with_label (l : Label) (cm : ComputeModule) : ComputeModule :=
  {| cm_binary := cm_binary cm; cm_hashLength := cm_hashLength cm;
     cm_memory := cm_memory cm; cm_label := l |}.

(** *** Synchronous code: state and exceptions *)

Definition M (A : Type) : Type := World -> (Error + A) * World.

Definition ret {A} (a : A) : M A := fun w => (inr a, w).

Definition throw {A} (e : Error) : M A := fun w => (inl e, w).

Definition bind {A B} (c : M A) (k : A -> M B) : M B :=
  fun w =>
    match c w with
    | (inr a, w') => k a w'
    | (inl e, w') => (inl e, w')
    end.

Notation "x <- c1 ;; c2" := (bind c1 (fun x => c2))
  (at level 100, c1 at next level, right associativity).
Notation "c1 ;;; c2" := (bind c1 (fun _ => c2))
  (at level 100, right associativity).

Definition emit (e : Event) : M unit :=
  fun w => (inr tt, with_trace (trace w ++ [e]) w).

Definition modify (g : World -> World) : M unit := fun w => (inr tt, g w).

(** The instance behind a reference. *)
Definition instance (wasm : nat) : M ComputeModule :=
  fun w =>
    match heap w !! wasm with
    | Some cm => (inr cm, w)
    | None => (inl (TypeError "wasm is undefined"), w)
    end.

Definition store (wasm : nat) (cm : ComputeModule) : M unit :=
  modify (fun w => with_heap (<[wasm := cm]> (heap w)) w).

(** *** The wrapper around one instance *)

(** Modelled from the spec: [writeMemory] of the object that [WASMInterface]
    resolves to (lib/WASMInterface is not among the sources).  It copies the
    bytes into the linear memory and fails when they do not fit. *)
Definition wasm_writeMemory (wasm : nat) (data : bytes) (offset : nat) : M unit :=
  emit (EvWriteMemory wasm data offset) ;;;
  cm <- instance wasm ;;
  if (offset + length data <=? length (cm_memory cm))%nat
  then store wasm
         (with_memory (take offset (cm_memory cm) ++ data
                         ++ drop (offset + length data) (cm_memory cm)) cm)
  else throw (ComputeError 1).

(** Modelled from the spec: [init] of the wrapper (lib/WASMInterface is not
    among the sources).  It resets the hash state, optionally selecting an
    output-size variant; the session is [Initialized] afterwards. *)
Definition wasm_init (wasm : nat) (bits : option Z) : M unit :=
  emit (EvInit wasm bits) ;;;
  cm <- instance wasm ;;
  store wasm
    (with_label Initialized
       (with_memory (Hash_Init (cm_binary cm) bits (cm_memory cm)) cm)).

(** Modelled from the spec: [update] of the wrapper (lib/WASMInterface is not
    among the sources).  It feeds the data to the backend, which may reject
    it; the session is [Accumulating] afterwards. *)
Definition wasm_update (wasm : nat) (data : IDataType) : M unit :=
  emit (EvUpdate wasm data) ;;;
  cm <- instance wasm ;;
  match Hash_Update (cm_binary cm) data (cm_memory cm) with
  | inl e => throw e
  | inr mem => store wasm (with_label Accumulating (with_memory mem cm))
  end.

(** Modelled from the spec: [digest] of the wrapper (lib/WASMInterface is not
    among the sources).  It reads the finalized state in the requested format
    without changing the hash state; the session is [Digested] afterwards. *)
Definition wasm_digest (wasm : nat) (outputType : OutputType) : M Digest :=
  emit (EvDigest wasm outputType) ;;;
  cm <- instance wasm ;;
  store wasm (with_label Digested cm) ;;;
  let raw := Hash_Final (cm_binary cm) (cm_hashLength cm) (cm_memory cm) in
  ret (match outputType with
       | hex => HexString (to_hex raw)
       | binary => Raw raw
       end).

(** Modelled from the spec: [save] of the wrapper (lib/WASMInterface is not
    among the sources).  It copies the internal state region out of the
    memory. *)
Definition wasm_save (wasm : nat) : M bytes :=
  emit (EvSave wasm) ;;;
  cm <- instance wasm ;;
  ret (state_region (cm_binary cm) (cm_memory cm)).

(** Modelled from the spec: [load] of the wrapper (lib/WASMInterface is not
    among the sources).  It copies a saved state region back into the memory,
    or fails as a whole on a blob that does not fit. *)
Definition wasm_load (wasm : nat) (blob : bytes) : M unit :=
  emit (EvLoad wasm blob) ;;;
  cm <- instance wasm ;;
  match state_restore (cm_binary cm) blob (cm_memory cm) with
  | inl e => throw e
  | inr mem => store wasm (with_memory mem cm)
  end.

(** Modelled from the spec: [calculate] of the wrapper (lib/WASMInterface is
    not among the sources): the composite of [init], [update] and a
    hexadecimal [digest]. *)
Definition wasm_calculate (wasm : nat) (data : IDataType) (bits : option Z)
  : M string :=
  wasm_init wasm bits ;;;
  wasm_update wasm data ;;;
  d <- wasm_digest wasm hex ;;
  ret (match d with HexString s => s | Raw b => to_hex b end).

(** *** Promises *)

(** What a pending promise waits for: the load in flight behind the creation
    lock of a file, or a load of its own. *)
Inductive Awaited : Type :=
  | SharedLoad (f : File)
  | PrivateLoad (binary : Binary) (hashLength : Z).

(** A promise is settled, or waits for a module load with the callbacks
    chained on it. *)
Inductive Promise (A : Type) : Type :=
  | Resolved (a : A)
  | Rejected (e : Error)
  | Pending (l : Awaited) (k : nat -> M A).
Arguments Resolved {A} a.
Arguments Rejected {A} e.
Arguments Pending {A} l k.

Definition Async (A : Type) : Type := World -> Promise A * World.

(** [Promise.resolve(v)] for a normal completion, [Promise.reject(err)] for
    a thrown error. *)
Definition settled {A} (r : (Error + A) * World) : Promise A * World :=
  match r with
  | (inr a, w) => (Resolved a, w)
  | (inl e, w) => (Rejected e, w)
  end.

(** [p.then(cb)]: a rejection passes through, an error thrown by [cb]
    rejects. *)
Definition then_ {A B} (p : Async A) (cb : A -> M B) : Async B :=
  fun w =>
    match p w with
    | (Resolved a, w') => settled (cb a w')
    | (Rejected e, w') => (Rejected e, w')
    | (Pending l k, w') => (Pending l (fun wasm => a <- k wasm ;; cb a), w')
    end.

(** The module loader has been invoked for [binary]. *)
Definition invoke_loader (binary : Binary) (hashLength : Z) (w : World) : World :=
  with_trace (trace w ++ [EvInstantiate binary hashLength]) w.

(** Modelled from the spec: [WASMInterface(binary, hashLength)]
    (lib/WASMInterface is not among the sources).  Every call invokes the
    module loader; the promise resolves to the wrapper of the new instance. *)
Definition WASMInterface (binary : Binary) (hashLength : Z) : Async nat :=
  fun w => (Pending (PrivateLoad binary hashLength) ret,
            invoke_loader binary hashLength w).

Definition set_mutex (f : File) (c : Cell) (w : World) : World :=
  with_vars f {| mutex := c; wasmCache := wasmCache (vars f w) |} w.

(** Modelled from the spec: [lockedCreate(mutex, binary, hashLength)]
    (lib/lockedCreate and lib/mutex are not among the sources), the
    single-flight creation of the shared instance.  With nothing loaded it
    starts the one load; while that load is in flight the caller waits for it;
    afterwards the outcome is replayed, a failure according to
    [retry_failed_load]. *)
Definition lockedCreate (f : File) (binary : Binary) (hashLength : Z) : Async nat :=
  fun w =>
    let start :=
      (Pending (SharedLoad f) ret,
       set_mutex f (Loading binary hashLength) (invoke_loader binary hashLength w)) in
    match mutex (vars f w) with
    | Empty => start
    | Loading _ _ => (Pending (SharedLoad f) ret, w)
    | Ready wasm => (Resolved wasm, w)
    | Failed e => if retry_failed_load then start else (Rejected e, w)
    end.

(** *** The module loader settles *)

Inductive LoaderResult : Type :=
  | Instantiated
  | LoaderFailed (e : Error).

Definition fresh_module (binary : Binary) (hashLength : Z) : ComputeModule :=
  {| cm_binary := binary; cm_hashLength := hashLength;
     cm_memory := memory_of binary; cm_label := Initialized |}.

(** A new instance joins the store; its reference is returned. *)
Definition allocate (binary : Binary) (hashLength : Z) : M nat :=
  fun w => (inr (length (heap w)),
            with_heap (heap w ++ [fresh_module binary hashLength]) w).

(** The load of a [WASMInterface] call settles. *)
Definition settle_private {A} (o : LoaderResult) (p : Promise A)
  : World -> Promise A * World :=
  fun w =>
    match p with
    | Pending (PrivateLoad b hl) k =>
        match o with
        | Instantiated => settled ((wasm <- allocate b hl ;; k wasm) w)
        | LoaderFailed e => (Rejected e, w)
        end
    | _ => (p, w)
    end.

Definition File_eqb (f g : File) : bool :=
  match f, g with
  | crc32_ts, crc32_ts | sha224_ts, sha224_ts | xxhash64_ts, xxhash64_ts => true
  | _, _ => false
  end.

(** One waiter of the shared load of [f] is resumed with the outcome. *)
Definition resolve_waiter {A} (f : File) (r : Error + nat) (p : Promise A)
  : World -> Promise A * World :=
  fun w =>
    match p with
    | Pending (SharedLoad f') k =>
        if File_eqb f f'
        then match r with
             | inr wasm => settled (k wasm w)
             | inl e => (Rejected e, w)
             end
        else (p, w)
    | _ => (p, w)
    end.

(** The waiters are resumed in the order in which they called. *)
Fixpoint resolve_waiters {A} (f : File) (r : Error + nat) (ps : list (Promise A))
  (w : World) : list (Promise A) * World :=
  match ps with
  | [] => ([], w)
  | p :: ps' =>
      let '(p1, w1) := resolve_waiter f r p w in
      let '(ps1, w2) := resolve_waiters f r ps' w1 in
      (p1 :: ps1, w2)
  end.

(** The load in flight behind the creation lock of [f] settles: the outcome is
    recorded in the lock and every waiter observes it. *)
Definition settle_shared {A} (f : File) (o : LoaderResult) (ps : list (Promise A))
  : World -> list (Promise A) * World :=
  fun w =>
    match mutex (vars f w) with
    | Loading b hl =>
        match o with
        | Instantiated =>
            let wasm := length (heap w) in
            resolve_waiters f (inr wasm) ps
              (set_mutex f (Ready wasm)
                 (with_heap (heap w ++ [fresh_module b hl]) w))
        | LoaderFailed e =>
            resolve_waiters f (inl e) ps (set_mutex f (Failed e) w)
        end
    | _ => (ps, w)
    end.

(** A single call followed to its settlement: whatever load the returned
    promise waits for settles with [o]. *)
Definition complete {A} (o : LoaderResult) (pw : Promise A * World)
  : Promise A * World :=
  match pw with
  | (Pending (SharedLoad f) k, w) =>
      let '(ps, w') := settle_shared f o [Pending (SharedLoad f) k] w in
      (default (Pending (SharedLoad f) k) (head ps), w')
  | (Pending (PrivateLoad b hl) k, w) =>
      settle_private o (Pending (PrivateLoad b hl) k) w
  | _ => pw
  end.

(** Several calls issued one after the other, before any load settles. *)
Fixpoint issue {A} (calls : list (Async A)) (w : World) : list (Promise A) * World :=
  match calls with
  | [] => ([], w)
  | c :: calls' =>
      let '(p, w1) := c w in
      let '(ps, w2) := issue calls' w1 in
      (p :: ps, w2)
  end.

(** Module loader invocations recorded in a trace. *)
Definition is_load (e : Event) : bool :=
  match e with EvInstantiate _ _ => true | _ => false end.

Fixpoint loads (t : list Event) : nat :=
  match t with
  | [] => 0
  | e :: t' => ((if is_load e then 1 else 0) + loads t')%nat
  end.

(** *** The streaming handle *)

(** The object literal typed [IHasher].  [this_wasm] is the instance its
    closures capture; [init], [update] and [load] return the object itself,
    which is left out; [save] and [load] are properties an object may lack. *)
Record IHasher : Type := {
  this_wasm : nat;
  init : M unit;
  update : IDataType -> M unit;
  digest : OutputType -> M Digest;
  save : option (M bytes);
  load : option (bytes -> M unit);
  blockSize : Z;
  digestSize : Z
}.

(** [hasher.save()]: calling a property the object does not have throws. *)
Definition call_save (hasher : IHasher) : M bytes :=
  match save hasher with
  | Some f => f
  | None => throw (TypeError "hasher.save is not a function")
  end.

(** [hasher.load(data)]. *)
Definition call_load (hasher : IHasher) (data : bytes) : M unit :=
  match load hasher with
  | Some f => f data
  | None => throw (TypeError "hasher.load is not a function")
  end.

(** *** Module-level variables *)

(** [wasmCache = wasm]. *)
Definition set_wasmCache (f : File) (wasm : nat) : M unit :=
  modify (fun w => with_vars f {| mutex := mutex (vars f w); wasmCache := Some wasm |} w).

(** [wasmCache.calculate(data, bits)], through the module-level variable. *)
Definition wasmCache_calculate (f : File) (data : IDataType) (bits : option Z)
  : M string :=
  fun w =>
    match wasmCache (vars f w) with
    | Some wasm => wasm_calculate wasm data bits w
    | None => (inl (TypeError "wasmCache is null"), w)
    end.

(** [wasmCache.writeMemory(new Uint8Array(seedBuffer))]: the bytes the
    module-level buffer holds at the time of the call. *)
Definition wasmCache_writeMemory_seedBuffer (f : File) : M unit :=
  fun w =>
    match wasmCache (vars f w) with
    | Some wasm => wasm_writeMemory wasm (seedBuffer w) 0 w
    | None => (inl (TypeError "wasmCache is null"), w)
    end.

(** ** crc32.ts *)

(** The callback that [crc32] chains on [lockedCreate]. *)
Definition crc32_loaded (data : IDataType) (wasm : nat) : M string :=
  set_wasmCache crc32_ts wasm ;;;
  wasmCache_calculate crc32_ts data None.

Definition crc32 (data : IDataType) : Async string :=
  fun w =>
    match wasmCache (vars crc32_ts w) with
    | None =>
        then_ (lockedCreate crc32_ts crc32_wasm 4) (crc32_loaded data) w
    | Some _ =>
        (* try { ... Promise.resolve(hash) } catch (err) { Promise.reject(err) } *)
        settled (wasmCache_calculate crc32_ts data None w)
    end.

(** The object literal [obj] of [createCRC32]. *)
Definition createCRC32_obj (wasm : nat) : IHasher :=
  {| this_wasm := wasm;
     init := wasm_init wasm None;
     update := fun data => wasm_update wasm data;
     digest := fun outputType => wasm_digest wasm outputType;
     save := Some (wasm_save wasm);
     load := Some (fun data => wasm_load wasm data);
     blockSize := 4;
     digestSize := 4 |}.

Definition createCRC32 : Async IHasher :=
  then_ (WASMInterface crc32_wasm 4)
    (fun wasm =>
       wasm_init wasm None ;;;
       ret (createCRC32_obj wasm)).

(** ** sha224.ts *)

(** The callback that [sha224] chains on [lockedCreate]. *)
Definition sha224_loaded (data : IDataType) (wasm : nat) : M string :=
  set_wasmCache sha224_ts wasm ;;;
  wasmCache_calculate sha224_ts data (Some 224).

Definition sha224 (data : IDataType) : Async string :=
  fun w =>
    match wasmCache (vars sha224_ts w) with
    | None =>
        then_ (lockedCreate sha224_ts sha256_wasm 28) (sha224_loaded data) w
    | Some _ =>
        settled (wasmCache_calculate sha224_ts data (Some 224) w)
    end.

(** The object literal [obj] of [createSHA224]: it has no [save] and no
    [load] property. *)
Definition createSHA224_obj (wasm : nat) : IHasher :=
  {| this_wasm := wasm;
     init := wasm_init wasm (Some 224);
     update := fun data => wasm_update wasm data;
     digest := fun outputType => wasm_digest wasm outputType;
     save := None;
     load := None;
     blockSize := 64;
     digestSize := 28 |}.

Definition createSHA224 : Async IHasher :=
  then_ (WASMInterface sha256_wasm 28)
    (fun wasm =>
       wasm_init wasm (Some 224) ;;;
       ret (createSHA224_obj wasm)).

(** ** xxhash64.ts *)

(** [writeSeed(seedBuffer, seedLow, seedHigh)] on the module-level buffer. *)
Definition writeSeed_seedBuffer (seedLow seedHigh : number) : M unit :=
  fun w =>
    let '(r, arr) := writeSeed (seedBuffer w) seedLow seedHigh in
    (r, with_seedBuffer arr w).

(** The callback that [xxhash64] chains on [lockedCreate]. *)
Definition xxhash64_loaded (data : IDataType) (seedLow seedHigh : number) (wasm : nat)
  : M string :=
  set_wasmCache xxhash64_ts wasm ;;;
  writeSeed_seedBuffer seedLow seedHigh ;;;
  wasmCache_writeMemory_seedBuffer xxhash64_ts ;;;
  wasmCache_calculate xxhash64_ts data None.

(** An omitted seed parameter ([None]) takes its default, 0. *)
Definition xxhash64 (data : IDataType) (seedLow seedHigh : option number)
  : Async string :=
  fun w =>
    let seedLow := default (num 0) seedLow in
    let seedHigh := default (num 0) seedHigh in
    match validateSeed seedLow with
    | Some err => (Rejected err, w)
    | None =>
    match validateSeed seedHigh with
    | Some err => (Rejected err, w)
    | None =>
    match wasmCache (vars xxhash64_ts w) with
    | None =>
        then_ (lockedCreate xxhash64_ts xxhash64_wasm 8)
          (xxhash64_loaded data seedLow seedHigh) w
    | Some _ =>
        settled ((writeSeed_seedBuffer seedLow seedHigh ;;;
                  wasmCache_writeMemory_seedBuffer xxhash64_ts ;;;
                  wasmCache_calculate xxhash64_ts data None) w)
    end end end.

(** The object literal [obj] of [createXXHash64]; its [init] copies the
    captured [instanceBuffer] into the memory again. *)
Definition createXXHash64_obj (wasm : nat) (instanceBuffer : bytes) : IHasher :=
  {| this_wasm := wasm;
     init := (wasm_writeMemory wasm instanceBuffer 0 ;;;
              wasm_init wasm None);
     update := fun data => wasm_update wasm data;
     digest := fun outputType => wasm_digest wasm outputType;
     save := Some (wasm_save wasm);
     load := Some (fun data => wasm_load wasm data);
     blockSize := 32;
     digestSize := 8 |}.

Definition createXXHash64 (seedLow seedHigh : option number) : Async IHasher :=
  fun w =>
    let seedLow := default (num 0) seedLow in
    let seedHigh := default (num 0) seedHigh in
    match validateSeed seedLow with
    | Some err => (Rejected err, w)
    | None =>
    match validateSeed seedHigh with
    | Some err => (Rejected err, w)
    | None =>
        then_ (WASMInterface xxhash64_wasm 8)
          (fun wasm =>
             (* const instanceBuffer = new ArrayBuffer(8) *)
             match writeSeed (replicate 8 0) seedLow seedHigh with
             | (inl err, _) => throw err
             | (inr _, instanceBuffer) =>
                 wasm_writeMemory wasm instanceBuffer 0 ;;;
                 wasm_init wasm None ;;;
                 ret (createXXHash64_obj wasm instanceBuffer)
             end) w
    end end.

(** ** Predicates used in the statements *)

(** The instance an event acts on; a loader invocation acts on none. *)
Definition event_wasm (e : Event) : option nat :=
  match e with
  | EvInstantiate _ _ => None
  | EvWriteMemory wasm _ _ | EvInit wasm _ | EvUpdate wasm _
  | EvDigest wasm _ | EvSave wasm | EvLoad wasm _ => Some wasm
  end.

Definition on_instance (wasm : nat) (e : Event) : Prop := event_wasm e = Some wasm.

Definition is_settled {A} (p : Promise A) : Prop :=
  match p with
  | Pending _ _ => False
  | _ => True
  end.

(** [w'] differs from [w] only by calls made on the instance [wasm] and by the
    content of that instance. *)
Record touches_only (wasm : nat) (w w' : World) : Prop := {
  touched_trace : exists evs, trace w' = trace w ++ evs /\ Forall (on_instance wasm) evs;
  touched_vars : forall f, vars f w' = vars f w;
  touched_seedBuffer : seedBuffer w' = seedBuffer w;
  touched_length : length (heap w') = length (heap w);
  touched_others : forall i, i <> wasm -> heap w' !! i = heap w !! i
}.

(** Every reference held by a module-level variable points into the store. *)
Definition wf (w : World) : Prop :=
  forall f wasm,
    wasmCache (vars f w) = Some wasm \/ mutex (vars f w) = Ready wasm ->
    (wasm < length (heap w))%nat.

(** The world in which the callback of a [create...] function runs: the loader
    has been invoked and the new instance is in the store. *)
Definition loaded (binary : Binary) (hashLength : Z) (w : World) : World :=
  with_heap (heap (invoke_loader binary hashLength w) ++ [fresh_module binary hashLength])
    (invoke_loader binary hashLength w).

(** A one-shot call answered from the cached instance [wasm] of file [f]: the
    promise is settled at once, the loader is not invoked, every call made
    goes to [wasm], no instance is created and the cache still holds [wasm]. *)
Definition served_from_cache (f : File) (wasm : nat) (w : World)
  (r : Promise string * World) : Prop :=
  is_settled (fst r) /\
  loads (trace (snd r)) = loads (trace w) /\
  (exists evs, trace (snd r) = trace w ++ evs /\ Forall (on_instance wasm) evs) /\
  length (heap (snd r)) = length (heap w) /\
  wasmCache (vars f (snd r)) = Some wasm.

(** The world after [lockedCreate] has started the load of a file. *)
Definition started (f : File) (binary : Binary) (hashLength : Z) (w : World) : World :=
  set_mutex f (Loading binary hashLength) (invoke_loader binary hashLength w).

(** The world after the load in flight behind the lock of [f] has produced its
    instance. *)
Definition installed (f : File) (w : World) : World :=
  match mutex (vars f w) with
  | Loading b hl =>
      set_mutex f (Ready (length (heap w)))
        (with_heap (heap w ++ [fresh_module b hl]) w)
  | _ => w
  end.

(** The world after [wasmCache = wasm] in file [f]. *)
Definition cached (f : File) (wasm : nat) (w : World) : World :=
  with_vars f {| mutex := mutex (vars f w); wasmCache := Some wasm |} w.

(** What the callback of a one-shot call does with the loaded instance: it
    stores the reference in [wasmCache], rewrites at most the module-level
    seed buffer, and otherwise touches only that instance. *)
Definition caches_and_computes {A} (f : File) (cb : nat -> M A) : Prop :=
  forall wasm w,
    touches_only wasm
      (with_seedBuffer (seedBuffer (snd (cb wasm w))) (cached f wasm w))
      (snd (cb wasm w)).

(** What a one-shot call of file [f], followed to its settlement, does to the
    module-level state: the promise is settled; a reference already cached
    stays; an empty cache stays empty or receives the instance recorded in the
    creation lock; the variables of the other files are not touched; the store
    only grows and its references stay valid. *)
Definition one_shot_outcome (f : File) (w : World) (r : Promise string * World) : Prop :=
  is_settled (fst r) /\
  (forall wasm, wasmCache (vars f w) = Some wasm ->
                wasmCache (vars f (snd r)) = Some wasm) /\
  (wasmCache (vars f w) = None ->
   wasmCache (vars f (snd r)) = None \/
   exists wasm, wasmCache (vars f (snd r)) = Some wasm /\
                mutex (vars f (snd r)) = Ready wasm) /\
  (forall g, g <> f -> vars g (snd r) = vars g w) /\
  (length (heap w) <= length (heap (snd r)))%nat /\
  (wf w -> wf (snd r)).


(** The computation [c] only adds events that satisfy [Q] to the trace. *)
Definition emits {A} (Q : Event -> Prop) (c : M A) : Prop :=
  forall w, exists evs, trace (snd (c w)) = trace w ++ evs /\ Forall Q evs.

(** Calls issued one after the other while the load is in flight, followed by
    the settlement of the shared load of [f]. *)
Definition concurrent_first_use {A} (f : File) (calls : list (Async A))
  (o : LoaderResult) (w : World) : list (Promise A) * World :=
  let '(ps, w1) := issue calls w in
  settle_shared f o ps w1.

(** Computations run to completion one after the other, each settling a
    promise. *)
Fixpoint serve {A} (cs : list (M A)) (w : World) : list (Promise A) * World :=
  match cs with
  | [] => ([], w)
  | c :: cs' =>
      let '(p, w1) := settled (c w) in
      let '(ps, w2) := serve cs' w1 in
      (p :: ps, w2)
  end.

(** The single-flight property for the callers [xs] of one file, whose
    callbacks are [cb x]: one loader invocation; every caller settled; on a
    failed load all rejected with its error and nothing cached; on success
    every callback run, in calling order, on the one new instance, which ends
    up cached. *)
Definition single_flight_outcome {X} (f : File) (cb : X -> nat -> M string)
  (xs : list X) (o : LoaderResult) (w : World)
  (r : list (Promise string) * World) : Prop :=
  loads (trace (snd r)) = S (loads (trace w)) /\
  length (fst r) = length xs /\
  Forall is_settled (fst r) /\
  match o with
  | LoaderFailed e =>
      fst r = map (fun _ => Rejected e) xs /\
      wasmCache (vars f (snd r)) = None /\
      heap (snd r) = heap w
  | Instantiated =>
      exists w1,
        length (heap w1) = S (length (heap w)) /\
        mutex (vars f w1) = Ready (length (heap w)) /\
        r = serve (map (fun x => cb x (length (heap w))) xs) w1 /\
        wasmCache (vars f (snd r)) = Some (length (heap w)) /\
        length (heap (snd r)) = S (length (heap w))
  end.

(** A caller of [xxhash64]: the data and the two seed arguments. *)
Definition xxhash64_call (c : IDataType * option number * option number)
  : Async string :=
  xxhash64 (fst (fst c)) (snd (fst c)) (snd c).

Definition xxhash64_call_loaded (c : IDataType * option number * option number)
  : nat -> M string :=
  xxhash64_loaded (fst (fst c)) (default (num 0) (snd (fst c)))
    (default (num 0) (snd c)).

Definition valid_seeds (c : IDataType * option number * option number) : Prop :=
  is_uint32 (default (num 0) (snd (fst c))) /\ is_uint32 (default (num 0) (snd c)).

(** The promise held by a caller that waits for the shared load of [f] with
    the callback [cb] chained on it. *)
Definition waiter {A} (f : File) (cb : nat -> M A) : Promise A :=
  Pending (SharedLoad f) (fun wasm => bind (ret wasm) cb).

(** Calls made one after the other, each followed to its settlement before
    the next one starts. *)
Fixpoint sequentially {A} (calls : list (Async A)) (o : LoaderResult) (w : World)
  : list (Promise A) * World :=
  match calls with
  | [] => ([], w)
  | c :: calls' =>
      let '(p, w1) := complete o (c w) in
      let '(ps, w2) := sequentially calls' o w1 in
      (p :: ps, w2)
  end.

(** The calls that [crc32 data] may make on the WebAssembly side. *)
Definition crc32_call_allowed (data : IDataType) (e : Event) : Prop :=
  match e with
  | EvInstantiate b hl => b = crc32_wasm /\ hl = 4
  | EvInit _ bits => bits = None
  | EvUpdate _ d => d = data
  | EvDigest _ t => t = hex
  | _ => False
  end.

(** The calls that [sha224 data] may make on the WebAssembly side. *)
Definition sha224_call_allowed (data : IDataType) (e : Event) : Prop :=
  match e with
  | EvInstantiate b hl => b = sha256_wasm /\ hl = 28
  | EvInit _ bits => bits = Some 224
  | EvUpdate _ d => d = data
  | EvDigest _ t => t = hex
  | _ => False
  end.

(** The calls that [xxhash64 data ...] may make on the WebAssembly side. *)
Definition xxhash64_call_allowed (data : IDataType) (e : Event) : Prop :=
  match e with
  | EvInstantiate b hl => b = xxhash64_wasm /\ hl = 8
  | EvWriteMemory _ _ offset => offset = 0%nat
  | EvInit _ bits => bits = None
  | EvUpdate _ d => d = data
  | EvDigest _ t => t = hex
  | _ => False
  end.

(** [hasher.update(data).digest('hex')] as the caller sees it: the digest
    string, or the error thrown. *)
Definition update_digest_hex (hasher : IHasher) (data : IDataType) (w : World)
  : Error + string :=
  match update hasher data w with
  | (inl e, _) => inl e
  | (inr _, w1) =>
      match digest hasher hex w1 with
      | (inl e, _) => inl e
      | (inr (HexString s), _) => inr s
      | (inr (Raw b), _) => inr (to_hex b)
      end
  end.

(** What a settled promise carries. *)
Definition outcome {A} (p : Promise A) : option (Error + A) :=
  match p with
  | Resolved a => Some (inr a)
  | Rejected e => Some (inl e)
  | Pending _ _ => None
  end.

(** What [calculate(data, bits)] gives on an instance whose memory is [mem]:
    the hexadecimal digest, or the error of the update. *)
Definition calculate_result (binary : Binary) (hashLength : Z) (bits : option Z)
  (mem : bytes) (data : IDataType) : Error + string :=
  match Hash_Update binary data (Hash_Init binary bits mem) with
  | inl e => inl e
  | inr mem' => inr (to_hex (Hash_Final binary hashLength mem'))
  end.

(** The calls of [calculate(data, bits)] on the instance [wasm]; the digest is
    read only when the update went through. *)
Definition calculate_events (wasm : nat) (bits : option Z) (data : IDataType)
  (r : Error + string) : list Event :=
  EvInit wasm bits :: EvUpdate wasm data ::
  match r with
  | inr _ => [EvDigest wasm hex]
  | inl _ => []
  end.

(** The content of an instance after [calculate(data, bits)]. *)
Definition calculated (cm : ComputeModule) (bits : option Z) (data : IDataType)
  : ComputeModule :=
  let mem := Hash_Init (cm_binary cm) bits (cm_memory cm) in
  match Hash_Update (cm_binary cm) data mem with
  | inl _ => with_label Initialized (with_memory mem cm)
  | inr mem' => with_label Digested (with_memory mem' cm)
  end.

(** The seeded computation of [xxhash64] on the instance [wasm]: the seed is
    encoded into the module-level buffer, the buffer is copied into the
    instance, the digest of [data] is calculated. *)
Definition seeded_calculate (wasm : nat) (data : IDataType) (seedLow seedHigh : number)
  : M string :=
  writeSeed_seedBuffer seedLow seedHigh ;;;
  (fun w => wasm_writeMemory wasm (seedBuffer w) 0 w) ;;;
  wasm_calculate wasm data None.

(** What a seeded one-shot call does with the module-level buffer: either the
    call was rejected without using it, having at most invoked the loader; or
    the buffer now holds the seed of this call and these bytes were copied,
    at offset 0, into the instance that the cache refers to, as the first call
    on an instance that this call makes: what follows the copy is the
    calculation on [data], or nothing when the copy failed. *)
Definition seed_through_module_buffer (seed : bytes) (data : IDataType) (w : World)
  (r : Promise string * World) : Prop :=
  (exists e pre,
     fst r = Rejected e /\
     trace (snd r) = trace w ++ pre /\
     (pre = [] \/ pre = [EvInstantiate xxhash64_wasm 8]) /\
     seedBuffer (snd r) = seedBuffer w) \/
  (exists wasm pre tail,
     wasmCache (vars xxhash64_ts (snd r)) = Some wasm /\
     trace (snd r) = trace w ++ pre ++ EvWriteMemory wasm seed 0 :: tail /\
     (pre = [] \/ pre = [EvInstantiate xxhash64_wasm 8]) /\
     (tail = [] \/ exists v, tail = calculate_events wasm None data v) /\
     seedBuffer (snd r) = seed).

(** The promise [r] of a one-shot call of file [f] whose computation on the
    instance [wasm] is [c wasm]: a rejection passed on before anything was
    computed, with the cache and the store as they were; or the settlement of
    the computation on the instance the cache refers to, where a value
    resolves the promise and an error rejects it; when the cache was set
    already, the computation starts from the world of the call. *)
Definition surfaces {A} (f : File) (c : nat -> M A) (w : World)
  (r : Promise A * World) : Prop :=
  (exists e w1,
     r = (Rejected e, w1) /\
     wasmCache (vars f w1) = wasmCache (vars f w) /\ heap w1 = heap w) \/
  (exists wasm w1,
     wasmCache (vars f w1) = Some wasm /\
     (forall m, wasmCache (vars f w) = Some m -> w1 = w) /\
     match c wasm w1 with
     | (inr a, w') => r = (Resolved a, w')
     | (inl e, w') => r = (Rejected e, w')
     end).


(** The label of the session running on an instance. *)
Definition label_of (wasm : nat) (w : World) : option Label :=
  cm_label <$> heap w !! wasm.

End Facades.

Arguments Resolved {P A} a.
Arguments Rejected {P A} e.
Arguments Pending {P A} l k.

(** ** A small platform to run the definitions on

    Sixteen bytes of memory: the seed area at offsets 0..7 and a one-byte
    running sum at offset 8, started from the first seed byte.  Input that is
    not made of bytes is rejected. *)

Definition all_bytes (data : bytes) : bool :=
  forallb (fun b => (0 <=? b) && (b <? 256)) data.

Definition sum_bytes (data : bytes) : Z := fold_right Z.add 0 data.

Definition hex_digit (d : Z) : string :=
  String.substring (Z.to_nat d) 1 "0123456789abcdef".

Fixpoint hex_of (bs : bytes) : string :=
  match bs with
  | [] => EmptyString
  | b :: bs' => (hex_digit (b / 16) ++ hex_digit (b mod 16) ++ hex_of bs')%string
  end.

Definition sum_platform : Platform := {|
  IDataType := bytes;
  memory_of := fun _ => replicate 16 0;
  Hash_Init := fun _ _ mem => <[8%nat := nth 0 mem 0]> mem;
  Hash_Update := fun _ data mem =>
    if all_bytes data
    then inr (<[8%nat := (nth 8 mem 0 + sum_bytes data) mod 256]> mem)
    else inl (ComputeError 2);
  Hash_Final := fun _ _ mem => [nth 8 mem 0];
  to_hex := hex_of;
  state_region := fun _ mem => drop 8 mem;
  state_restore := fun _ blob mem =>
    if (length blob =? length mem - 8)%nat
    then inr (take 8 mem ++ blob)
    else inl (IOError 1);
  retry_failed_load := false
|}.

(** The initial world of the small platform, and the world after one call of
    each one-shot function. *)
Definition sum_w0 : World := initial_world (P := sum_platform).

Definition sum_w3 : World :=
  snd (complete Instantiated
         (xxhash64 (P := sum_platform) [1] (Some (num 258)) None
            (snd (complete Instantiated
                    (sha224 (P := sum_platform) [1]
                       (snd (complete Instantiated
                               (crc32 (P := sum_platform) [1] sum_w0)))))))).

(** * Properties *)

(** ** Seed encoding and validation *)

Lemma le32_bytes v : Forall is_byte (le32 v).
Proof.
  unfold le32, is_byte. repeat constructor;
    try (change 255 with (Z.ones 8); rewrite Z.land_ones by lia;
         apply Z.mod_pos_bound; lia).
Qed.

Lemma le32_value_le32 v : 0 <= v < 2 ^ 32 -> le32_value (le32 v) = v.
Proof.
  intros Hv. unfold le32, le32_value.
  change 255 with (Z.ones 8). rewrite !Z.land_ones by lia.
  rewrite !Z.shiftr_div_pow2 by lia.
  change (2 ^ 8) with 256. change (2 ^ 16) with 65536. change (2 ^ 24) with 16777216.
  change (2 ^ 32) with 4294967296 in Hv.
  replace (v / 65536) with (v / 256 / 256)
    by (rewrite Z.div_div by lia; reflexivity).
  replace (v / 16777216) with (v / 256 / 256 / 256)
    by (rewrite !Z.div_div by lia; reflexivity).
  pose proof (Z.div_mod v 256 ltac:(lia)).
  pose proof (Z.div_mod (v / 256) 256 ltac:(lia)).
  pose proof (Z.div_mod (v / 256 / 256) 256 ltac:(lia)).
  assert (0 <= v / 256 / 256 / 256 < 256).
  { split; [repeat apply Z.div_pos; lia|].
    repeat (apply Z.div_lt_upper_bound; [lia|]). lia. }
  rewrite (Z.mod_small (v / 256 / 256 / 256) 256) by lia.
  lia.
Qed.

Lemma validateSeed_None n : validateSeed n = None <-> is_uint32 n.
Proof.
  unfold validateSeed, is_uint32, seed_value, num_gt, num.
  destruct n as [|s|q]; simpl.
  - split; [discriminate | intros (z & _ & [])].
  - split; [discriminate | intros (z & _ & [])].
  - destruct (Qeq_bool q (inject_Z (Qfloor q))) eqn:Hint; simpl.
    + apply Qeq_bool_iff in Hint.
      destruct (Qle_bool (inject_Z 0) q) eqn:H0; simpl.
      * destruct (Qle_bool q (inject_Z 4294967295)) eqn:H1; simpl.
        -- split; [intros _ | reflexivity].
           exists (Qfloor q). split; [|exact Hint].
           apply Qle_bool_iff in H0, H1. rewrite Hint in H0, H1.
           rewrite <- Zle_Qle in H0, H1. lia.
        -- split; [discriminate|]. intros (z & Hz & Hq).
           assert (Qle_bool q (inject_Z 4294967295) = true); [|congruence].
           apply Qle_bool_iff. rewrite Hq. rewrite <- Zle_Qle. lia.
      * split; [discriminate|]. intros (z & Hz & Hq).
        assert (Qle_bool (inject_Z 0) q = true); [|congruence].
        apply Qle_bool_iff. rewrite Hq. rewrite <- Zle_Qle. lia.
    + split; [discriminate|]. intros (z & Hz & Hq).
      assert (Qeq_bool q (inject_Z (Qfloor q)) = true); [|congruence].
      apply Qeq_bool_iff. rewrite Hq at 2. rewrite Qfloor_Z. exact Hq.
Qed.

(** ** The functions run on the small platform *)

Example run_crc32_twice :
  let w0 := initial_world (P := sum_platform) in
  let '(p1, w1) := complete Instantiated (crc32 (P := sum_platform) [1; 2; 3] w0) in
  let '(p2, w2) := crc32 (P := sum_platform) [255; 2] w1 in
  p1 = Resolved "06"%string /\ p2 = Resolved "01"%string /\
  loads (trace w2) = 1%nat /\ wasmCache (crc32_vars w2) = Some 0%nat.
Proof. vm_compute. repeat split. Qed.

Example run_xxhash64_seeded :
  let w0 := initial_world (P := sum_platform) in
  let '(p1, w1) := complete Instantiated
                     (xxhash64 (P := sum_platform) [1] (Some (num 258)) (Some (num 7)) w0) in
  p1 = Resolved "03"%string /\ seedBuffer w1 = [2; 1; 0; 0; 7; 0; 0; 0].
Proof. vm_compute. repeat split. Qed.

Section Properties.
Context {P : Platform}.

(** ** Calls on one instance *)

Lemma loads_app (t1 t2 : list Event) : loads (t1 ++ t2) = (loads t1 + loads t2)%nat.
Proof. induction t1 as [|e t1 IH]; simpl; [reflexivity | rewrite IH; lia]. Qed.

Lemma loads_on_instance wasm (evs : list Event) :
  Forall (on_instance wasm) evs -> loads evs = 0%nat.
Proof.
  induction 1 as [|e evs He _ IH]; simpl; [reflexivity|].
  rewrite IH. destruct e; simpl; try reflexivity. discriminate He.
Qed.

Lemma touches_only_refl wasm w : touches_only wasm w w.
Proof.
  constructor; try reflexivity.
  exists []. rewrite app_nil_r. split; [reflexivity | constructor].
Qed.

Lemma touches_only_trans wasm w1 w2 w3 :
  touches_only wasm w1 w2 -> touches_only wasm w2 w3 -> touches_only wasm w1 w3.
Proof.
  intros [(e1 & Ht1 & Hf1) Hv1 Hs1 Hl1 Ho1] [(e2 & Ht2 & Hf2) Hv2 Hs2 Hl2 Ho2].
  constructor.
  - exists (e1 ++ e2). rewrite Ht2, Ht1, app_assoc. split; [reflexivity|].
    apply Forall_app; auto.
  - intros f. rewrite Hv2. apply Hv1.
  - congruence.
  - congruence.
  - intros i Hi. rewrite Ho2 by exact Hi. apply Ho1, Hi.
Qed.

Lemma touches_only_loads wasm w w' :
  touches_only wasm w w' -> loads (trace w') = loads (trace w).
Proof.
  intros [(evs & Ht & Hf) _ _ _ _]. rewrite Ht, loads_app.
  rewrite (loads_on_instance wasm evs) by exact Hf. lia.
Qed.

Ltac step_op :=
  repeat match goal with
         | |- context [match heap ?w !! ?i with _ => _ end] =>
             destruct (heap w !! i) eqn:?; simpl
         | |- context [if ?b then _ else _] => destruct b eqn:?; simpl
         | |- context [match ?x with inl _ => _ | inr _ => _ end] =>
             destruct x eqn:?; simpl
         end.

Ltac touch_op ev :=
  constructor; simpl;
  [ exists [ev]; split; [reflexivity | repeat constructor]
  | intros []; reflexivity
  | reflexivity
  | try reflexivity; try apply length_insert
  | try reflexivity; intros; apply list_lookup_insert_ne; congruence ].

Lemma wasm_writeMemory_touches wasm data offset w :
  touches_only wasm w (snd (wasm_writeMemory wasm data offset w)).
Proof.
  unfold wasm_writeMemory, bind, emit, instance, store, modify, throw; simpl.
  step_op; touch_op (EvWriteMemory wasm data offset).
Qed.

Lemma wasm_init_touches wasm bits w :
  touches_only wasm w (snd (wasm_init wasm bits w)).
Proof.
  unfold wasm_init, bind, emit, instance, store, modify, throw; simpl.
  step_op; touch_op (EvInit wasm bits).
Qed.

Lemma wasm_update_touches wasm data w :
  touches_only wasm w (snd (wasm_update wasm data w)).
Proof.
  unfold wasm_update, bind, emit, instance, store, modify, throw; simpl.
  step_op; touch_op (EvUpdate wasm data).
Qed.

Lemma wasm_digest_touches wasm outputType w :
  touches_only wasm w (snd (wasm_digest wasm outputType w)).
Proof.
  unfold wasm_digest, bind, emit, instance, store, modify, throw, ret; simpl.
  step_op; touch_op (EvDigest wasm outputType).
Qed.

Lemma wasm_save_touches wasm w :
  touches_only wasm w (snd (wasm_save wasm w)).
Proof.
  unfold wasm_save, bind, emit, instance, store, modify, throw, ret; simpl.
  step_op; touch_op (EvSave wasm).
Qed.

Lemma wasm_load_touches wasm blob w :
  touches_only wasm w (snd (wasm_load wasm blob w)).
Proof.
  unfold wasm_load, bind, emit, instance, store, modify, throw, ret; simpl.
  step_op; touch_op (EvLoad wasm blob).
Qed.

(** Sequencing two computations that each touch only [wasm]. *)
Lemma bind_touches {A B} wasm (c : M A) (k : A -> M B) w :
  (forall w0, touches_only wasm w0 (snd (c w0))) ->
  (forall a w0, touches_only wasm w0 (snd (k a w0))) ->
  touches_only wasm w (snd (bind c k w)).
Proof.
  intros Hc Hk. unfold bind. specialize (Hc w).
  destruct (c w) as [[e|a] w1]; simpl in *; [exact Hc|].
  eapply touches_only_trans; [exact Hc | apply Hk].
Qed.

Lemma wasm_calculate_touches wasm data bits w :
  touches_only wasm w (snd (wasm_calculate wasm data bits w)).
Proof.
  unfold wasm_calculate.
  apply bind_touches; [intros; apply wasm_init_touches | intros _ w1].
  apply bind_touches; [intros; apply wasm_update_touches | intros _ w2].
  apply bind_touches; [intros; apply wasm_digest_touches | intros d w3].
  apply touches_only_refl.
Qed.

(** ** Creating a hasher *)

Lemma settled_Resolved {A} (r : (Error + A) * World) a w :
  settled r = (Resolved a, w) -> r = (inr a, w).
Proof. destruct r as [[e|a0] w0]; simpl; intros [=]; subst; reflexivity. Qed.

Lemma settled_is_settled {A} (r : (Error + A) * World) : is_settled (fst (settled r)).
Proof. destruct r as [[e|a] w]; exact I. Qed.

Lemma create_complete {A} binary hashLength (cb : nat -> M A) o w :
  complete o (then_ (WASMInterface binary hashLength) cb w) =
  match o with
  | Instantiated => settled (cb (length (heap w)) (loaded binary hashLength w))
  | LoaderFailed e => (Rejected e, invoke_loader binary hashLength w)
  end.
Proof. destruct o; reflexivity. Qed.

Lemma lookup_loaded binary hashLength w :
  heap (loaded binary hashLength w) !! length (heap w)
  = Some (fresh_module binary hashLength).
Proof. simpl. rewrite lookup_app_r by lia. rewrite Nat.sub_diag. reflexivity. Qed.

Lemma wasm_init_run wasm bits w cm :
  heap w !! wasm = Some cm ->
  wasm_init wasm bits w =
  (inr tt,
   with_heap (<[wasm := with_label Initialized
                          (with_memory (Hash_Init (cm_binary cm) bits (cm_memory cm)) cm)]>
                (heap w))
     (with_trace (trace w ++ [EvInit wasm bits]) w)).
Proof.
  intros Hcm. unfold wasm_init, bind, emit, instance, store, modify; simpl.
  rewrite Hcm. reflexivity.
Qed.


Lemma createSHA224_resolves w :
  exists w', complete Instantiated (createSHA224 w)
             = (Resolved (createSHA224_obj (length (heap w))), w').
Proof.
  unfold createSHA224. rewrite create_complete. unfold bind.
  rewrite (wasm_init_run _ _ _ _ (lookup_loaded sha256_wasm 28 w)).
  eexists. reflexivity.
Qed.

(** What a [create...] call resolves to. *)
Lemma createCRC32_Resolved o w h w' :
  complete o (createCRC32 w) = (Resolved h, w') ->
  o = Instantiated /\ h = createCRC32_obj (length (heap w)).
Proof.
  unfold createCRC32. rewrite create_complete.
  destruct o; [|discriminate]. intros Hs. apply settled_Resolved in Hs.
  unfold bind, ret in Hs.
  destruct (wasm_init _ _ _) as [[e|[]] w1]; inversion Hs; auto.
Qed.

Lemma createSHA224_Resolved o w h w' :
  complete o (createSHA224 w) = (Resolved h, w') ->
  o = Instantiated /\ h = createSHA224_obj (length (heap w)).
Proof.
  unfold createSHA224. rewrite create_complete.
  destruct o; [|discriminate]. intros Hs. apply settled_Resolved in Hs.
  unfold bind, ret in Hs.
  destruct (wasm_init _ _ _) as [[e|[]] w1]; inversion Hs; auto.
Qed.

Lemma createXXHash64_Resolved o seedLow seedHigh w h w' :
  complete o (createXXHash64 seedLow seedHigh w) = (Resolved h, w') ->
  o = Instantiated /\
  validateSeed (default (num 0) seedLow) = None /\
  validateSeed (default (num 0) seedHigh) = None /\
  exists instanceBuffer,
    writeSeed (replicate 8 0) (default (num 0) seedLow) (default (num 0) seedHigh)
    = (inr tt, instanceBuffer) /\
    h = createXXHash64_obj (length (heap w)) instanceBuffer.
Proof.
  unfold createXXHash64.
  destruct (validateSeed (default (num 0) seedLow)); [discriminate|].
  destruct (validateSeed (default (num 0) seedHigh)); [discriminate|].
  rewrite create_complete.
  destruct o; [|discriminate]. intros Hs. apply settled_Resolved in Hs.
  destruct (writeSeed _ _ _) as [[e|[]] buf]; [discriminate|].
  unfold bind, ret in Hs.
  destruct (wasm_writeMemory _ _ _ _) as [[e|[]] w1]; [discriminate|].
  destruct (wasm_init _ _ _) as [[e|[]] w2]; inversion Hs.
  repeat split; eauto.
Qed.

(** C8: every hasher reports the block and digest sizes of its algorithm:
    4 and 4 bytes for CRC-32, 64 and 28 bytes for SHA-224, 32 and 8 bytes for
    xxHash64. *)
Theorem hasher_sizes o w h w' :
  (complete o (createCRC32 w) = (Resolved h, w') ->
   blockSize h = 4 /\ digestSize h = 4) /\
  (complete o (createSHA224 w) = (Resolved h, w') ->
   blockSize h = 64 /\ digestSize h = 28) /\
  (forall seedLow seedHigh,
     complete o (createXXHash64 seedLow seedHigh w) = (Resolved h, w') ->
     blockSize h = 32 /\ digestSize h = 8).
Proof.
  split; [|split].
  - intros Hc. apply createCRC32_Resolved in Hc as [_ ->]. split; reflexivity.
  - intros Hc. apply createSHA224_Resolved in Hc as [_ ->]. split; reflexivity.
  - intros lo hi Hc.
    apply createXXHash64_Resolved in Hc as (_ & _ & _ & buf & _ & ->).
    split; reflexivity.
Qed.

(** C1 (the code departs from it): the hasher of [createSHA224] has no [save]
    and no [load]; calling either throws a [TypeError] and leaves the store as
    it was. *)
Theorem createSHA224_hasher_lacks_save_load w :
  exists h w',
    complete Instantiated (createSHA224 w) = (Resolved h, w') /\
    save h = None /\ load h = None /\
    (forall w1, call_save h w1
                = (inl (TypeError "hasher.save is not a function"), w1)) /\
    (forall blob w1, call_load h blob w1
                     = (inl (TypeError "hasher.load is not a function"), w1)).
Proof.
  destruct (createSHA224_resolves w) as [w' Hc].
  exists (createSHA224_obj (length (heap w))), w'.
  split; [exact Hc|]. repeat split.
Qed.

(** The part of C1 that holds: where [save] and [load] exist, they are the
    wrapper's, and these leave the label of the session alone. *)
Lemma wasm_save_label wasm w :
  label_of wasm (snd (wasm_save wasm w)) = label_of wasm w.
Proof.
  unfold wasm_save, bind, emit, instance, ret, label_of; simpl.
  destruct (heap w !! wasm) eqn:Hcm; simpl; rewrite Hcm; reflexivity.
Qed.

Lemma wasm_load_label wasm blob w :
  label_of wasm (snd (wasm_load wasm blob w)) = label_of wasm w.
Proof.
  unfold wasm_load, bind, emit, instance, store, modify, throw, label_of; simpl.
  destruct (heap w !! wasm) as [cm|] eqn:Hcm; simpl; [|rewrite Hcm; reflexivity].
  destruct (state_restore _ _ _); simpl; rewrite ?Hcm; [reflexivity|].
  rewrite list_lookup_insert_eq by (eapply lookup_lt_Some; exact Hcm).
  reflexivity.
Qed.

Lemma save_load_keep_label wasm instanceBuffer blob w :
  let crc := createCRC32_obj wasm in
  let xxh := createXXHash64_obj wasm instanceBuffer in
  label_of wasm (snd (call_save crc w)) = label_of wasm w /\
  label_of wasm (snd (call_load crc blob w)) = label_of wasm w /\
  label_of wasm (snd (call_save xxh w)) = label_of wasm w /\
  label_of wasm (snd (call_load xxh blob w)) = label_of wasm w.
Proof.
  simpl. unfold call_save, call_load; simpl.
  auto using wasm_save_label, wasm_load_label.
Qed.

(** ** Seeds *)

Lemma validateSeed_Some n e : validateSeed n = Some e -> e = JsError seed_message.
Proof. unfold validateSeed. destruct (_ || _); intros [=]; congruence. Qed.

Lemma validateSeed_invalid n :
  ~ is_uint32 n -> validateSeed n = Some (JsError seed_message).
Proof.
  intros Hn. destruct (validateSeed n) as [e|] eqn:Hv.
  - apply validateSeed_Some in Hv. congruence.
  - apply validateSeed_None in Hv. contradiction.
Qed.

(** C3: a seed component that is not an integer in [0, 2^32 - 1] makes
    [xxhash64] and [createXXHash64] return a promise rejected with the
    validation error, with the store exactly as it was: no module has been
    created, written to or invoked. *)
Theorem invalid_seed_rejected data seedLow seedHigh n w :
  seedLow = Some n \/ seedHigh = Some n ->
  ~ is_uint32 n ->
  xxhash64 data seedLow seedHigh w = (Rejected (JsError seed_message), w) /\
  createXXHash64 seedLow seedHigh w = (Rejected (JsError seed_message), w).
Proof.
  intros Hn Hbad. apply validateSeed_invalid in Hbad.
  unfold xxhash64, createXXHash64.
  destruct Hn as [-> | ->]; simpl.
  - rewrite Hbad. split; reflexivity.
  - destruct (validateSeed (default (num 0) seedLow)) as [e|] eqn:Hlo.
    + apply validateSeed_Some in Hlo as ->. split; reflexivity.
    + rewrite Hbad. split; reflexivity.
Qed.

(** C9: leaving the seed parameters out is the same as passing 0 for them,
    for [xxhash64] on every input and for [createXXHash64]. *)
Theorem omitted_seed_is_zero data w :
  xxhash64 data None None w = xxhash64 data (Some (num 0)) (Some (num 0)) w /\
  (forall seedLow, xxhash64 data seedLow None w = xxhash64 data seedLow (Some (num 0)) w) /\
  createXXHash64 None None w = createXXHash64 (Some (num 0)) (Some (num 0)) w /\
  (forall seedLow, createXXHash64 seedLow None w = createXXHash64 seedLow (Some (num 0)) w).
Proof. repeat split. Qed.

(** ** One-shot calls with the instance already cached *)

Lemma vars_with_vars f v w : vars f (with_vars f v w) = v.
Proof. destruct f; reflexivity. Qed.

Lemma vars_with_vars_ne f g v w : f <> g -> vars g (with_vars f v w) = vars g w.
Proof. destruct f, g; try reflexivity; congruence. Qed.

Lemma wasmCache_calculate_cached f data bits w wasm :
  wasmCache (vars f w) = Some wasm ->
  wasmCache_calculate f data bits w = wasm_calculate wasm data bits w.
Proof. intros Hc. unfold wasmCache_calculate. rewrite Hc. reflexivity. Qed.

Lemma touches_only_served f wasm w (r : (Error + string) * World) :
  wasmCache (vars f w) = Some wasm ->
  touches_only wasm w (snd r) ->
  served_from_cache f wasm w (settled r).
Proof.
  intros Hc Ht. pose proof (settled_is_settled r) as Hs.
  assert (snd (settled r) = snd r) as Hw by (destruct r as [[e|a] w']; reflexivity).
  unfold served_from_cache. rewrite Hw.
  split; [exact Hs|]. split; [eapply touches_only_loads; exact Ht|].
  destruct Ht as [Htr Hv Hsb Hl Ho].
  split; [exact Htr|]. split; [exact Hl|]. rewrite Hv. exact Hc.
Qed.

(** The seeded computation of [xxhash64] on the cached instance: the
    module-level buffer is rewritten, and apart from that only the cached
    instance is touched. *)
Lemma seeded_calculate_touches data seedLow seedHigh w wasm :
  wasmCache (vars xxhash64_ts w) = Some wasm ->
  let w' := snd (bind (writeSeed_seedBuffer seedLow seedHigh) (fun _ =>
                 bind (wasmCache_writeMemory_seedBuffer xxhash64_ts) (fun _ =>
                 wasmCache_calculate xxhash64_ts data None)) w) in
  touches_only wasm (with_seedBuffer (seedBuffer w') w) w'.
Proof.
  intros Hc. unfold bind at 1. unfold writeSeed_seedBuffer.
  destruct (writeSeed (seedBuffer w) seedLow seedHigh) as [[e|[]] arr]; simpl.
  - apply touches_only_refl.
  - set (w1 := with_seedBuffer arr w).
    assert (wasmCache (vars xxhash64_ts w1) = Some wasm) as Hc1 by exact Hc.
    unfold bind, wasmCache_writeMemory_seedBuffer. rewrite Hc1.
    pose proof (wasm_writeMemory_touches wasm (seedBuffer w1) 0 w1) as Hw.
    destruct (wasm_writeMemory wasm (seedBuffer w1) 0 w1) as [[e|[]] w2]; simpl in *.
    + rewrite (touched_seedBuffer _ _ _ Hw). exact Hw.
    + assert (wasmCache (vars xxhash64_ts w2) = Some wasm) as Hc2
        by (rewrite (touched_vars _ _ _ Hw); exact Hc1).
      rewrite (wasmCache_calculate_cached _ _ _ _ _ Hc2).
      pose proof (wasm_calculate_touches wasm data None w2) as Hk.
      rewrite (touched_seedBuffer _ _ _ Hk), (touched_seedBuffer _ _ _ Hw).
      eapply touches_only_trans; [exact Hw | exact Hk].
Qed.

Lemma served_from_cache_seedBuffer f wasm w b r :
  served_from_cache f wasm (with_seedBuffer b w) r -> served_from_cache f wasm w r.
Proof. exact (fun H => H). Qed.

(** With the instance cached, a one-shot call stays within that instance and
    does not invoke the module loader; a loader invocation means the cache was
    empty. *)
Lemma cached_call_frame data seedLow seedHigh w :
  (forall wasm, wasmCache (vars crc32_ts w) = Some wasm ->
     served_from_cache crc32_ts wasm w (crc32 data w)) /\
  (forall wasm, wasmCache (vars sha224_ts w) = Some wasm ->
     served_from_cache sha224_ts wasm w (sha224 data w)) /\
  (forall wasm, wasmCache (vars xxhash64_ts w) = Some wasm ->
     served_from_cache xxhash64_ts wasm w (xxhash64 data seedLow seedHigh w)) /\
  (loads (trace (snd (crc32 data w))) <> loads (trace w) ->
     wasmCache (vars crc32_ts w) = None) /\
  (loads (trace (snd (sha224 data w))) <> loads (trace w) ->
     wasmCache (vars sha224_ts w) = None) /\
  (loads (trace (snd (xxhash64 data seedLow seedHigh w))) <> loads (trace w) ->
     wasmCache (vars xxhash64_ts w) = None).
Proof.
  assert (forall wasm, wasmCache (vars crc32_ts w) = Some wasm ->
            served_from_cache crc32_ts wasm w (crc32 data w)) as Hcrc.
  { intros wasm Hc. unfold crc32. rewrite Hc.
    apply touches_only_served; [exact Hc|].
    rewrite (wasmCache_calculate_cached _ _ _ _ _ Hc).
    apply wasm_calculate_touches. }
  assert (forall wasm, wasmCache (vars sha224_ts w) = Some wasm ->
            served_from_cache sha224_ts wasm w (sha224 data w)) as Hsha.
  { intros wasm Hc. unfold sha224. rewrite Hc.
    apply touches_only_served; [exact Hc|].
    rewrite (wasmCache_calculate_cached _ _ _ _ _ Hc).
    apply wasm_calculate_touches. }
  assert (forall wasm, wasmCache (vars xxhash64_ts w) = Some wasm ->
            served_from_cache xxhash64_ts wasm w (xxhash64 data seedLow seedHigh w))
    as Hxxh.
  { intros wasm Hc. unfold xxhash64.
    assert (served_from_cache xxhash64_ts wasm w (Rejected (JsError seed_message), w))
      as Hrej.
    { apply (touches_only_served _ _ _ (inl (JsError seed_message), w) Hc).
      apply touches_only_refl. }
    destruct (validateSeed (default (num 0) seedLow)) as [e|] eqn:Hlo;
      [apply validateSeed_Some in Hlo as ->; exact Hrej|].
    destruct (validateSeed (default (num 0) seedHigh)) as [e|] eqn:Hhi;
      [apply validateSeed_Some in Hhi as ->; exact Hrej|].
    rewrite Hc.
    eapply served_from_cache_seedBuffer.
    apply touches_only_served; [exact Hc|].
    apply seeded_calculate_touches. exact Hc. }
  split; [exact Hcrc|]. split; [exact Hsha|]. split; [exact Hxxh|].
  split; [|split].
  - intros Hl. destruct (wasmCache (vars crc32_ts w)) as [wasm|] eqn:Hc; [|reflexivity].
    destruct (Hcrc wasm eq_refl) as (_ & Heq & _). contradiction.
  - intros Hl. destruct (wasmCache (vars sha224_ts w)) as [wasm|] eqn:Hc; [|reflexivity].
    destruct (Hsha wasm eq_refl) as (_ & Heq & _). contradiction.
  - intros Hl. destruct (wasmCache (vars xxhash64_ts w)) as [wasm|] eqn:Hc; [|reflexivity].
    destruct (Hxxh wasm eq_refl) as (_ & Heq & _). contradiction.
Qed.

(** ** One-shot calls with an empty cache *)

Lemma File_eqb_refl f : File_eqb f f = true.
Proof. destruct f; reflexivity. Qed.

Lemma complete_settled {A} o (r : (Error + A) * World) :
  complete o (settled r) = settled r.
Proof. destruct r as [[e|a] w]; reflexivity. Qed.

(** A call that goes through [lockedCreate], followed to its settlement. *)
Lemma locked_complete {A} f binary hashLength (cb : nat -> M A) o w :
  complete o (then_ (lockedCreate f binary hashLength) cb w) =
  let go w1 :=
    match o with
    | Instantiated => settled (cb (length (heap w1)) (installed f w1))
    | LoaderFailed e => (Rejected e, set_mutex f (Failed e) w1)
    end in
  match mutex (vars f w) with
  | Empty => go (started f binary hashLength w)
  | Loading _ _ => go w
  | Ready wasm => settled (cb wasm w)
  | Failed e =>
      if retry_failed_load then go (started f binary hashLength w)
      else (Rejected e, w)
  end.
Proof.
  assert (forall w1 b hl, mutex (vars f w1) = Loading b hl ->
            complete o (Pending (SharedLoad f) (fun wasm => bind (ret wasm) cb), w1) =
            match o with
            | Instantiated => settled (cb (length (heap w1)) (installed f w1))
            | LoaderFailed e => (Rejected e, set_mutex f (Failed e) w1)
            end) as Hgo.
  { intros w1 b hl Hm. unfold complete, settle_shared, installed. rewrite Hm.
    destruct o; simpl; rewrite File_eqb_refl; [|reflexivity].
    unfold bind, ret.
    destruct (cb _ _) as [[e|a] w2]; reflexivity. }
  assert (forall b hl, mutex (vars f (started f b hl w)) = Loading b hl) as Hst.
  { intros b hl. unfold started, set_mutex. rewrite vars_with_vars. reflexivity. }
  unfold then_, lockedCreate. cbv zeta.
  destruct (mutex (vars f w)) as [|b hl|wasm|e] eqn:Hm.
  - apply (Hgo _ _ _ (Hst binary hashLength)).
  - apply (Hgo _ _ _ Hm).
  - apply complete_settled.
  - destruct retry_failed_load.
    + apply (Hgo _ _ _ (Hst binary hashLength)).
    + reflexivity.
Qed.

Lemma set_wasmCache_bind {A} f wasm (k : unit -> M A) w :
  bind (set_wasmCache f wasm) k w = k tt (cached f wasm w).
Proof. reflexivity. Qed.

Lemma wasmCache_cached f wasm w : wasmCache (vars f (cached f wasm w)) = Some wasm.
Proof. unfold cached. rewrite vars_with_vars. reflexivity. Qed.

Lemma calculate_callback f data bits :
  caches_and_computes f
    (fun wasm => bind (set_wasmCache f wasm) (fun _ =>
                 wasmCache_calculate f data bits)).
Proof.
  intros wasm w. cbv beta. rewrite set_wasmCache_bind.
  rewrite (wasmCache_calculate_cached _ _ _ _ _ (wasmCache_cached f wasm w)).
  pose proof (wasm_calculate_touches wasm data bits (cached f wasm w)) as Ht.
  rewrite (touched_seedBuffer _ _ _ Ht). exact Ht.
Qed.

Lemma xxhash64_callback data seedLow seedHigh :
  caches_and_computes xxhash64_ts (xxhash64_loaded data seedLow seedHigh).
Proof.
  intros wasm w. unfold xxhash64_loaded. rewrite set_wasmCache_bind.
  apply (seeded_calculate_touches data seedLow seedHigh (cached xxhash64_ts wasm w) wasm).
  reflexivity.
Qed.

(** *** References stay inside the store *)

Lemma wf_same_vars w w' :
  (forall f, vars f w' = vars f w) ->
  (length (heap w) <= length (heap w'))%nat ->
  wf w -> wf w'.
Proof.
  intros Hv Hl Hwf f wasm Hr. rewrite Hv in Hr.
  specialize (Hwf f wasm Hr). lia.
Qed.

Lemma wf_with_vars f v w :
  (forall wasm, wasmCache v = Some wasm \/ mutex v = Ready wasm ->
                (wasm < length (heap w))%nat) ->
  wf w -> wf (with_vars f v w).
Proof.
  intros Hv Hwf g wasm Hr.
  change (length (heap (with_vars f v w))) with (length (heap w)).
  destruct f, g; simpl in Hr;
    first [ apply Hv; exact Hr
          | apply (Hwf crc32_ts wasm); exact Hr
          | apply (Hwf sha224_ts wasm); exact Hr
          | apply (Hwf xxhash64_ts wasm); exact Hr ].
Qed.

Lemma wf_set_mutex f c w :
  (forall wasm, c = Ready wasm -> (wasm < length (heap w))%nat) ->
  wf w -> wf (set_mutex f c w).
Proof.
  intros Hc Hwf. apply wf_with_vars; [|exact Hwf].
  simpl. intros wasm [Hr|Hr]; [apply (Hwf f wasm); auto | auto].
Qed.

Lemma wf_cached f wasm w :
  (wasm < length (heap w))%nat -> wf w -> wf (cached f wasm w).
Proof.
  intros Hlt Hwf. apply wf_with_vars; [|exact Hwf].
  simpl. intros m [Hr|Hr]; [congruence | apply (Hwf f m); auto].
Qed.

Lemma wf_started f binary hashLength w : wf w -> wf (started f binary hashLength w).
Proof.
  intros Hwf. apply wf_set_mutex; [discriminate|].
  apply (wf_same_vars w); [reflexivity | reflexivity | exact Hwf].
Qed.

Lemma wf_installed f w : wf w -> wf (installed f w).
Proof.
  intros Hwf. unfold installed.
  destruct (mutex (vars f w)) as [|b hl|m|e] eqn:Hm; try exact Hwf.
  apply wf_set_mutex.
  - intros wasm [= <-]. simpl. rewrite length_app. simpl. lia.
  - apply (wf_same_vars w); [reflexivity | | exact Hwf].
    simpl. rewrite length_app. lia.
Qed.

Lemma installed_Ready f w b hl :
  mutex (vars f w) = Loading b hl ->
  mutex (vars f (installed f w)) = Ready (length (heap w)) /\
  (length (heap w) < length (heap (installed f w)))%nat.
Proof.
  intros Hm. unfold installed. rewrite Hm. unfold set_mutex.
  rewrite vars_with_vars. simpl. rewrite length_app. simpl. split; [reflexivity | lia].
Qed.

Lemma wf_touches_only wasm w w' : touches_only wasm w w' -> wf w -> wf w'.
Proof.
  intros Ht. apply wf_same_vars; [apply (touched_vars _ _ _ Ht)|].
  rewrite (touched_length _ _ _ Ht). lia.
Qed.

Lemma wf_callback {A} f (cb : nat -> M A) wasm w :
  caches_and_computes f cb ->
  (wasm < length (heap w))%nat -> wf w -> wf (snd (cb wasm w)).
Proof.
  intros Hcb Hlt Hwf. eapply wf_touches_only; [apply Hcb|].
  apply (wf_same_vars (cached f wasm w)); [reflexivity | reflexivity|].
  apply wf_cached; assumption.
Qed.

(** *** What a one-shot call does to the module-level state *)

Lemma snd_settled {A} (r : (Error + A) * World) : snd (settled r) = snd r.
Proof. destruct r as [[e|a] w]; reflexivity. Qed.

Lemma hit_outcome f wasm o w (r : (Error + string) * World) :
  wasmCache (vars f w) = Some wasm ->
  touches_only wasm (with_seedBuffer (seedBuffer (snd r)) w) (snd r) ->
  one_shot_outcome f w (complete o (settled r)).
Proof.
  intros Hc Ht. rewrite complete_settled. unfold one_shot_outcome.
  rewrite snd_settled.
  split; [apply settled_is_settled|].
  split; [intros m Hm; rewrite (touched_vars _ _ _ Ht); exact Hm|].
  split; [intros Hn; congruence|].
  split; [intros g _; apply (touched_vars _ _ _ Ht)|].
  split; [rewrite (touched_length _ _ _ Ht); simpl; lia|].
  intros Hwf. eapply wf_touches_only; [exact Ht|].
  apply (wf_same_vars w); [reflexivity | reflexivity | exact Hwf].
Qed.

Lemma callback_outcome {A} f (cb : nat -> M A) wasm w :
  caches_and_computes f cb ->
  let w' := snd (cb wasm w) in
  wasmCache (vars f w') = Some wasm /\
  mutex (vars f w') = mutex (vars f w) /\
  (forall g, g <> f -> vars g w' = vars g w) /\
  length (heap w') = length (heap w).
Proof.
  intros Hcb. pose proof (Hcb wasm w) as Ht. cbv zeta.
  rewrite !(touched_vars _ _ _ Ht), (touched_length _ _ _ Ht).
  change (vars f (with_seedBuffer ?b ?x)) with (vars f x).
  unfold cached at 1 2. rewrite !vars_with_vars. simpl.
  split; [reflexivity|]. split; [reflexivity|].
  split; [|reflexivity].
  intros g Hg. rewrite (touched_vars _ _ _ Ht).
  change (vars g (with_seedBuffer ?b ?x)) with (vars g x).
  apply vars_with_vars_ne. congruence.
Qed.

Lemma miss_outcome f binary hashLength (cb : nat -> M string) o w :
  caches_and_computes f cb ->
  wasmCache (vars f w) = None ->
  one_shot_outcome f w (complete o (then_ (lockedCreate f binary hashLength) cb w)).
Proof.
  intros Hcb Hnone. rewrite locked_complete. cbv zeta.
  (* the callback runs on an instance recorded in the lock *)
  assert (forall wasm w1,
            mutex (vars f w1) = Ready wasm ->
            (wasm < length (heap w1))%nat ->
            (forall g, g <> f -> vars g w1 = vars g w) ->
            (length (heap w) <= length (heap w1))%nat ->
            (wf w -> wf w1) ->
            one_shot_outcome f w (settled (cb wasm w1))) as Hrun.
  { intros wasm w1 Hm Hlt Hg Hl Hwf.
    destruct (callback_outcome f cb wasm w1 Hcb) as (Hc' & Hm' & Hg' & Hl').
    unfold one_shot_outcome. rewrite snd_settled.
    split; [apply settled_is_settled|].
    split; [intros m Hsome; congruence|].
    split; [intros _; right; exists wasm; split; [exact Hc' | congruence]|].
    split; [intros g Hne; rewrite (Hg' g Hne); apply Hg; exact Hne|].
    split; [lia|].
    intros Hw. apply (wf_callback f); auto. }
  (* the load fails *)
  assert (forall e w1,
            wasmCache (vars f w1) = None ->
            (forall g, g <> f -> vars g w1 = vars g w) ->
            (length (heap w) <= length (heap w1))%nat ->
            (wf w -> wf w1) ->
            one_shot_outcome f w (Rejected e, set_mutex f (Failed e) w1)) as Hfail.
  { intros e w1 Hc Hg Hl Hwf. unfold one_shot_outcome; simpl.
    split; [exact I|].
    split; [intros m Hsome; congruence|].
    split; [intros _; left; unfold set_mutex; rewrite vars_with_vars; exact Hc|].
    split; [intros g Hne; unfold set_mutex;
            rewrite vars_with_vars_ne by congruence; apply Hg; exact Hne|].
    split; [exact Hl|].
    intros Hw. apply wf_set_mutex; [discriminate | auto]. }
  (* the load in flight settles *)
  assert (forall w1 b hl,
            mutex (vars f w1) = Loading b hl ->
            wasmCache (vars f w1) = None ->
            (forall g, g <> f -> vars g w1 = vars g w) ->
            (length (heap w) <= length (heap w1))%nat ->
            (wf w -> wf w1) ->
            one_shot_outcome f w
              match o with
              | Instantiated => settled (cb (length (heap w1)) (installed f w1))
              | LoaderFailed e => (Rejected e, set_mutex f (Failed e) w1)
              end) as Hgo.
  { intros w1 b hl Hm Hc Hg Hl Hwf. destruct o as [|e]; [|apply Hfail; auto].
    destruct (installed_Ready f w1 b hl Hm) as [Hr Hlt].
    apply Hrun; auto.
    - intros g Hne. unfold installed. rewrite Hm. unfold set_mutex.
      rewrite vars_with_vars_ne by congruence. apply Hg; exact Hne.
    - lia.
    - intros Hw. apply wf_installed; auto. }
  assert (forall b hl,
            mutex (vars f (started f b hl w)) = Loading b hl /\
            wasmCache (vars f (started f b hl w)) = None /\
            (forall g, g <> f -> vars g (started f b hl w) = vars g w) /\
            (length (heap w) <= length (heap (started f b hl w)))%nat /\
            (wf w -> wf (started f b hl w))) as Hst.
  { intros b hl. unfold started, set_mutex. rewrite !vars_with_vars. simpl.
    split; [reflexivity|]. split; [exact Hnone|].
    split; [intros g Hne; rewrite vars_with_vars_ne by congruence; reflexivity|].
    split; [lia|]. apply wf_started. }
  destruct (mutex (vars f w)) as [|b hl|wasm|e] eqn:Hm.
  - destruct (Hst binary hashLength) as (H1 & H2 & H3 & H4 & H5).
    eapply Hgo; eauto.
  - eapply Hgo; eauto.
  - unfold one_shot_outcome. rewrite snd_settled.
    destruct (callback_outcome f cb wasm w Hcb) as (Hc' & Hm' & Hg' & Hl').
    split; [apply settled_is_settled|].
    split; [intros m Hsome; congruence|].
    split; [intros _; right; exists wasm; split; [exact Hc' | congruence]|].
    split; [exact Hg'|].
    split; [lia|].
    intros Hw. apply (wf_callback f); auto. apply (Hw f wasm). auto.
  - destruct retry_failed_load.
    + destruct (Hst binary hashLength) as (H1 & H2 & H3 & H4 & H5).
      eapply Hgo; eauto.
    + unfold one_shot_outcome; simpl.
      split; [exact I|]. split; [auto|]. split; [auto|].
      split; [auto|]. split; [lia | auto].
Qed.

Lemma touches_only_reseed wasm w w' :
  touches_only wasm w w' -> touches_only wasm (with_seedBuffer (seedBuffer w') w) w'.
Proof. intros [Ht Hv Hs Hl Ho]. constructor; try assumption. reflexivity. Qed.

Lemma crc32_outcome data o w : one_shot_outcome crc32_ts w (complete o (crc32 data w)).
Proof.
  unfold crc32. destruct (wasmCache (vars crc32_ts w)) as [wasm|] eqn:Hc.
  - apply (hit_outcome _ wasm); [exact Hc|].
    rewrite (wasmCache_calculate_cached _ _ _ _ _ Hc).
    apply touches_only_reseed, wasm_calculate_touches.
  - apply miss_outcome; [apply calculate_callback | exact Hc].
Qed.

Lemma sha224_outcome data o w : one_shot_outcome sha224_ts w (complete o (sha224 data w)).
Proof.
  unfold sha224. destruct (wasmCache (vars sha224_ts w)) as [wasm|] eqn:Hc.
  - apply (hit_outcome _ wasm); [exact Hc|].
    rewrite (wasmCache_calculate_cached _ _ _ _ _ Hc).
    apply touches_only_reseed, wasm_calculate_touches.
  - apply miss_outcome; [apply calculate_callback | exact Hc].
Qed.

Lemma rejected_outcome f e w : one_shot_outcome f w (Rejected e, w).
Proof.
  unfold one_shot_outcome; simpl.
  split; [exact I|]. split; [auto|]. split; [auto|].
  split; [auto|]. split; [lia | auto].
Qed.

Lemma xxhash64_outcome data seedLow seedHigh o w :
  one_shot_outcome xxhash64_ts w (complete o (xxhash64 data seedLow seedHigh w)).
Proof.
  unfold xxhash64.
  destruct (validateSeed (default (num 0) seedLow)); [apply rejected_outcome|].
  destruct (validateSeed (default (num 0) seedHigh)); [apply rejected_outcome|].
  destruct (wasmCache (vars xxhash64_ts w)) as [wasm|] eqn:Hc.
  - apply (hit_outcome _ wasm); [exact Hc|].
    apply seeded_calculate_touches. exact Hc.
  - apply miss_outcome; [apply xxhash64_callback | exact Hc].
Qed.

(** A thrown error becomes the rejection of the returned promise. *)
Lemma settled_error {A} (c : M A) e w w' :
  c w = (inl e, w') -> settled (c w) = (Rejected e, w').
Proof. intros ->. reflexivity. Qed.

(** A first-use call whose load succeeds caches the new instance, whatever
    its computation then does. *)
Lemma first_use_caches {A} f binary hashLength (cb : nat -> M A) w :
  caches_and_computes f cb ->
  mutex (vars f w) = Empty ->
  wasmCache (vars f (snd (complete Instantiated
                            (then_ (lockedCreate f binary hashLength) cb w))))
  = Some (length (heap w)).
Proof.
  intros Hcb Hm. rewrite locked_complete, Hm. cbv beta iota zeta.
  rewrite snd_settled.
  destruct (callback_outcome f cb (length (heap (started f binary hashLength w)))
              (installed f (started f binary hashLength w)) Hcb) as (Hc & _).
  exact Hc.
Qed.

(** The module-level state after a one-shot call; an error on the cached
    instance and a failed load reject the promise; a first load is cached. *)
Lemma one_shot_failure_cases data seedLow seedHigh o w :
  (* the module-level state after each of the three calls *)
  one_shot_outcome crc32_ts w (complete o (crc32 data w)) /\
  one_shot_outcome sha224_ts w (complete o (sha224 data w)) /\
  one_shot_outcome xxhash64_ts w (complete o (xxhash64 data seedLow seedHigh w)) /\
  (* an error thrown on the cached instance rejects the promise *)
  (forall wasm e w',
     wasmCache (vars crc32_ts w) = Some wasm ->
     wasm_calculate wasm data None w = (inl e, w') ->
     crc32 data w = (Rejected e, w')) /\
  (forall wasm e w',
     wasmCache (vars sha224_ts w) = Some wasm ->
     wasm_calculate wasm data (Some 224) w = (inl e, w') ->
     sha224 data w = (Rejected e, w')) /\
  (forall wasm e w',
     wasmCache (vars xxhash64_ts w) = Some wasm ->
     is_uint32 (default (num 0) seedLow) -> is_uint32 (default (num 0) seedHigh) ->
     bind (writeSeed_seedBuffer (default (num 0) seedLow) (default (num 0) seedHigh))
       (fun _ => bind (wasmCache_writeMemory_seedBuffer xxhash64_ts)
       (fun _ => wasmCache_calculate xxhash64_ts data None)) w = (inl e, w') ->
     xxhash64 data seedLow seedHigh w = (Rejected e, w')) /\
  (* a failed load rejects the promise and leaves the cache empty *)
  (forall e,
     o = LoaderFailed e ->
     mutex (vars crc32_ts w) = Empty -> wasmCache (vars crc32_ts w) = None ->
     exists w', complete o (crc32 data w) = (Rejected e, w') /\
                wasmCache (vars crc32_ts w') = None) /\
  (forall e,
     o = LoaderFailed e ->
     mutex (vars sha224_ts w) = Empty -> wasmCache (vars sha224_ts w) = None ->
     exists w', complete o (sha224 data w) = (Rejected e, w') /\
                wasmCache (vars sha224_ts w') = None) /\
  (forall e,
     o = LoaderFailed e ->
     is_uint32 (default (num 0) seedLow) -> is_uint32 (default (num 0) seedHigh) ->
     mutex (vars xxhash64_ts w) = Empty -> wasmCache (vars xxhash64_ts w) = None ->
     exists w', complete o (xxhash64 data seedLow seedHigh w) = (Rejected e, w') /\
                wasmCache (vars xxhash64_ts w') = None) /\
  (* a successful first load is cached, whatever the computation does *)
  (o = Instantiated ->
   mutex (vars crc32_ts w) = Empty -> wasmCache (vars crc32_ts w) = None ->
   wasmCache (vars crc32_ts (snd (complete o (crc32 data w))))
   = Some (length (heap w))) /\
  (o = Instantiated ->
   mutex (vars sha224_ts w) = Empty -> wasmCache (vars sha224_ts w) = None ->
   wasmCache (vars sha224_ts (snd (complete o (sha224 data w))))
   = Some (length (heap w))) /\
  (o = Instantiated ->
   is_uint32 (default (num 0) seedLow) -> is_uint32 (default (num 0) seedHigh) ->
   mutex (vars xxhash64_ts w) = Empty -> wasmCache (vars xxhash64_ts w) = None ->
   wasmCache (vars xxhash64_ts (snd (complete o (xxhash64 data seedLow seedHigh w))))
   = Some (length (heap w))).
Proof.
  split; [apply crc32_outcome|]. split; [apply sha224_outcome|].
  split; [apply xxhash64_outcome|].
  split; [|split; [|split; [|split; [|split; [|split; [|split; [|split]]]]]]].
  - intros wasm e w' Hc He. unfold crc32. rewrite Hc.
    rewrite (wasmCache_calculate_cached _ _ _ _ _ Hc). apply settled_error, He.
  - intros wasm e w' Hc He. unfold sha224. rewrite Hc.
    rewrite (wasmCache_calculate_cached _ _ _ _ _ Hc). apply settled_error, He.
  - intros wasm e w' Hc Hlo Hhi He. unfold xxhash64.
    apply validateSeed_None in Hlo, Hhi. rewrite Hlo, Hhi, Hc.
    apply settled_error, He.
  - intros e -> Hm Hc. unfold crc32. rewrite Hc, locked_complete, Hm.
    eexists. split; [reflexivity|].
    unfold set_mutex, started. rewrite !vars_with_vars. exact Hc.
  - intros e -> Hm Hc. unfold sha224. rewrite Hc, locked_complete, Hm.
    eexists. split; [reflexivity|].
    unfold set_mutex, started. rewrite !vars_with_vars. exact Hc.
  - intros e -> Hlo Hhi Hm Hc. unfold xxhash64.
    apply validateSeed_None in Hlo, Hhi. rewrite Hlo, Hhi.
    rewrite Hc, locked_complete, Hm.
    eexists. split; [reflexivity|].
    unfold set_mutex, started. rewrite !vars_with_vars. exact Hc.
  - intros -> Hm Hc. unfold crc32. rewrite Hc.
    apply first_use_caches; [apply calculate_callback | exact Hm].
  - intros -> Hm Hc. unfold sha224. rewrite Hc.
    apply first_use_caches; [apply calculate_callback | exact Hm].
  - intros -> Hlo Hhi Hm Hc. unfold xxhash64.
    apply validateSeed_None in Hlo, Hhi. rewrite Hlo, Hhi, Hc.
    apply first_use_caches; [apply xxhash64_callback | exact Hm].
Qed.


(** ** Hashers own their instance *)



Lemma createCRC32_callback_touches wasm w0 :
  touches_only wasm w0
    (snd (bind (wasm_init wasm None) (fun _ => ret (createCRC32_obj wasm)) w0)).
Proof.
  apply bind_touches; [intros; apply wasm_init_touches|].
  intros; apply touches_only_refl.
Qed.

Lemma createSHA224_callback_touches wasm w0 :
  touches_only wasm w0
    (snd (bind (wasm_init wasm (Some 224)) (fun _ => ret (createSHA224_obj wasm)) w0)).
Proof.
  apply bind_touches; [intros; apply wasm_init_touches|].
  intros; apply touches_only_refl.
Qed.

Lemma createXXHash64_callback_touches seedLow seedHigh wasm w0 :
  touches_only wasm w0
    (snd (match writeSeed (replicate 8 0) seedLow seedHigh with
          | (inl err, _) => throw err
          | (inr _, instanceBuffer) =>
              bind (wasm_writeMemory wasm instanceBuffer 0) (fun _ =>
              bind (wasm_init wasm None) (fun _ =>
              ret (createXXHash64_obj wasm instanceBuffer)))
          end w0)).
Proof.
  destruct (writeSeed _ _ _) as [[e|[]] buf]; [apply touches_only_refl|].
  apply bind_touches; [intros; apply wasm_writeMemory_touches | intros _ w1].
  apply bind_touches; [intros; apply wasm_init_touches|].
  intros; apply touches_only_refl.
Qed.

(** The methods of a hasher touch only its own instance. *)
Lemma hasher_methods_touch_own wasm instanceBuffer data outputType blob w :
  let crc := createCRC32_obj wasm in
  let sha := createSHA224_obj wasm in
  let xxh := createXXHash64_obj wasm instanceBuffer in
  Forall (fun w' => touches_only wasm w w')
    [ snd (init crc w); snd (update crc data w); snd (digest crc outputType w);
      snd (call_save crc w); snd (call_load crc blob w);
      snd (init sha w); snd (update sha data w); snd (digest sha outputType w);
      snd (call_save sha w); snd (call_load sha blob w);
      snd (init xxh w); snd (update xxh data w); snd (digest xxh outputType w);
      snd (call_save xxh w); snd (call_load xxh blob w) ].
Proof.
  cbv zeta.
  unfold createCRC32_obj, createSHA224_obj, createXXHash64_obj, call_save, call_load.
  cbn [init update digest save load].
  repeat apply Forall_cons_2; try apply Forall_nil_2;
    auto using wasm_init_touches, wasm_update_touches, wasm_digest_touches,
               wasm_save_touches, wasm_load_touches, touches_only_refl.
  apply bind_touches; intros; [apply wasm_writeMemory_touches | apply wasm_init_touches].
Qed.

(** However a [create...] call ends, the references of the module-level
    variables stay valid and the store does not shrink. *)
Lemma create_keeps_wf {A} binary hashLength (cb : nat -> M A) o w :
  (forall wasm w0, touches_only wasm w0 (snd (cb wasm w0))) ->
  let w' := snd (complete o (then_ (WASMInterface binary hashLength) cb w)) in
  (wf w -> wf w') /\ (length (heap w) <= length (heap w'))%nat.
Proof.
  intros Hcb. cbv zeta. rewrite create_complete. destruct o as [|e].
  - rewrite snd_settled.
    pose proof (Hcb (length (heap w)) (loaded binary hashLength w)) as Ht.
    assert (length (heap w) <= length (heap (loaded binary hashLength w)))%nat as Hl
      by (simpl; rewrite length_app; lia).
    split.
    + intros Hwf. eapply wf_touches_only; [exact Ht|].
      apply (wf_same_vars w); [reflexivity | exact Hl | exact Hwf].
    + rewrite (touched_length _ _ _ Ht). exact Hl.
  - split; [|simpl; lia].
    apply wf_same_vars; [reflexivity | simpl; lia].
Qed.

Lemma create_wf seedLow seedHigh o w :
  wf w ->
  wf (snd (complete o (createCRC32 w))) /\
  wf (snd (complete o (createSHA224 w))) /\
  wf (snd (complete o (createXXHash64 seedLow seedHigh w))).
Proof.
  intros Hwf.
  split; [apply (create_keeps_wf crc32_wasm 4);
          [apply createCRC32_callback_touches | exact Hwf]|].
  split; [apply (create_keeps_wf sha256_wasm 28);
          [apply createSHA224_callback_touches | exact Hwf]|].
  unfold createXXHash64.
  destruct (validateSeed (default (num 0) seedLow)); [exact Hwf|].
  destruct (validateSeed (default (num 0) seedHigh)); [exact Hwf|].
  apply (create_keeps_wf xxhash64_wasm 8);
    [apply createXXHash64_callback_touches | exact Hwf].
Qed.


(** ** The seed of a hasher *)

Lemma ToUint32_seed_value n z : seed_value n z -> ToUint32 n = z.
Proof.
  intros [Hz Hn]. destruct n as [| |q]; try contradiction.
  unfold ToUint32. unfold Qeq in Hn. simpl in Hn.
  rewrite Z.mul_1_r in Hn. rewrite Hn.
  rewrite Z.quot_mul by lia.
  apply Z.mod_small. change (2 ^ 32) with 4294967296. lia.
Qed.

Lemma writeSeed_8 arr low high :
  length arr = 8%nat ->
  writeSeed arr low high = (inr tt, le32 (ToUint32 low) ++ le32 (ToUint32 high)).
Proof.
  intros Hl.
  do 8 (destruct arr as [|? arr]; [discriminate Hl|]).
  destruct arr; [|discriminate Hl]. reflexivity.
Qed.

Lemma wasm_writeMemory_run wasm data w :
  wasm_writeMemory wasm data 0 w =
  match heap w !! wasm with
  | Some cm =>
      if (length data <=? length (cm_memory cm))%nat
      then (inr tt,
            with_heap (<[wasm := with_memory (data ++ drop (length data) (cm_memory cm)) cm]>
                         (heap w))
              (with_trace (trace w ++ [EvWriteMemory wasm data 0]) w))
      else (inl (ComputeError 1), with_trace (trace w ++ [EvWriteMemory wasm data 0]) w)
  | None => (inl (TypeError "wasm is undefined"),
             with_trace (trace w ++ [EvWriteMemory wasm data 0]) w)
  end.
Proof.
  unfold wasm_writeMemory, bind, emit, instance, store, modify, throw; simpl.
  destruct (heap w !! wasm) as [cm|]; [|reflexivity].
  destruct (length data <=? length (cm_memory cm))%nat; reflexivity.
Qed.

(** The seed bytes are copied to offset 0 and the backend is initialised on
    the memory that holds them; when the copy fails, the backend is not
    initialised at all. *)
Lemma seeded_init_run wasm seed w :
  let r := bind (wasm_writeMemory wasm seed 0) (fun _ => wasm_init wasm None) w in
  (exists tail, trace (snd r) = trace w ++ EvWriteMemory wasm seed 0 :: tail /\
                (tail = [] \/ tail = [EvInit wasm None])) /\
  (fst r = inr tt ->
   exists cm, heap w !! wasm = Some cm /\
     trace (snd r) = trace w ++ [EvWriteMemory wasm seed 0; EvInit wasm None] /\
     heap (snd r) !! wasm
     = Some (with_label Initialized
               (with_memory (Hash_Init (cm_binary cm) None
                               (seed ++ drop (length seed) (cm_memory cm))) cm))).
Proof.
  cbv zeta. unfold bind. rewrite wasm_writeMemory_run.
  destruct (heap w !! wasm) as [cm|] eqn:Hcm; simpl.
  2:{ split; [exists []; auto | discriminate]. }
  destruct (length seed <=? length (cm_memory cm))%nat; simpl.
  2:{ split; [exists []; auto | discriminate]. }
  assert (wasm < length (heap w))%nat as Hlt by (eapply lookup_lt_Some; exact Hcm).
  erewrite wasm_init_run by (simpl; apply list_lookup_insert_eq; exact Hlt).
  simpl. rewrite <- app_assoc. simpl.
  split; [exists [EvInit wasm None]; auto|].
  intros _. exists cm. split; [reflexivity|]. split; [reflexivity|].
  rewrite list_lookup_insert_eq by (rewrite length_insert; exact Hlt).
  reflexivity.
Qed.

Lemma bind_ret_run {A B} (c : M A) (b : B) w :
  bind c (fun _ => ret b) w =
  (match fst (c w) with inr _ => inr b | inl e => inl e end, snd (c w)).
Proof. unfold bind, ret. destruct (c w) as [[e|a] w1]; reflexivity. Qed.

Lemma bind_bind_ret {A B C} (c : M A) (k : M B) (b : C) w :
  bind c (fun _ => bind k (fun _ => ret b)) w
  = bind (bind c (fun _ => k)) (fun _ => ret b) w.
Proof.
  unfold bind, ret. destruct (c w) as [[e|a] w1]; [reflexivity|].
  destruct (k w1) as [[e|a'] w2]; reflexivity.
Qed.

(** C10: [createXXHash64] encodes the seed pair little-endian, low word at
    offset 0 and high word at offset 4, and both at creation and at every
    later [init()] of the hasher these bytes are written to offset 0 of the
    instance memory before the backend is initialised, which then runs on a
    memory that holds the seed given at creation. *)
Theorem seed_written_before_init seedLow seedHigh zl zh o w h w' :
  seed_value (default (num 0) seedLow) zl ->
  seed_value (default (num 0) seedHigh) zh ->
  complete o (createXXHash64 seedLow seedHigh w) = (Resolved h, w') ->
  let seed := le32 zl ++ le32 zh in
  let wasm := this_wasm h in
  le32_value (take 4 seed) = zl /\ le32_value (drop 4 seed) = zh /\
  trace w' = trace w ++ [EvInstantiate xxhash64_wasm 8;
                         EvWriteMemory wasm seed 0; EvInit wasm None] /\
  (exists cm, heap w' !! wasm = Some cm /\
     cm_memory cm = Hash_Init xxhash64_wasm None
                      (seed ++ drop 8 (memory_of xxhash64_wasm))) /\
  forall w1,
    let r := init h w1 in
    (exists tail, trace (snd r) = trace w1 ++ EvWriteMemory wasm seed 0 :: tail /\
                  (tail = [] \/ tail = [EvInit wasm None])) /\
    (fst r = inr tt ->
     exists cm, heap w1 !! wasm = Some cm /\
       trace (snd r) = trace w1 ++ [EvWriteMemory wasm seed 0; EvInit wasm None] /\
       heap (snd r) !! wasm
       = Some (with_label Initialized
                 (with_memory (Hash_Init (cm_binary cm) None
                                 (seed ++ drop 8 (cm_memory cm))) cm))).
Proof.
  intros Hlo Hhi Hc. cbv zeta.
  split; [apply le32_value_le32; destruct Hlo; change (2 ^ 32) with 4294967296; lia|].
  split; [apply le32_value_le32; destruct Hhi; change (2 ^ 32) with 4294967296; lia|].
  pose proof (createXXHash64_Resolved _ _ _ _ _ _ Hc) as (-> & Hvl & Hvh & buf & Hbuf & Hh).
  rewrite writeSeed_8 in Hbuf by reflexivity.
  rewrite (ToUint32_seed_value _ _ Hlo), (ToUint32_seed_value _ _ Hhi) in Hbuf.
  injection Hbuf as <-.
  unfold createXXHash64 in Hc. rewrite Hvl, Hvh in Hc.
  rewrite create_complete in Hc. apply settled_Resolved in Hc.
  rewrite writeSeed_8 in Hc by reflexivity.
  rewrite (ToUint32_seed_value _ _ Hlo), (ToUint32_seed_value _ _ Hhi) in Hc.
  rewrite bind_bind_ret, bind_ret_run in Hc.
  pose proof (seeded_init_run (length (heap w)) (le32 zl ++ le32 zh)
                (loaded xxhash64_wasm 8 w)) as [_ Hrun].
  cbv zeta in Hrun.
  destruct (bind _ _ (loaded xxhash64_wasm 8 w)) as [[e|[]] w2] eqn:Hr;
    simpl in Hc; [discriminate|].
  injection Hc as _ <-.
  destruct (Hrun eq_refl) as (cm & Hcm & Htr & Hheap).
  rewrite lookup_loaded in Hcm. injection Hcm as <-.
  subst h. cbn [this_wasm init createXXHash64_obj].
  split.
  { simpl in Htr. rewrite Htr, <- app_assoc. reflexivity. }
  split.
  { eexists. split; [exact Hheap | reflexivity]. }
  intros w1. apply (seeded_init_run (length (heap w)) (le32 zl ++ le32 zh) w1).
Qed.

(** ** The seed of a one-shot call *)

Lemma emits_bind {A B} Q (c : M A) (k : A -> M B) :
  emits Q c -> (forall a, emits Q (k a)) -> emits Q (bind c k).
Proof.
  intros Hc Hk w. unfold bind. destruct (Hc w) as (e1 & Ht1 & Hf1).
  destruct (c w) as [[e|a] w1]; simpl in *; [eauto|].
  destruct (Hk a w1) as (e2 & Ht2 & Hf2).
  exists (e1 ++ e2). rewrite Ht2, Ht1, app_assoc. split; [reflexivity|].
  apply Forall_app; auto.
Qed.

Lemma emits_one {A} (Q : Event -> Prop) (c : M A) ev :
  Q ev -> (forall w, trace (snd (c w)) = trace w ++ [ev]) -> emits Q c.
Proof. intros Hq Hc w. exists [ev]. split; [apply Hc | repeat constructor; exact Hq]. Qed.

Lemma wasm_init_trace wasm bits w :
  trace (snd (wasm_init wasm bits w)) = trace w ++ [EvInit wasm bits].
Proof.
  unfold wasm_init, bind, emit, instance, store, modify; simpl.
  destruct (heap w !! wasm); reflexivity.
Qed.

Lemma wasm_update_trace wasm data w :
  trace (snd (wasm_update wasm data w)) = trace w ++ [EvUpdate wasm data].
Proof.
  unfold wasm_update, bind, emit, instance, store, modify, throw; simpl.
  destruct (heap w !! wasm); [|reflexivity].
  destruct (Hash_Update _ _ _); reflexivity.
Qed.

Lemma wasm_digest_trace wasm outputType w :
  trace (snd (wasm_digest wasm outputType w)) = trace w ++ [EvDigest wasm outputType].
Proof.
  unfold wasm_digest, bind, emit, instance, store, modify, ret; simpl.
  destruct (heap w !! wasm); reflexivity.
Qed.

Lemma installed_trace f w : trace (installed f w) = trace w.
Proof. unfold installed. destruct (mutex (vars f w)); reflexivity. Qed.

Lemma installed_seedBuffer f w : seedBuffer (installed f w) = seedBuffer w.
Proof. unfold installed. destruct (mutex (vars f w)); reflexivity. Qed.

(** ** Single flight *)

Section SingleFlight.
Context {X : Type} (f : File) (binary : Binary) (hashLength : Z).
Context (call : X -> Async string) (cb : X -> nat -> M string).

Lemma issue_while_loading xs w b hl :
  (forall x, In x xs -> forall w0, wasmCache (vars f w0) = None ->
             call x w0 = then_ (lockedCreate f binary hashLength) (cb x) w0) ->
  wasmCache (vars f w) = None ->
  mutex (vars f w) = Loading b hl ->
  issue (map call xs) w = (map (fun x => waiter f (cb x)) xs, w).
Proof.
  intros Hcall Hc Hm. induction xs as [|x xs IH]; [reflexivity|].
  simpl. rewrite (Hcall x (or_introl eq_refl) w Hc).
  unfold then_, lockedCreate. cbv zeta. rewrite Hm.
  rewrite IH by (intros y Hy; apply Hcall; right; exact Hy).
  reflexivity.
Qed.

Lemma issue_first_use x xs w :
  (forall y, In y (x :: xs) -> forall w0, wasmCache (vars f w0) = None ->
             call y w0 = then_ (lockedCreate f binary hashLength) (cb y) w0) ->
  wasmCache (vars f w) = None ->
  mutex (vars f w) = Empty ->
  issue (map call (x :: xs)) w
  = (map (fun x => waiter f (cb x)) (x :: xs), started f binary hashLength w).
Proof.
  intros Hcall Hc Hm. simpl. rewrite (Hcall x (or_introl eq_refl) w Hc).
  unfold then_, lockedCreate. cbv zeta. rewrite Hm.
  fold (started f binary hashLength w).
  rewrite (issue_while_loading xs _ binary hashLength).
  - reflexivity.
  - intros y Hy. apply Hcall. right. exact Hy.
  - unfold started, set_mutex. rewrite vars_with_vars. exact Hc.
  - unfold started, set_mutex. rewrite vars_with_vars. reflexivity.
Qed.

Lemma resolve_waiters_ok wasm xs w :
  resolve_waiters f (inr wasm) (map (fun x => waiter f (cb x)) xs) w
  = serve (map (fun x => cb x wasm) xs) w.
Proof.
  revert w. induction xs as [|x xs IH]; intros w; [reflexivity|].
  simpl. rewrite File_eqb_refl.
  change (bind (ret wasm) (cb x) w) with (cb x wasm w).
  destruct (settled (cb x wasm w)) as [p w1]. rewrite IH. reflexivity.
Qed.

Lemma resolve_waiters_failed e xs w :
  resolve_waiters f (inl e) (map (fun x => waiter f (cb x)) xs) w
  = (map (fun _ => Rejected e) xs, w).
Proof.
  induction xs as [|x xs IH]; [reflexivity|].
  simpl. rewrite File_eqb_refl, IH. reflexivity.
Qed.

Lemma serve_outcome wasm xs w :
  (forall x, caches_and_computes f (cb x)) ->
  let r := serve (map (fun x => cb x wasm) xs) w in
  loads (trace (snd r)) = loads (trace w) /\
  length (fst r) = length xs /\
  Forall is_settled (fst r) /\
  length (heap (snd r)) = length (heap w) /\
  (xs <> [] -> wasmCache (vars f (snd r)) = Some wasm).
Proof.
  intros Hcb. revert w. induction xs as [|x xs IH]; intros w.
  - simpl. repeat split; [constructor | congruence].
  - simpl.
    pose proof (settled_is_settled (cb x wasm w)) as Hs.
    pose proof (snd_settled (cb x wasm w)) as Hw.
    destruct (settled (cb x wasm w)) as [p w1]. simpl in Hs, Hw.
    specialize (IH w1). cbv zeta in IH.
    destruct (serve (map (fun x => cb x wasm) xs) w1) as [ps w2] eqn:Hserve.
    cbn [fst snd] in *.
    destruct IH as (Hl & Hn & Hf & Hh & Hcache).
    pose proof (Hcb x wasm w) as Ht. rewrite <- Hw in Ht.
    destruct (callback_outcome f (cb x) wasm w (Hcb x)) as (Hc1 & _ & _ & Hl1).
    rewrite <- Hw in Hc1, Hl1.
    split; [rewrite Hl; apply (touches_only_loads _ _ _ Ht)|].
    split; [cbn [length]; congruence|]. split; [constructor; assumption|].
    split; [congruence|].
    intros _. destruct xs as [|y xs]; [|apply Hcache; discriminate].
    simpl in Hserve. injection Hserve as _ <-. exact Hc1.
Qed.

Lemma all_rejected_settled e (xs : list X) :
  Forall is_settled (map (fun _ => Rejected e : Promise string) xs).
Proof. induction xs; simpl; constructor; [exact I | assumption]. Qed.

Lemma single_flight_generic xs o w :
  xs <> [] ->
  (forall x, In x xs -> forall w0, wasmCache (vars f w0) = None ->
             call x w0 = then_ (lockedCreate f binary hashLength) (cb x) w0) ->
  (forall x, caches_and_computes f (cb x)) ->
  wasmCache (vars f w) = None ->
  mutex (vars f w) = Empty ->
  single_flight_outcome f cb xs o w (concurrent_first_use f (map call xs) o w).
Proof.
  intros Hne Hcall Hcb Hc Hm. destruct xs as [|x xs]; [congruence|].
  unfold concurrent_first_use. rewrite (issue_first_use x xs w Hcall Hc Hm).
  set (w0 := started f binary hashLength w).
  assert (mutex (vars f w0) = Loading binary hashLength) as Hm0
    by (unfold w0, started, set_mutex; rewrite vars_with_vars; reflexivity).
  assert (loads (trace w0) = S (loads (trace w))) as Hl0
    by (simpl; rewrite loads_app; simpl; lia).
  unfold settle_shared. rewrite Hm0. destruct o as [|e].
  - rewrite resolve_waiters_ok.
    set (w1 := set_mutex f (Ready (length (heap w0))) _).
    pose proof (serve_outcome (length (heap w0)) (x :: xs) w1 Hcb) as Hs.
    cbv zeta in Hs. destruct Hs as (Hl & Hn & Hf & Hh & Hcache).
    assert (length (heap w1) = S (length (heap w))) as Hlen1
      by (simpl; rewrite length_app; simpl; lia).
    unfold single_flight_outcome.
    split; [rewrite Hl; exact Hl0|]. split; [exact Hn|]. split; [exact Hf|].
    exists w1. split; [exact Hlen1|].
    split; [unfold w1, set_mutex; rewrite vars_with_vars; reflexivity|].
    split; [reflexivity|].
    split; [apply Hcache; discriminate | congruence].
  - rewrite resolve_waiters_failed. unfold single_flight_outcome. cbn [fst snd].
    split; [exact Hl0|]. split; [apply (length_map (fun _ => Rejected e))|].
    split; [apply all_rejected_settled|].
    split; [reflexivity|].
    split; [|reflexivity].
    unfold set_mutex. rewrite vars_with_vars. simpl.
    unfold w0, started, set_mutex. rewrite vars_with_vars. exact Hc.
Qed.

End SingleFlight.

(** C4: any number N >= 1 of first-use calls of the same one-shot function,
    all issued before the load settles, invoke the module loader exactly once,
    and every caller observes the outcome of that load: the same error for
    all, or a computation on the one new instance for each.  (For [xxhash64]
    the calls are those that pass seed validation.) *)
Theorem single_flight (ds : list IDataType)
  (cs : list (IDataType * option number * option number)) o w :
  (ds <> [] ->
   wasmCache (vars crc32_ts w) = None -> mutex (vars crc32_ts w) = Empty ->
   single_flight_outcome crc32_ts crc32_loaded ds o w
     (concurrent_first_use crc32_ts (map crc32 ds) o w)) /\
  (ds <> [] ->
   wasmCache (vars sha224_ts w) = None -> mutex (vars sha224_ts w) = Empty ->
   single_flight_outcome sha224_ts sha224_loaded ds o w
     (concurrent_first_use sha224_ts (map sha224 ds) o w)) /\
  (cs <> [] -> List.Forall valid_seeds cs ->
   wasmCache (vars xxhash64_ts w) = None -> mutex (vars xxhash64_ts w) = Empty ->
   single_flight_outcome xxhash64_ts xxhash64_call_loaded cs o w
     (concurrent_first_use xxhash64_ts (map xxhash64_call cs) o w)).
Proof.
  split; [|split].
  - intros Hne Hc Hm.
    apply (single_flight_generic crc32_ts crc32_wasm 4); auto.
    + intros d _ w0 Hc0. unfold crc32. rewrite Hc0. reflexivity.
    + intros d. apply calculate_callback.
  - intros Hne Hc Hm.
    apply (single_flight_generic sha224_ts sha256_wasm 28); auto.
    + intros d _ w0 Hc0. unfold sha224. rewrite Hc0. reflexivity.
    + intros d. apply calculate_callback.
  - intros Hne Hvalid Hc Hm.
    apply (single_flight_generic xxhash64_ts xxhash64_wasm 8); auto.
    + intros c Hin w0 Hc0.
      destruct (proj1 (List.Forall_forall _ _) Hvalid c Hin) as [Hlo Hhi].
      apply validateSeed_None in Hlo, Hhi.
      unfold xxhash64_call, xxhash64_call_loaded, xxhash64.
      rewrite Hlo, Hhi, Hc0. reflexivity.
    + intros c. apply xxhash64_callback.
Qed.

End Properties.

(** * Further properties of the three files *)

Section MoreProperties.
Context {P : Platform}.

(** ** Seeds *)

Lemma is_uint32_num z : is_uint32 (num z) <-> 0 <= z <= 4294967295.
Proof.
  split.
  - intros (z' & Hz & Hq). unfold num, Qeq in Hq. simpl in Hq. lia.
  - intros Hz. exists z. split; [exact Hz | reflexivity].
Qed.

(** X1: [validateSeed] returns [null] exactly for the integers of
    [0, 2^32 - 1]: a fraction, a negative number, a number above 0xFFFFFFFF,
    [NaN] and the infinities all get the error object. *)
Theorem validateSeed_accepts_exactly_uint32 n :
  (validateSeed n = None <-> is_uint32 n) /\
  (validateSeed n <> None <-> validateSeed n = Some (JsError seed_message)) /\
  (forall z, validateSeed (num z) = None <-> 0 <= z <= 4294967295) /\
  validateSeed NaN = Some (JsError seed_message) /\
  (forall s, validateSeed (Infinity s) = Some (JsError seed_message)) /\
  (forall q, validateSeed (Fin q) = None -> exists z, (q == inject_Z z)%Q).
Proof.
  split; [apply validateSeed_None|].
  split.
  { split.
    - intros Hn. destruct (validateSeed n) as [e|] eqn:Hv; [|congruence].
      apply validateSeed_Some in Hv. congruence.
    - intros ->. discriminate. }
  split; [intros z; rewrite validateSeed_None; apply is_uint32_num|].
  split; [reflexivity|]. split; [intros s; reflexivity|].
  intros q Hq. apply validateSeed_None in Hq as (z & _ & Hz). eauto.
Qed.

(** [writeSeed] on a buffer of at least eight bytes. *)
Lemma writeSeed_ge8 arr low high :
  (8 <= length arr)%nat ->
  writeSeed arr low high
  = (inr tt, le32 (ToUint32 low) ++ le32 (ToUint32 high) ++ drop 8 arr).
Proof.
  intros Hl.
  do 8 (destruct arr as [|? arr]; [simpl in Hl; lia|]).
  reflexivity.
Qed.

(** X2: on a buffer of at least eight bytes, [writeSeed] with two valid seed
    words succeeds and keeps the length; the first eight bytes are bytes and
    read back, little-endian, as the low word at offset 0 and the high word at
    offset 4, whatever the buffer held; the bytes from offset 8 on are kept. *)
Theorem writeSeed_round_trip arr low high zl zh :
  seed_value low zl -> seed_value high zh ->
  (8 <= length arr)%nat ->
  exists bs,
    writeSeed arr low high = (inr tt, bs) /\
    length bs = length arr /\
    Forall is_byte (take 8 bs) /\
    le32_value (take 4 bs) = zl /\
    le32_value (take 4 (drop 4 bs)) = zh /\
    drop 8 bs = drop 8 arr.
Proof.
  intros Hlo Hhi Hl. rewrite (writeSeed_ge8 _ _ _ Hl).
  rewrite (ToUint32_seed_value _ _ Hlo), (ToUint32_seed_value _ _ Hhi).
  assert (0 <= zl < 2 ^ 32) as Hzl
    by (destruct Hlo; change (2 ^ 32) with 4294967296; lia).
  assert (0 <= zh < 2 ^ 32) as Hzh
    by (destruct Hhi; change (2 ^ 32) with 4294967296; lia).
  eexists. split; [reflexivity|].
  split.
  { rewrite !length_app, length_drop. simpl. lia. }
  split.
  { change (take 8 (le32 zl ++ le32 zh ++ drop 8 arr)) with (le32 zl ++ le32 zh).
    apply Forall_app; split; apply le32_bytes. }
  split; [apply (le32_value_le32 zl Hzl)|].
  split; [apply (le32_value_le32 zh Hzh)|].
  reflexivity.
Qed.

(** X3: the encoding keeps the whole seed: two valid seed pairs that leave
    the same eight bytes in their buffers are the same pair. *)
Theorem writeSeed_injective arr1 arr2 low1 high1 low2 high2 zl1 zh1 zl2 zh2 :
  seed_value low1 zl1 -> seed_value high1 zh1 ->
  seed_value low2 zl2 -> seed_value high2 zh2 ->
  (8 <= length arr1)%nat -> (8 <= length arr2)%nat ->
  take 8 (snd (writeSeed arr1 low1 high1)) = take 8 (snd (writeSeed arr2 low2 high2)) ->
  zl1 = zl2 /\ zh1 = zh2.
Proof.
  intros Hl1 Hh1 Hl2 Hh2 Ha1 Ha2.
  rewrite (writeSeed_ge8 _ _ _ Ha1), (writeSeed_ge8 _ _ _ Ha2).
  rewrite (ToUint32_seed_value _ _ Hl1), (ToUint32_seed_value _ _ Hh1),
          (ToUint32_seed_value _ _ Hl2), (ToUint32_seed_value _ _ Hh2).
  change (take 8 (snd (inr tt, le32 zl1 ++ le32 zh1 ++ drop 8 arr1)))
    with (le32 zl1 ++ le32 zh1).
  change (take 8 (snd (inr tt, le32 zl2 ++ le32 zh2 ++ drop 8 arr2)))
    with (le32 zl2 ++ le32 zh2).
  intros Heq.
  assert (forall z, 0 <= z <= 4294967295 -> 0 <= z < 2 ^ 32) as Hr
    by (intros z Hz; change (2 ^ 32) with 4294967296; lia).
  pose proof (f_equal (fun l => le32_value (take 4 l)) Heq) as Hlow.
  pose proof (f_equal (fun l => le32_value (drop 4 l)) Heq) as Hhigh.
  cbv beta in Hlow, Hhigh.
  change (take 4 (le32 zl1 ++ le32 zh1)) with (le32 zl1) in Hlow.
  change (take 4 (le32 zl2 ++ le32 zh2)) with (le32 zl2) in Hlow.
  change (drop 4 (le32 zl1 ++ le32 zh1)) with (le32 zh1) in Hhigh.
  change (drop 4 (le32 zl2 ++ le32 zh2)) with (le32 zh2) in Hhigh.
  rewrite !le32_value_le32 in Hlow, Hhigh
    by (apply Hr; first [apply Hl1 | apply Hl2 | apply Hh1 | apply Hh2]).
  auto.
Qed.

(** ** Instances do not interfere *)

(** X4: every method of a hasher resolved by [createCRC32], [createSHA224] or
    [createXXHash64] touches only the instance the hasher was created on: the
    module-level variables, the module-level seed buffer, every other
    instance and the loader are left alone. *)
Theorem hasher_touches_only_its_instance seedLow seedHigh o w h w' :
  complete o (createCRC32 w) = (Resolved h, w') \/
  complete o (createSHA224 w) = (Resolved h, w') \/
  complete o (createXXHash64 seedLow seedHigh w) = (Resolved h, w') ->
  forall data outputType blob w1,
    touches_only (this_wasm h) w1 (snd (init h w1)) /\
    touches_only (this_wasm h) w1 (snd (update h data w1)) /\
    touches_only (this_wasm h) w1 (snd (digest h outputType w1)) /\
    touches_only (this_wasm h) w1 (snd (call_save h w1)) /\
    touches_only (this_wasm h) w1 (snd (call_load h blob w1)).
Proof.
  intros [Hc | [Hc | Hc]] data outputType blob w1.
  - apply createCRC32_Resolved in Hc as [_ ->].
    unfold call_save, call_load. cbn [createCRC32_obj this_wasm init update digest save load].
    auto 6 using wasm_init_touches, wasm_update_touches, wasm_digest_touches,
                 wasm_save_touches, wasm_load_touches.
  - apply createSHA224_Resolved in Hc as [_ ->].
    unfold call_save, call_load. cbn [createSHA224_obj this_wasm init update digest save load].
    auto 6 using wasm_init_touches, wasm_update_touches, wasm_digest_touches,
                 touches_only_refl.
  - apply createXXHash64_Resolved in Hc as (_ & _ & _ & buf & _ & ->).
    unfold call_save, call_load.
    cbn [createXXHash64_obj this_wasm init update digest save load].
    split.
    { apply bind_touches; intros;
        [apply wasm_writeMemory_touches | apply wasm_init_touches]. }
    auto 6 using wasm_update_touches, wasm_digest_touches,
                 wasm_save_touches, wasm_load_touches.
Qed.

(** A call through [lockedCreate] leaves alone every instance that the lock of
    the file does not refer to. *)
Lemma locked_keeps_others {A} f binary hashLength (cb : nat -> M A) o w i :
  caches_and_computes f cb ->
  (i < length (heap w))%nat ->
  mutex (vars f w) <> Ready i ->
  heap (snd (complete o (then_ (lockedCreate f binary hashLength) cb w))) !! i
  = heap w !! i.
Proof.
  intros Hcb Hi Hready. rewrite locked_complete. cbv zeta.
  assert (forall wasm w1, wasm <> i ->
            heap (snd (settled (cb wasm w1))) !! i = heap w1 !! i) as Hrun.
  { intros wasm w1 Hne. rewrite snd_settled.
    rewrite (touched_others _ _ _ (Hcb wasm w1)) by congruence. reflexivity. }
  assert (forall w1 b hl,
            mutex (vars f w1) = Loading b hl -> heap w1 = heap w ->
            heap (snd match o with
                      | Instantiated => settled (cb (length (heap w1)) (installed f w1))
                      | LoaderFailed e => (Rejected e, set_mutex f (Failed e) w1)
                      end) !! i = heap w !! i) as Hgo.
  { intros w1 b hl Hm Hh. destruct o as [|e]; [|simpl; rewrite Hh; reflexivity].
    rewrite Hrun by (rewrite Hh; lia).
    unfold installed. rewrite Hm. simpl. rewrite Hh. apply lookup_app_l. exact Hi. }
  destruct (mutex (vars f w)) as [|b hl|wasm|e] eqn:Hm.
  - eapply Hgo; [|reflexivity].
    unfold started, set_mutex. rewrite vars_with_vars. reflexivity.
  - eapply Hgo; [exact Hm | reflexivity].
  - apply Hrun. congruence.
  - destruct retry_failed_load; [|reflexivity].
    eapply Hgo; [|reflexivity].
    unfold started, set_mutex. rewrite vars_with_vars. reflexivity.
Qed.

Lemma hit_keeps_others wasm o w (r : (Error + string) * World) i :
  wasm <> i ->
  touches_only wasm (with_seedBuffer (seedBuffer (snd r)) w) (snd r) ->
  heap (snd (complete o (settled r))) !! i = heap w !! i.
Proof.
  intros Hne Ht. rewrite complete_settled, snd_settled.
  rewrite (touched_others _ _ _ Ht) by congruence. reflexivity.
Qed.

(** X5: a one-shot call, whatever path it takes and however it ends, leaves
    intact every instance of the store other than the one its own file's
    cache or creation lock refers to; in particular the instance of any
    hasher. *)
Theorem one_shot_leaves_other_instances data seedLow seedHigh o w i :
  (i < length (heap w))%nat ->
  (wasmCache (vars crc32_ts w) <> Some i -> mutex (vars crc32_ts w) <> Ready i ->
   heap (snd (complete o (crc32 data w))) !! i = heap w !! i) /\
  (wasmCache (vars sha224_ts w) <> Some i -> mutex (vars sha224_ts w) <> Ready i ->
   heap (snd (complete o (sha224 data w))) !! i = heap w !! i) /\
  (wasmCache (vars xxhash64_ts w) <> Some i -> mutex (vars xxhash64_ts w) <> Ready i ->
   heap (snd (complete o (xxhash64 data seedLow seedHigh w))) !! i = heap w !! i).
Proof.
  intros Hi. split; [|split]; intros Hcache Hready.
  - unfold crc32. destruct (wasmCache (vars crc32_ts w)) as [wasm|] eqn:Hc.
    + apply (hit_keeps_others wasm); [congruence|].
      rewrite (wasmCache_calculate_cached _ _ _ _ _ Hc).
      apply touches_only_reseed, wasm_calculate_touches.
    + apply locked_keeps_others; [apply calculate_callback | exact Hi | exact Hready].
  - unfold sha224. destruct (wasmCache (vars sha224_ts w)) as [wasm|] eqn:Hc.
    + apply (hit_keeps_others wasm); [congruence|].
      rewrite (wasmCache_calculate_cached _ _ _ _ _ Hc).
      apply touches_only_reseed, wasm_calculate_touches.
    + apply locked_keeps_others; [apply calculate_callback | exact Hi | exact Hready].
  - unfold xxhash64.
    destruct (validateSeed (default (num 0) seedLow)); [reflexivity|].
    destruct (validateSeed (default (num 0) seedHigh)); [reflexivity|].
    destruct (wasmCache (vars xxhash64_ts w)) as [wasm|] eqn:Hc.
    + apply (hit_keeps_others wasm); [congruence|].
      apply seeded_calculate_touches. exact Hc.
    + apply locked_keeps_others; [apply xxhash64_callback | exact Hi | exact Hready].
Qed.

(** ** Calls made one after the other *)

Lemma complete_is_settled {A} o (pw : Promise A * World) :
  is_settled (fst pw) -> complete o pw = pw.
Proof. destruct pw as [[a|e|l k] w]; simpl; [reflexivity | reflexivity | contradiction]. Qed.

Section Sequential.
Context {X : Type} (f : File) (binary : Binary) (hashLength : Z).
Context (call : X -> Async string) (cb : X -> nat -> M string).
Hypothesis call_miss :
  forall x w, wasmCache (vars f w) = None ->
              call x w = then_ (lockedCreate f binary hashLength) (cb x) w.
Hypothesis call_hit :
  forall x w wasm, wasmCache (vars f w) = Some wasm ->
    is_settled (fst (call x w)) /\
    touches_only wasm (with_seedBuffer (seedBuffer (snd (call x w))) w) (snd (call x w)).
Hypothesis callbacks : forall x, caches_and_computes f (cb x).

Lemma sequentially_cached xs o w wasm :
  wasmCache (vars f w) = Some wasm ->
  let r := sequentially (map call xs) o w in
  loads (trace (snd r)) = loads (trace w) /\
  length (heap (snd r)) = length (heap w) /\
  wasmCache (vars f (snd r)) = Some wasm /\
  Forall is_settled (fst r).
Proof.
  revert w. induction xs as [|x xs IH]; intros w Hc.
  - simpl. repeat split; [exact Hc | constructor].
  - simpl. destruct (call_hit x w wasm Hc) as [Hs Ht].
    rewrite (complete_is_settled o _ Hs).
    destruct (call x w) as [p w1]. cbn [fst snd] in *.
    assert (wasmCache (vars f w1) = Some wasm) as Hc1
      by (rewrite (touched_vars _ _ _ Ht); exact Hc).
    specialize (IH w1 Hc1). cbv zeta in IH.
    destruct (sequentially (map call xs) o w1) as [ps w2]. cbn [fst snd] in *.
    destruct IH as (Hl & Hh & Hc2 & Hf).
    split; [rewrite Hl; apply (touches_only_loads _ _ _ Ht)|].
    split; [rewrite Hh; apply (touched_length _ _ _ Ht)|].
    split; [exact Hc2 | constructor; assumption].
Qed.

Lemma sequentially_first_use x xs w :
  mutex (vars f w) = Empty ->
  wasmCache (vars f w) = None ->
  let r := sequentially (map call (x :: xs)) Instantiated w in
  loads (trace (snd r)) = S (loads (trace w)) /\
  length (heap (snd r)) = S (length (heap w)) /\
  wasmCache (vars f (snd r)) = Some (length (heap w)) /\
  Forall is_settled (fst r).
Proof.
  intros Hm Hc. cbn [map sequentially]. rewrite (call_miss x w Hc).
  pose proof (first_use_caches f binary hashLength (cb x) w (callbacks x) Hm) as Hcached.
  rewrite locked_complete, Hm in Hcached |- *. cbv beta iota zeta in Hcached |- *.
  set (w0 := installed f (started f binary hashLength w)) in *.
  pose proof (callbacks x (length (heap (started f binary hashLength w))) w0) as Ht.
  pose proof (settled_is_settled (cb x (length (heap (started f binary hashLength w))) w0))
    as Hs.
  rewrite <- (snd_settled (cb x _ w0)) in Ht.
  destruct (settled (cb x (length (heap (started f binary hashLength w))) w0)) as [p w1].
  cbn [fst snd] in *.
  assert (mutex (vars f (started f binary hashLength w)) = Loading binary hashLength)
    as Hst by (unfold started, set_mutex; rewrite vars_with_vars; reflexivity).
  assert (loads (trace w1) = S (loads (trace w))) as Hl1.
  { rewrite (touches_only_loads _ _ _ Ht). simpl. unfold w0.
    rewrite installed_trace. simpl. rewrite loads_app. simpl. lia. }
  assert (length (heap w1) = S (length (heap w))) as Hh1.
  { rewrite (touched_length _ _ _ Ht). simpl. unfold w0, installed. rewrite Hst.
    simpl. rewrite length_app. simpl. lia. }
  pose proof (sequentially_cached xs Instantiated w1 _ Hcached) as IH. cbv zeta in IH.
  destruct (sequentially (map call xs) Instantiated w1) as [ps w2]. cbn [fst snd] in *.
  destruct IH as (Hl & Hh & Hc2 & Hf).
  split; [congruence|]. split; [congruence|].
  split; [exact Hc2 | constructor; assumption].
Qed.

End Sequential.

Lemma crc32_hit data w wasm :
  wasmCache (vars crc32_ts w) = Some wasm ->
  is_settled (fst (crc32 data w)) /\
  touches_only wasm (with_seedBuffer (seedBuffer (snd (crc32 data w))) w)
    (snd (crc32 data w)).
Proof.
  intros Hc. unfold crc32. rewrite Hc, (wasmCache_calculate_cached _ _ _ _ _ Hc).
  rewrite snd_settled. split; [apply settled_is_settled|].
  apply touches_only_reseed, wasm_calculate_touches.
Qed.

Lemma sha224_hit data w wasm :
  wasmCache (vars sha224_ts w) = Some wasm ->
  is_settled (fst (sha224 data w)) /\
  touches_only wasm (with_seedBuffer (seedBuffer (snd (sha224 data w))) w)
    (snd (sha224 data w)).
Proof.
  intros Hc. unfold sha224. rewrite Hc, (wasmCache_calculate_cached _ _ _ _ _ Hc).
  rewrite snd_settled. split; [apply settled_is_settled|].
  apply touches_only_reseed, wasm_calculate_touches.
Qed.

Lemma xxhash64_hit data seedLow seedHigh w wasm :
  wasmCache (vars xxhash64_ts w) = Some wasm ->
  is_settled (fst (xxhash64 data seedLow seedHigh w)) /\
  touches_only wasm
    (with_seedBuffer (seedBuffer (snd (xxhash64 data seedLow seedHigh w))) w)
    (snd (xxhash64 data seedLow seedHigh w)).
Proof.
  intros Hc. unfold xxhash64.
  destruct (validateSeed (default (num 0) seedLow));
    [split; [exact I | apply touches_only_reseed, touches_only_refl]|].
  destruct (validateSeed (default (num 0) seedHigh));
    [split; [exact I | apply touches_only_reseed, touches_only_refl]|].
  rewrite Hc, snd_settled. split; [apply settled_is_settled|].
  apply seeded_calculate_touches. exact Hc.
Qed.

(** X6: any number of calls of one one-shot function made one after the
    other, starting with nothing loaded and a loader that succeeds, invoke the
    loader once in total and create one instance; all of them settle and the
    cache ends up holding that instance.  (For [xxhash64], with a first call
    that passes seed validation.) *)
Theorem sequential_calls_load_once d (ds : list IDataType)
  (c : IDataType * option number * option number)
  (cs : list (IDataType * option number * option number)) w :
  (mutex (vars crc32_ts w) = Empty -> wasmCache (vars crc32_ts w) = None ->
   let r := sequentially (map crc32 (d :: ds)) Instantiated w in
   loads (trace (snd r)) = S (loads (trace w)) /\
   length (heap (snd r)) = S (length (heap w)) /\
   wasmCache (vars crc32_ts (snd r)) = Some (length (heap w)) /\
   Forall is_settled (fst r)) /\
  (mutex (vars sha224_ts w) = Empty -> wasmCache (vars sha224_ts w) = None ->
   let r := sequentially (map sha224 (d :: ds)) Instantiated w in
   loads (trace (snd r)) = S (loads (trace w)) /\
   length (heap (snd r)) = S (length (heap w)) /\
   wasmCache (vars sha224_ts (snd r)) = Some (length (heap w)) /\
   Forall is_settled (fst r)) /\
  (valid_seeds c ->
   mutex (vars xxhash64_ts w) = Empty -> wasmCache (vars xxhash64_ts w) = None ->
   let r := sequentially (map xxhash64_call (c :: cs)) Instantiated w in
   loads (trace (snd r)) = S (loads (trace w)) /\
   length (heap (snd r)) = S (length (heap w)) /\
   wasmCache (vars xxhash64_ts (snd r)) = Some (length (heap w)) /\
   Forall is_settled (fst r)).
Proof.
  split; [|split].
  - intros Hm Hc.
    apply (sequentially_first_use crc32_ts crc32_wasm 4 crc32 crc32_loaded); auto.
    + intros x w0 H0. unfold crc32. rewrite H0. reflexivity.
    + intros x w0 wasm. apply crc32_hit.
    + intros x. apply calculate_callback.
  - intros Hm Hc.
    apply (sequentially_first_use sha224_ts sha256_wasm 28 sha224 sha224_loaded); auto.
    + intros x w0 H0. unfold sha224. rewrite H0. reflexivity.
    + intros x w0 wasm. apply sha224_hit.
    + intros x. apply calculate_callback.
  - intros [Hlo Hhi] Hm Hc. apply validateSeed_None in Hlo, Hhi.
    cbn [map sequentially].
    (* the first call reaches [lockedCreate]; the later ones find the cache set *)
    pose proof (first_use_caches xxhash64_ts xxhash64_wasm 8
                  (xxhash64_call_loaded c) w (xxhash64_callback _ _ _) Hm) as Hcached.
    assert (xxhash64_call c w
            = then_ (lockedCreate xxhash64_ts xxhash64_wasm 8)
                (xxhash64_call_loaded c) w) as ->.
    { unfold xxhash64_call, xxhash64_call_loaded, xxhash64.
      rewrite Hlo, Hhi, Hc. reflexivity. }
    rewrite locked_complete, Hm in Hcached |- *. cbv beta iota zeta in Hcached |- *.
    set (w0 := installed xxhash64_ts (started xxhash64_ts xxhash64_wasm 8 w)) in *.
    set (wasm := length (heap (started xxhash64_ts xxhash64_wasm 8 w))) in *.
    pose proof (xxhash64_callback (fst (fst c)) (default (num 0) (snd (fst c)))
                  (default (num 0) (snd c)) wasm w0) as Ht.
    fold (xxhash64_call_loaded c) in Ht.
    pose proof (settled_is_settled (xxhash64_call_loaded c wasm w0)) as Hs.
    rewrite <- (snd_settled (xxhash64_call_loaded c wasm w0)) in Ht.
    destruct (settled (xxhash64_call_loaded c wasm w0)) as [p w1].
    cbn [fst snd] in *.
    assert (loads (trace w1) = S (loads (trace w))) as Hl1.
    { rewrite (touches_only_loads _ _ _ Ht). simpl. rewrite loads_app. simpl. lia. }
    assert (length (heap w1) = S (length (heap w))) as Hh1.
    { rewrite (touched_length _ _ _ Ht). simpl. rewrite length_app. simpl. lia. }
    pose proof (sequentially_cached xxhash64_ts xxhash64_call
                  (fun x w0 wasm => xxhash64_hit _ _ _ w0 wasm)
                  cs Instantiated w1 _ Hcached) as IH.
    cbv zeta in IH.
    destruct (sequentially (map xxhash64_call cs) Instantiated w1) as [ps w2].
    cbn [fst snd] in *. destruct IH as (Hl & Hh & Hc2 & Hf).
    split; [congruence|]. split; [congruence|].
    split; [exact Hc2 | constructor; assumption].
Qed.

(** ** What reaches the WebAssembly side *)

Lemma emits_silent {A} (Q : Event -> Prop) (c : M A) :
  (forall w, trace (snd (c w)) = trace w) -> emits Q c.
Proof.
  intros Hc w. exists []. rewrite app_nil_r. split; [apply Hc | constructor].
Qed.

Lemma wasm_calculate_emits (Q : Event -> Prop) wasm data bits :
  Q (EvInit wasm bits) -> Q (EvUpdate wasm data) -> Q (EvDigest wasm hex) ->
  emits Q (wasm_calculate wasm data bits).
Proof.
  intros Hi Hu Hd. unfold wasm_calculate.
  apply emits_bind; [eapply emits_one; [exact Hi | apply wasm_init_trace] | intros _].
  apply emits_bind; [eapply emits_one; [exact Hu | apply wasm_update_trace] | intros _].
  apply emits_bind; [eapply emits_one; [exact Hd | apply wasm_digest_trace] | intros d].
  apply emits_silent. reflexivity.
Qed.

Lemma wasmCache_calculate_emits (Q : Event -> Prop) f data bits :
  (forall wasm, Q (EvInit wasm bits)) -> (forall wasm, Q (EvUpdate wasm data)) ->
  (forall wasm, Q (EvDigest wasm hex)) ->
  emits Q (wasmCache_calculate f data bits).
Proof.
  intros Hi Hu Hd w. unfold wasmCache_calculate.
  destruct (wasmCache (vars f w)) as [wasm|].
  - apply wasm_calculate_emits; auto.
  - exists []. rewrite app_nil_r. split; [reflexivity | constructor].
Qed.

Lemma seeded_calculate_emits data seedLow seedHigh :
  emits (xxhash64_call_allowed data)
    (bind (writeSeed_seedBuffer seedLow seedHigh) (fun _ =>
     bind (wasmCache_writeMemory_seedBuffer xxhash64_ts) (fun _ =>
     wasmCache_calculate xxhash64_ts data None))).
Proof.
  apply emits_bind.
  { apply emits_silent. intros w. unfold writeSeed_seedBuffer.
    destruct (writeSeed _ _ _); reflexivity. }
  intros _. apply emits_bind.
  { intros w. unfold wasmCache_writeMemory_seedBuffer.
    destruct (wasmCache (vars xxhash64_ts w)) as [wasm|].
    - exists [EvWriteMemory wasm (seedBuffer w) 0].
      split; [|repeat constructor].
      rewrite wasm_writeMemory_run. destruct (heap w !! wasm) as [cm|]; [|reflexivity].
      destruct (_ <=? _)%nat; reflexivity.
    - exists []. rewrite app_nil_r. split; [reflexivity | constructor]. }
  intros _. apply wasmCache_calculate_emits; intros; reflexivity.
Qed.

(** The calls made by a call that goes through [lockedCreate]. *)
Lemma locked_calls {A} (Q : Event -> Prop) f binary hashLength (cb : nat -> M A) o w :
  Q (EvInstantiate binary hashLength) ->
  (forall wasm, emits Q (cb wasm)) ->
  exists evs,
    trace (snd (complete o (then_ (lockedCreate f binary hashLength) cb w)))
    = trace w ++ evs /\ Forall Q evs.
Proof.
  intros Hload Hcb. rewrite locked_complete. cbv zeta.
  assert (forall wasm w1 pre,
            trace w1 = trace w ++ pre -> Forall Q pre ->
            exists evs, trace (snd (settled (cb wasm w1))) = trace w ++ evs /\ Forall Q evs)
    as Hrun.
  { intros wasm w1 pre Htr Hpre. rewrite snd_settled.
    destruct (Hcb wasm w1) as (evs & He & Hf).
    exists (pre ++ evs). rewrite He, Htr, app_assoc.
    split; [reflexivity | apply Forall_app; auto]. }
  assert (forall w1 pre,
            trace w1 = trace w ++ pre -> Forall Q pre ->
            exists evs,
              trace (snd match o with
                         | Instantiated => settled (cb (length (heap w1)) (installed f w1))
                         | LoaderFailed e => (Rejected e, set_mutex f (Failed e) w1)
                         end) = trace w ++ evs /\ Forall Q evs) as Hgo.
  { intros w1 pre Htr Hpre. destruct o as [|e].
    - apply (Hrun _ _ pre); [rewrite installed_trace; exact Htr | exact Hpre].
    - exists pre. split; [exact Htr | exact Hpre]. }
  assert (Forall Q [EvInstantiate binary hashLength]) as Hone by (repeat constructor; exact Hload).
  destruct (mutex (vars f w)) as [|b hl|wasm|e].
  - apply (Hgo _ [EvInstantiate binary hashLength]); [reflexivity | exact Hone].
  - apply (Hgo _ []); [symmetry; apply app_nil_r | constructor].
  - apply (Hrun _ _ []); [symmetry; apply app_nil_r | constructor].
  - destruct retry_failed_load.
    + apply (Hgo _ [EvInstantiate binary hashLength]); [reflexivity | exact Hone].
    + exists []. rewrite app_nil_r. split; [reflexivity | constructor].
Qed.

Lemma settled_calls {A} (Q : Event -> Prop) (c : M A) o w :
  emits Q c ->
  exists evs, trace (snd (complete o (settled (c w)))) = trace w ++ evs /\ Forall Q evs.
Proof. intros Hc. rewrite complete_settled, snd_settled. apply Hc. Qed.

(** X7: whatever path a one-shot call takes and however it ends, the only
    calls it makes on the WebAssembly side are: loading its own binary with
    its own digest length, [init] (for [sha224] always with 224, otherwise
    without a variant), [update] with the caller's data and a hexadecimal
    [digest]; [xxhash64] in addition copies bytes to offset 0 of the memory.
    In particular no one-shot call saves or restores a state. *)
Theorem one_shot_calls_allowed data seedLow seedHigh o w :
  (exists evs, trace (snd (complete o (crc32 data w))) = trace w ++ evs /\
               Forall (crc32_call_allowed data) evs) /\
  (exists evs, trace (snd (complete o (sha224 data w))) = trace w ++ evs /\
               Forall (sha224_call_allowed data) evs) /\
  (exists evs, trace (snd (complete o (xxhash64 data seedLow seedHigh w)))
               = trace w ++ evs /\
               Forall (xxhash64_call_allowed data) evs).
Proof.
  assert (forall (Q : Event -> Prop) e, exists evs : list Event,
            trace (snd (Rejected e : Promise string, w)) = trace w ++ evs /\ Forall Q evs)
    as Hrej.
  { intros Q e. exists []. rewrite app_nil_r. split; [reflexivity | constructor]. }
  split; [|split].
  - unfold crc32. destruct (wasmCache (vars crc32_ts w)).
    + apply settled_calls, wasmCache_calculate_emits; intros; reflexivity.
    + apply locked_calls; [split; reflexivity | intros wasm].
      unfold crc32_loaded. apply emits_bind; [apply emits_silent; reflexivity | intros _].
      apply wasmCache_calculate_emits; intros; reflexivity.
  - unfold sha224. destruct (wasmCache (vars sha224_ts w)).
    + apply settled_calls, wasmCache_calculate_emits; intros; reflexivity.
    + apply locked_calls; [split; reflexivity | intros wasm].
      unfold sha224_loaded. apply emits_bind; [apply emits_silent; reflexivity | intros _].
      apply wasmCache_calculate_emits; intros; reflexivity.
  - unfold xxhash64.
    destruct (validateSeed (default (num 0) seedLow)); [apply Hrej|].
    destruct (validateSeed (default (num 0) seedHigh)); [apply Hrej|].
    destruct (wasmCache (vars xxhash64_ts w)).
    + apply settled_calls, seeded_calculate_emits.
    + apply locked_calls; [split; reflexivity | intros wasm].
      unfold xxhash64_loaded. apply emits_bind; [apply emits_silent; reflexivity | intros _].
      apply seeded_calculate_emits.
Qed.

(** ** Creating a CRC-32 or SHA-224 hasher *)

Lemma insert_new_instance (h : list ComputeModule) (cm cm' : ComputeModule) :
  <[length h := cm']> (h ++ [cm]) = h ++ [cm'].
Proof.
  rewrite insert_app_r_alt by lia. rewrite Nat.sub_diag. reflexivity.
Qed.

(** X8: [createCRC32] and [createSHA224] load their own binary with their own
    digest length, initialise the new instance once ([createSHA224] with the
    variant 224) and resolve with a hasher on it; when the loader fails, the
    promise is rejected with the loader's error and the store holds no new
    instance, also for [createXXHash64] with valid seeds.  A later [init()]
    of the hasher initialises the same instance again, with the same variant. *)
Theorem create_protocol seedLow seedHigh w :
  let wasm := length (heap w) in
  (exists w',
     complete Instantiated (createCRC32 w) = (Resolved (createCRC32_obj wasm), w') /\
     trace w' = trace w ++ [EvInstantiate crc32_wasm 4; EvInit wasm None] /\
     heap w' = heap w ++
       [with_label Initialized
          (with_memory (Hash_Init crc32_wasm None (memory_of crc32_wasm))
             (fresh_module crc32_wasm 4))]) /\
  (exists w',
     complete Instantiated (createSHA224 w) = (Resolved (createSHA224_obj wasm), w') /\
     trace w' = trace w ++ [EvInstantiate sha256_wasm 28; EvInit wasm (Some 224)] /\
     heap w' = heap w ++
       [with_label Initialized
          (with_memory (Hash_Init sha256_wasm (Some 224) (memory_of sha256_wasm))
             (fresh_module sha256_wasm 28))]) /\
  (forall e,
     complete (LoaderFailed e) (createCRC32 w)
     = (Rejected e, with_trace (trace w ++ [EvInstantiate crc32_wasm 4]) w) /\
     complete (LoaderFailed e) (createSHA224 w)
     = (Rejected e, with_trace (trace w ++ [EvInstantiate sha256_wasm 28]) w) /\
     (is_uint32 (default (num 0) seedLow) -> is_uint32 (default (num 0) seedHigh) ->
      complete (LoaderFailed e) (createXXHash64 seedLow seedHigh w)
      = (Rejected e, with_trace (trace w ++ [EvInstantiate xxhash64_wasm 8]) w))) /\
  (forall w1 cm,
     heap w1 !! wasm = Some cm ->
     trace (snd (init (createCRC32_obj wasm) w1)) = trace w1 ++ [EvInit wasm None] /\
     heap (snd (init (createCRC32_obj wasm) w1)) !! wasm
     = Some (with_label Initialized
               (with_memory (Hash_Init (cm_binary cm) None (cm_memory cm)) cm)) /\
     trace (snd (init (createSHA224_obj wasm) w1)) = trace w1 ++ [EvInit wasm (Some 224)] /\
     heap (snd (init (createSHA224_obj wasm) w1)) !! wasm
     = Some (with_label Initialized
               (with_memory (Hash_Init (cm_binary cm) (Some 224) (cm_memory cm)) cm))).
Proof.
  cbv zeta. split; [|split; [|split]].
  - unfold createCRC32. rewrite create_complete. unfold bind.
    rewrite (wasm_init_run _ _ _ _ (lookup_loaded crc32_wasm 4 w)).
    eexists. split; [reflexivity|]. simpl. rewrite <- app_assoc.
    split; [reflexivity | apply insert_new_instance].
  - unfold createSHA224. rewrite create_complete. unfold bind.
    rewrite (wasm_init_run _ _ _ _ (lookup_loaded sha256_wasm 28 w)).
    eexists. split; [reflexivity|]. simpl. rewrite <- app_assoc.
    split; [reflexivity | apply insert_new_instance].
  - intros e. split; [reflexivity|]. split; [reflexivity|].
    intros Hlo Hhi. apply validateSeed_None in Hlo, Hhi.
    unfold createXXHash64. rewrite Hlo, Hhi. reflexivity.
  - intros w1 cm Hcm. cbn [init createCRC32_obj createSHA224_obj].
    rewrite !(wasm_init_run _ _ _ _ Hcm). simpl.
    rewrite !list_lookup_insert_eq by (eapply lookup_lt_Some; exact Hcm).
    auto.
Qed.

(** ** A fresh hasher and a first one-shot call agree *)

Lemma wasm_update_run wasm data w cm :
  heap w !! wasm = Some cm ->
  wasm_update wasm data w =
  match Hash_Update (cm_binary cm) data (cm_memory cm) with
  | inl e => (inl e, with_trace (trace w ++ [EvUpdate wasm data]) w)
  | inr mem =>
      (inr tt,
       with_heap (<[wasm := with_label Accumulating (with_memory mem cm)]> (heap w))
         (with_trace (trace w ++ [EvUpdate wasm data]) w))
  end.
Proof.
  intros Hcm. unfold wasm_update, bind, emit, instance, store, modify, throw; simpl.
  rewrite Hcm. destruct (Hash_Update _ _ _); reflexivity.
Qed.

Lemma wasm_digest_run wasm outputType w cm :
  heap w !! wasm = Some cm ->
  fst (wasm_digest wasm outputType w) =
  inr (match outputType with
       | hex => HexString (to_hex (Hash_Final (cm_binary cm) (cm_hashLength cm)
                                     (cm_memory cm)))
       | binary => Raw (Hash_Final (cm_binary cm) (cm_hashLength cm) (cm_memory cm))
       end).
Proof.
  intros Hcm. unfold wasm_digest, bind, emit, instance, store, modify, ret; simpl.
  rewrite Hcm. reflexivity.
Qed.

(** The hexadecimal digest of [data] on the instance content [cm], after an
    [init] with [bits]. *)
Lemma wasm_calculate_value wasm data bits w cm :
  heap w !! wasm = Some cm ->
  fst (wasm_calculate wasm data bits w) =
  match Hash_Update (cm_binary cm) data (Hash_Init (cm_binary cm) bits (cm_memory cm)) with
  | inl e => inl e
  | inr mem => inr (to_hex (Hash_Final (cm_binary cm) (cm_hashLength cm) mem))
  end.
Proof.
  intros Hcm. assert (wasm < length (heap w))%nat as Hlt
    by (eapply lookup_lt_Some; exact Hcm).
  unfold wasm_calculate. unfold bind at 1. rewrite (wasm_init_run _ _ _ _ Hcm).
  unfold bind at 1.
  erewrite wasm_update_run by (simpl; apply list_lookup_insert_eq; exact Hlt).
  simpl. destruct (Hash_Update _ _ _) as [e|mem]; [reflexivity|].
  unfold bind.
  match goal with
  | |- context [wasm_digest wasm hex ?w1] =>
      pose proof (wasm_digest_run wasm hex w1
                    (with_label Accumulating
                       (with_memory mem
                          (with_label Initialized
                             (with_memory (Hash_Init (cm_binary cm) bits (cm_memory cm))
                                cm))))) as Hd;
      destruct (wasm_digest wasm hex w1) as [r w2]
  end.
  simpl in Hd. rewrite Hd; [reflexivity|].
  rewrite list_lookup_insert_eq by (rewrite length_insert; exact Hlt). reflexivity.
Qed.

(** [update] then a hexadecimal [digest] on an instance that has just been
    initialised. *)
Lemma update_digest_value wasm data w cm :
  heap w !! wasm = Some cm ->
  match wasm_update wasm data w with
  | (inl e, _) => inl e
  | (inr _, w1) =>
      match wasm_digest wasm hex w1 with
      | (inl e, _) => inl e
      | (inr (HexString s), _) => inr s
      | (inr (Raw b), _) => inr (to_hex b)
      end
  end =
  match Hash_Update (cm_binary cm) data (cm_memory cm) with
  | inl e => inl e
  | inr mem => inr (to_hex (Hash_Final (cm_binary cm) (cm_hashLength cm) mem))
  end.
Proof.
  intros Hcm. assert (wasm < length (heap w))%nat as Hlt
    by (eapply lookup_lt_Some; exact Hcm).
  rewrite (wasm_update_run _ _ _ _ Hcm).
  destruct (Hash_Update _ _ _) as [e|mem]; [reflexivity|].
  match goal with
  | |- context [wasm_digest wasm hex ?w1] =>
      pose proof (wasm_digest_run wasm hex w1
                    (with_label Accumulating (with_memory mem cm))) as Hd;
      destruct (wasm_digest wasm hex w1) as [r w2]
  end.
  simpl in Hd. rewrite Hd; [reflexivity|].
  apply list_lookup_insert_eq. exact Hlt.
Qed.

Lemma outcome_settled {A} (r : (Error + A) * World) :
  outcome (fst (settled r)) = Some (fst r).
Proof. destruct r as [[e|a] w]; reflexivity. Qed.

Lemma lookup_installed_started f binary hashLength w :
  heap (installed f (started f binary hashLength w)) !! length (heap w)
  = Some (fresh_module binary hashLength).
Proof.
  unfold installed.
  assert (mutex (vars f (started f binary hashLength w)) = Loading binary hashLength)
    as -> by (unfold started, set_mutex; rewrite vars_with_vars; reflexivity).
  simpl. rewrite lookup_app_r by lia. rewrite Nat.sub_diag. reflexivity.
Qed.

(** The value of a first-use call that computes a plain digest. *)
Lemma first_use_value f binary hashLength data bits w :
  mutex (vars f w) = Empty ->
  outcome (fst (complete Instantiated
                  (then_ (lockedCreate f binary hashLength)
                     (fun wasm => bind (set_wasmCache f wasm) (fun _ =>
                                  wasmCache_calculate f data bits)) w)))
  = Some match Hash_Update binary data (Hash_Init binary bits (memory_of binary)) with
         | inl e => inl e
         | inr mem => inr (to_hex (Hash_Final binary hashLength mem))
         end.
Proof.
  intros Hm. rewrite locked_complete, Hm. cbv beta iota zeta.
  rewrite outcome_settled, set_wasmCache_bind.
  rewrite (wasmCache_calculate_cached _ _ _ _ _ (wasmCache_cached f _ _)).
  rewrite (wasm_calculate_value _ _ _ _ (fresh_module binary hashLength));
    [reflexivity|].
  apply (lookup_installed_started f binary hashLength w).
Qed.

(** The instance of a hasher whose creation initialises it with [bits]. *)
Lemma fresh_hasher_instance binary hashLength bits (obj : nat -> IHasher) w h wh :
  complete Instantiated
    (then_ (WASMInterface binary hashLength)
       (fun wasm => bind (wasm_init wasm bits) (fun _ => ret (obj wasm))) w)
  = (Resolved h, wh) ->
  h = obj (length (heap w)) /\
  heap wh !! length (heap w)
  = Some (with_label Initialized
            (with_memory (Hash_Init binary bits (memory_of binary))
               (fresh_module binary hashLength))).
Proof.
  rewrite create_complete. unfold bind.
  rewrite (wasm_init_run _ _ _ _ (lookup_loaded binary hashLength w)).
  simpl. intros [= <- <-]. split; [reflexivity|]. simpl.
  rewrite insert_new_instance. rewrite lookup_app_r by lia.
  rewrite Nat.sub_diag. reflexivity.
Qed.

(** The value of a first-use call of [xxhash64]. *)
Lemma seeded_first_use_value data seedLow seedHigh w :
  mutex (vars xxhash64_ts w) = Empty ->
  length (seedBuffer w) = 8%nat ->
  outcome (fst (complete Instantiated
                  (then_ (lockedCreate xxhash64_ts xxhash64_wasm 8)
                     (xxhash64_loaded data seedLow seedHigh) w)))
  = Some (if (8 <=? length (memory_of xxhash64_wasm))%nat
          then match Hash_Update xxhash64_wasm data
                       (Hash_Init xxhash64_wasm None
                          ((le32 (ToUint32 seedLow) ++ le32 (ToUint32 seedHigh))
                             ++ drop 8 (memory_of xxhash64_wasm))) with
               | inl e => inl e
               | inr mem => inr (to_hex (Hash_Final xxhash64_wasm 8 mem))
               end
          else inl (ComputeError 1)).
Proof.
  intros Hm Hlen. rewrite locked_complete, Hm. cbv beta iota zeta.
  rewrite outcome_settled. unfold xxhash64_loaded. rewrite set_wasmCache_bind.
  set (wasm := length (heap (started xxhash64_ts xxhash64_wasm 8 w))).
  set (w0 := cached xxhash64_ts wasm
               (installed xxhash64_ts (started xxhash64_ts xxhash64_wasm 8 w))).
  assert (length (seedBuffer w0) = 8%nat) as Hlen0
    by (unfold w0; simpl; rewrite ?installed_seedBuffer; exact Hlen).
  assert (heap w0 !! wasm = Some (fresh_module xxhash64_wasm 8)) as Hfresh
    by (apply (lookup_installed_started xxhash64_ts xxhash64_wasm 8 w)).
  assert (wasmCache (vars xxhash64_ts w0) = Some wasm) as Hc0
    by (apply wasmCache_cached).
  unfold bind at 1. unfold writeSeed_seedBuffer. rewrite (writeSeed_8 _ _ _ Hlen0).
  set (seed := le32 (ToUint32 seedLow) ++ le32 (ToUint32 seedHigh)).
  unfold bind at 1. unfold wasmCache_writeMemory_seedBuffer.
  change (wasmCache (vars xxhash64_ts (with_seedBuffer seed w0)))
    with (wasmCache (vars xxhash64_ts w0)).
  rewrite Hc0. change (seedBuffer (with_seedBuffer seed w0)) with seed.
  rewrite wasm_writeMemory_run.
  change (heap (with_seedBuffer seed w0)) with (heap w0). rewrite Hfresh.
  change (length seed) with 8%nat.
  change (cm_memory (fresh_module xxhash64_wasm 8)) with (memory_of xxhash64_wasm).
  destruct (8 <=? length (memory_of xxhash64_wasm))%nat; [|reflexivity].
  rewrite (wasmCache_calculate_cached _ _ _ _ wasm) by exact Hc0.
  rewrite (wasm_calculate_value _ _ _ _
             (with_memory (seed ++ drop 8 (memory_of xxhash64_wasm))
                (fresh_module xxhash64_wasm 8))); [reflexivity|].
  simpl. apply list_lookup_insert_eq. eapply lookup_lt_Some. exact Hfresh.
Qed.

(** The instance of a hasher resolved by [createXXHash64]. *)
Lemma seeded_hasher_instance seedLow seedHigh w h wh :
  complete Instantiated (createXXHash64 seedLow seedHigh w) = (Resolved h, wh) ->
  let seed := le32 (ToUint32 (default (num 0) seedLow))
                ++ le32 (ToUint32 (default (num 0) seedHigh)) in
  h = createXXHash64_obj (length (heap w)) seed /\
  (8 <=? length (memory_of xxhash64_wasm))%nat = true /\
  heap wh !! length (heap w)
  = Some (with_label Initialized
            (with_memory (Hash_Init xxhash64_wasm None
                            (seed ++ drop 8 (memory_of xxhash64_wasm)))
               (with_memory (seed ++ drop 8 (memory_of xxhash64_wasm))
                  (fresh_module xxhash64_wasm 8)))).
Proof.
  intros Hc seed. unfold createXXHash64 in Hc.
  destruct (validateSeed (default (num 0) seedLow)); [discriminate|].
  destruct (validateSeed (default (num 0) seedHigh)); [discriminate|].
  rewrite create_complete in Hc. apply settled_Resolved in Hc.
  rewrite writeSeed_8 in Hc by reflexivity. fold seed in Hc.
  rewrite bind_bind_ret, bind_ret_run in Hc.
  unfold bind in Hc. rewrite wasm_writeMemory_run, lookup_loaded in Hc.
  change (length seed) with 8%nat in Hc.
  change (cm_memory (fresh_module xxhash64_wasm 8)) with (memory_of xxhash64_wasm) in Hc.
  destruct (8 <=? length (memory_of xxhash64_wasm))%nat; [|discriminate].
  erewrite wasm_init_run in Hc
    by (simpl; apply list_lookup_insert_eq; rewrite length_app; simpl; lia).
  simpl in Hc. injection Hc as <- <-.
  split; [reflexivity|]. split; [reflexivity|]. simpl.
  rewrite list_lookup_insert_eq
    by (rewrite length_insert, length_app; simpl; lia).
  reflexivity.
Qed.

(** X9: the hexadecimal digest (or the error) that a caller gets from
    [update(data)] followed by [digest('hex')] on a hasher that has just been
    created is the one the first one-shot call of the same algorithm returns
    for [data]; for xxHash64 with the same seed pair. *)
Theorem fresh_hasher_agrees_with_first_call data seedLow seedHigh w h wh :
  (mutex (vars crc32_ts w) = Empty -> wasmCache (vars crc32_ts w) = None ->
   complete Instantiated (createCRC32 w) = (Resolved h, wh) ->
   outcome (fst (complete Instantiated (crc32 data w)))
   = Some (update_digest_hex h data wh)) /\
  (mutex (vars sha224_ts w) = Empty -> wasmCache (vars sha224_ts w) = None ->
   complete Instantiated (createSHA224 w) = (Resolved h, wh) ->
   outcome (fst (complete Instantiated (sha224 data w)))
   = Some (update_digest_hex h data wh)) /\
  (mutex (vars xxhash64_ts w) = Empty -> wasmCache (vars xxhash64_ts w) = None ->
   length (seedBuffer w) = 8%nat ->
   complete Instantiated (createXXHash64 seedLow seedHigh w) = (Resolved h, wh) ->
   outcome (fst (complete Instantiated (xxhash64 data seedLow seedHigh w)))
   = Some (update_digest_hex h data wh)).
Proof.
  split; [|split].
  - intros Hm Hc Hh. unfold crc32. rewrite Hc.
    unfold crc32_loaded. rewrite (first_use_value _ _ _ _ _ _ Hm).
    apply fresh_hasher_instance in Hh as [-> Hcm].
    unfold update_digest_hex. cbn [update digest createCRC32_obj].
    rewrite (update_digest_value _ _ _ _ Hcm). reflexivity.
  - intros Hm Hc Hh. unfold sha224. rewrite Hc.
    unfold sha224_loaded. rewrite (first_use_value _ _ _ _ _ _ Hm).
    apply fresh_hasher_instance in Hh as [-> Hcm].
    unfold update_digest_hex. cbn [update digest createSHA224_obj].
    rewrite (update_digest_value _ _ _ _ Hcm). reflexivity.
  - intros Hm Hc Hlen Hh.
    pose proof (createXXHash64_Resolved _ _ _ _ _ _ Hh) as (_ & Hlo & Hhi & _).
    apply seeded_hasher_instance in Hh as (-> & Hfit & Hcm).
    unfold xxhash64. rewrite Hlo, Hhi, Hc.
    rewrite (seeded_first_use_value _ _ _ _ Hm Hlen), Hfit.
    unfold update_digest_hex. cbn [update digest createXXHash64_obj].
    rewrite (update_digest_value _ _ _ _ Hcm). reflexivity.
Qed.

End MoreProperties.

(** * The one-shot calls and the hashers in full *)

Section InFull.
Context {P : Platform}.

(** ** The calculation on an instance *)

Lemma insert_twice (h : list ComputeModule) i (a b : ComputeModule) :
  <[i := a]> (<[i := b]> h) = <[i := a]> h.
Proof. apply list_insert_insert_eq. Qed.

(** [calculate(data, bits)] on an instance that exists: its value, the calls
    it makes, and the content it leaves. *)
Lemma wasm_calculate_run wasm data bits w cm :
  heap w !! wasm = Some cm ->
  let v := calculate_result (cm_binary cm) (cm_hashLength cm) bits (cm_memory cm) data in
  wasm_calculate wasm data bits w =
  (v, with_heap (<[wasm := calculated cm bits data]> (heap w))
        (with_trace (trace w ++ calculate_events wasm bits data v) w)).
Proof.
  intros Hcm. assert (wasm < length (heap w))%nat as Hlt
    by (eapply lookup_lt_Some; exact Hcm).
  cbv zeta. unfold wasm_calculate, calculate_result, calculated, calculate_events.
  unfold bind at 1. rewrite (wasm_init_run _ _ _ _ Hcm).
  unfold bind at 1.
  erewrite wasm_update_run by (simpl; apply list_lookup_insert_eq; exact Hlt).
  simpl. destruct (Hash_Update _ _ _) as [e|mem].
  - simpl. rewrite <- app_assoc. reflexivity.
  - unfold wasm_digest, emit, instance, store, modify, ret, bind. simpl.
    rewrite list_lookup_insert_eq by (rewrite length_insert; exact Hlt).
    simpl. rewrite !insert_twice, <- !app_assoc. reflexivity.
Qed.

(** ** The seeded calculation of xxhash64 *)

(** With the cache set, the computation of [xxhash64] through the module-level
    variables is the seeded calculation on the cached instance. *)
Lemma seeded_body_cached data seedLow seedHigh wasm w :
  wasmCache (vars xxhash64_ts w) = Some wasm ->
  bind (writeSeed_seedBuffer seedLow seedHigh) (fun _ =>
  bind (wasmCache_writeMemory_seedBuffer xxhash64_ts) (fun _ =>
  wasmCache_calculate xxhash64_ts data None)) w
  = seeded_calculate wasm data seedLow seedHigh w.
Proof.
  intros Hc. unfold seeded_calculate. unfold bind at 1 3.
  unfold writeSeed_seedBuffer.
  destruct (writeSeed (seedBuffer w) seedLow seedHigh) as [[e|[]] arr]; [reflexivity|].
  set (w1 := with_seedBuffer arr w).
  unfold bind, wasmCache_writeMemory_seedBuffer.
  change (wasmCache (vars xxhash64_ts w1)) with (wasmCache (vars xxhash64_ts w)).
  rewrite Hc.
  pose proof (wasm_writeMemory_touches wasm (seedBuffer w1) 0 w1) as Hw.
  destruct (wasm_writeMemory wasm (seedBuffer w1) 0 w1) as [[e|[]] w2]; [reflexivity|].
  apply wasmCache_calculate_cached.
  rewrite (touched_vars _ _ _ Hw). exact Hc.
Qed.

(** The seeded calculation on an instance that exists. *)
Lemma seeded_calculate_run wasm data seedLow seedHigh w cm :
  length (seedBuffer w) = 8%nat ->
  heap w !! wasm = Some cm ->
  let seed := le32 (ToUint32 seedLow) ++ le32 (ToUint32 seedHigh) in
  let cm1 := with_memory (seed ++ drop 8 (cm_memory cm)) cm in
  let v := calculate_result (cm_binary cm) (cm_hashLength cm) None (cm_memory cm1) data in
  seeded_calculate wasm data seedLow seedHigh w =
  if (8 <=? length (cm_memory cm))%nat
  then (v, with_heap (<[wasm := calculated cm1 None data]> (heap w))
             (with_trace (trace w ++ EvWriteMemory wasm seed 0
                            :: calculate_events wasm None data v)
                (with_seedBuffer seed w)))
  else (inl (ComputeError 1),
        with_trace (trace w ++ [EvWriteMemory wasm seed 0]) (with_seedBuffer seed w)).
Proof.
  intros Hlen Hcm seed cm1 v.
  assert (wasm < length (heap w))%nat as Hlt by (eapply lookup_lt_Some; exact Hcm).
  unfold seeded_calculate. unfold bind at 1. unfold writeSeed_seedBuffer.
  rewrite (writeSeed_8 _ _ _ Hlen). fold seed.
  unfold bind at 1. change (seedBuffer (with_seedBuffer seed w)) with seed.
  rewrite wasm_writeMemory_run.
  change (heap (with_seedBuffer seed w)) with (heap w). rewrite Hcm.
  change (length seed) with 8%nat.
  destruct (8 <=? length (cm_memory cm))%nat; [|reflexivity].
  rewrite (wasm_calculate_run _ _ _ _ cm1)
    by (simpl; apply list_lookup_insert_eq; exact Hlt).
  cbv zeta. simpl. rewrite insert_twice, <- app_assoc. reflexivity.
Qed.

Lemma seeded_calculate_dangling wasm data seedLow seedHigh w :
  length (seedBuffer w) = 8%nat ->
  heap w !! wasm = None ->
  let seed := le32 (ToUint32 seedLow) ++ le32 (ToUint32 seedHigh) in
  seeded_calculate wasm data seedLow seedHigh w =
  (inl (TypeError "wasm is undefined"),
   with_trace (trace w ++ [EvWriteMemory wasm seed 0]) (with_seedBuffer seed w)).
Proof.
  intros Hlen Hcm seed.
  unfold seeded_calculate. unfold bind at 1. unfold writeSeed_seedBuffer.
  rewrite (writeSeed_8 _ _ _ Hlen). fold seed.
  unfold bind at 1. change (seedBuffer (with_seedBuffer seed w)) with seed.
  rewrite wasm_writeMemory_run.
  change (heap (with_seedBuffer seed w)) with (heap w). rewrite Hcm. reflexivity.
Qed.

(** The seeded calculation in any world: the module-level buffer receives the
    seed, the copy of these bytes is the first call made, and what follows is
    the calculation, or nothing when the copy failed. *)
Lemma seeded_calculate_seed wasm data seedLow seedHigh w :
  length (seedBuffer w) = 8%nat ->
  let seed := le32 (ToUint32 seedLow) ++ le32 (ToUint32 seedHigh) in
  let w' := snd (seeded_calculate wasm data seedLow seedHigh w) in
  seedBuffer w' = seed /\
  exists tail,
    trace w' = trace w ++ EvWriteMemory wasm seed 0 :: tail /\
    (tail = [] \/ exists v, tail = calculate_events wasm None data v).
Proof.
  intros Hlen seed. cbv zeta. destruct (heap w !! wasm) as [cm|] eqn:Hcm.
  - rewrite (seeded_calculate_run _ _ _ _ _ cm Hlen Hcm). fold seed.
    destruct (8 <=? length (cm_memory cm))%nat; simpl.
    + split; [reflexivity|]. eexists. split; [reflexivity|].
      right. eexists. reflexivity.
    + split; [reflexivity|]. exists []. split; [reflexivity | left; reflexivity].
  - rewrite (seeded_calculate_dangling _ _ _ _ _ Hlen Hcm). fold seed. simpl.
    split; [reflexivity|]. exists []. split; [reflexivity | left; reflexivity].
Qed.

(** ** Every path of a one-shot call *)

(** A call through [lockedCreate], followed to its settlement, is a rejection
    passed on from the load, or the settlement of the callback on some
    instance; until then the call has at most invoked the loader. *)
Lemma locked_cases {A} f binary hashLength (cb : nat -> M A) o w :
  let r := complete o (then_ (lockedCreate f binary hashLength) cb w) in
  (exists e w1,
     r = (Rejected e, w1) /\ heap w1 = heap w /\
     wasmCache (vars f w1) = wasmCache (vars f w) /\
     seedBuffer w1 = seedBuffer w /\
     (trace w1 = trace w \/ trace w1 = trace w ++ [EvInstantiate binary hashLength])) \/
  (exists wasm w1,
     r = settled (cb wasm w1) /\
     seedBuffer w1 = seedBuffer w /\
     (trace w1 = trace w \/ trace w1 = trace w ++ [EvInstantiate binary hashLength])).
Proof.
  cbv zeta. rewrite locked_complete. cbv zeta.
  assert (forall w1,
            seedBuffer w1 = seedBuffer w -> heap w1 = heap w ->
            wasmCache (vars f w1) = wasmCache (vars f w) ->
            (trace w1 = trace w \/ trace w1 = trace w ++ [EvInstantiate binary hashLength]) ->
            let r := match o with
                     | Instantiated => settled (cb (length (heap w1)) (installed f w1))
                     | LoaderFailed e => (Rejected e, set_mutex f (Failed e) w1)
                     end in
            (exists e w2,
               r = (Rejected e, w2) /\ heap w2 = heap w /\
               wasmCache (vars f w2) = wasmCache (vars f w) /\
               seedBuffer w2 = seedBuffer w /\
               (trace w2 = trace w \/
                trace w2 = trace w ++ [EvInstantiate binary hashLength])) \/
            (exists wasm w2,
               r = settled (cb wasm w2) /\
               seedBuffer w2 = seedBuffer w /\
               (trace w2 = trace w \/
                trace w2 = trace w ++ [EvInstantiate binary hashLength]))) as Hgo.
  { intros w1 Hsb Hh Hc Htr. cbv zeta. destruct o as [|e].
    - right. exists (length (heap w1)), (installed f w1).
      split; [reflexivity|].
      rewrite installed_seedBuffer, installed_trace. auto.
    - left. exists e, (set_mutex f (Failed e) w1).
      split; [reflexivity|]. split; [exact Hh|].
      split; [unfold set_mutex; rewrite vars_with_vars; exact Hc|].
      split; [exact Hsb | exact Htr]. }
  assert (wasmCache (vars f (started f binary hashLength w)) = wasmCache (vars f w))
    as Hst by (unfold started, set_mutex; rewrite vars_with_vars; reflexivity).
  destruct (mutex (vars f w)) as [|b hl|wasm|e].
  - apply Hgo; auto.
  - apply Hgo; auto.
  - right. exists wasm, w. auto.
  - destruct retry_failed_load.
    + apply Hgo; auto.
    + left. exists e, w. auto 6.
Qed.

Lemma crc32_loaded_run data wasm w :
  crc32_loaded data wasm w = wasm_calculate wasm data None (cached crc32_ts wasm w).
Proof.
  unfold crc32_loaded. rewrite set_wasmCache_bind.
  apply wasmCache_calculate_cached, wasmCache_cached.
Qed.

Lemma sha224_loaded_run data wasm w :
  sha224_loaded data wasm w
  = wasm_calculate wasm data (Some 224) (cached sha224_ts wasm w).
Proof.
  unfold sha224_loaded. rewrite set_wasmCache_bind.
  apply wasmCache_calculate_cached, wasmCache_cached.
Qed.

Lemma xxhash64_loaded_run data seedLow seedHigh wasm w :
  xxhash64_loaded data seedLow seedHigh wasm w
  = seeded_calculate wasm data seedLow seedHigh (cached xxhash64_ts wasm w).
Proof.
  unfold xxhash64_loaded. rewrite set_wasmCache_bind.
  apply seeded_body_cached, wasmCache_cached.
Qed.

(** A call through [lockedCreate] whose callback caches the instance and then
    computes [c] on it. *)
Lemma locked_surfaces {A} f binary hashLength (cb c : nat -> M A) o w :
  wasmCache (vars f w) = None ->
  (forall wasm w1, cb wasm w1 = c wasm (cached f wasm w1)) ->
  surfaces f c w (complete o (then_ (lockedCreate f binary hashLength) cb w)).
Proof.
  intros Hnone Hcb.
  destruct (locked_cases f binary hashLength cb o w)
    as [(e & w1 & Hr & Hh & Hc & _) | (wasm & w1 & Hr & _)].
  - left. exists e, w1. auto.
  - right. exists wasm, (cached f wasm w1).
    split; [apply wasmCache_cached|].
    split; [intros m Hm; congruence|].
    rewrite Hr, Hcb. destruct (c wasm (cached f wasm w1)) as [[e|a] w']; reflexivity.
Qed.

Lemma settled_surfaces {A} f (c : nat -> M A) o w wasm :
  wasmCache (vars f w) = Some wasm ->
  surfaces f c w (complete o (settled (c wasm w))).
Proof.
  intros Hc. rewrite complete_settled. right. exists wasm, w.
  split; [exact Hc|]. split; [reflexivity|].
  destruct (c wasm w) as [[e|a] w']; reflexivity.
Qed.

(** ** One-shot calls in full *)

(** C6: once the shared instance of a file is cached, a one-shot call is the
    calculation on that instance: the promise is settled at once with the
    digest (or the error) that the cached instance gives for the data, the
    calls made are those of the calculation on the cached instance, which is
    left holding its result, and the module loader is not invoked; the loader
    is invoked only when the cache is empty. *)
Theorem cached_module_reused data seedLow seedHigh w :
  ((forall wasm, wasmCache (vars crc32_ts w) = Some wasm ->
      served_from_cache crc32_ts wasm w (crc32 data w)) /\
   (forall wasm, wasmCache (vars sha224_ts w) = Some wasm ->
      served_from_cache sha224_ts wasm w (sha224 data w)) /\
   (forall wasm, wasmCache (vars xxhash64_ts w) = Some wasm ->
      served_from_cache xxhash64_ts wasm w (xxhash64 data seedLow seedHigh w)) /\
   (loads (trace (snd (crc32 data w))) <> loads (trace w) ->
      wasmCache (vars crc32_ts w) = None) /\
   (loads (trace (snd (sha224 data w))) <> loads (trace w) ->
      wasmCache (vars sha224_ts w) = None) /\
   (loads (trace (snd (xxhash64 data seedLow seedHigh w))) <> loads (trace w) ->
      wasmCache (vars xxhash64_ts w) = None)) /\
  (* the call is the calculation on the cached instance *)
  (forall wasm, wasmCache (vars crc32_ts w) = Some wasm ->
     crc32 data w = settled (wasm_calculate wasm data None w)) /\
  (forall wasm, wasmCache (vars sha224_ts w) = Some wasm ->
     sha224 data w = settled (wasm_calculate wasm data (Some 224) w)) /\
  (forall wasm, wasmCache (vars xxhash64_ts w) = Some wasm ->
     is_uint32 (default (num 0) seedLow) -> is_uint32 (default (num 0) seedHigh) ->
     xxhash64 data seedLow seedHigh w
     = settled (seeded_calculate wasm data (default (num 0) seedLow)
                  (default (num 0) seedHigh) w)) /\
  (* its value, its calls and what it leaves in the cached instance *)
  (forall wasm cm,
     wasmCache (vars crc32_ts w) = Some wasm -> heap w !! wasm = Some cm ->
     let v := calculate_result (cm_binary cm) (cm_hashLength cm) None (cm_memory cm) data in
     outcome (fst (crc32 data w)) = Some v /\
     trace (snd (crc32 data w)) = trace w ++ calculate_events wasm None data v /\
     heap (snd (crc32 data w)) !! wasm = Some (calculated cm None data)) /\
  (forall wasm cm,
     wasmCache (vars sha224_ts w) = Some wasm -> heap w !! wasm = Some cm ->
     let v := calculate_result (cm_binary cm) (cm_hashLength cm) (Some 224)
                (cm_memory cm) data in
     outcome (fst (sha224 data w)) = Some v /\
     trace (snd (sha224 data w)) = trace w ++ calculate_events wasm (Some 224) data v /\
     heap (snd (sha224 data w)) !! wasm = Some (calculated cm (Some 224) data)) /\
  (forall wasm cm zl zh,
     wasmCache (vars xxhash64_ts w) = Some wasm -> heap w !! wasm = Some cm ->
     seed_value (default (num 0) seedLow) zl ->
     seed_value (default (num 0) seedHigh) zh ->
     length (seedBuffer w) = 8%nat -> (8 <= length (cm_memory cm))%nat ->
     let seed := le32 zl ++ le32 zh in
     let cm1 := with_memory (seed ++ drop 8 (cm_memory cm)) cm in
     let v := calculate_result (cm_binary cm) (cm_hashLength cm) None (cm_memory cm1) data in
     let r := xxhash64 data seedLow seedHigh w in
     outcome (fst r) = Some v /\
     trace (snd r) = trace w ++ EvWriteMemory wasm seed 0
                       :: calculate_events wasm None data v /\
     heap (snd r) !! wasm = Some (calculated cm1 None data)).
Proof.
  split; [apply cached_call_frame|].
  assert (forall wasm, wasmCache (vars crc32_ts w) = Some wasm ->
            crc32 data w = settled (wasm_calculate wasm data None w)) as Hcrc.
  { intros wasm Hc. unfold crc32. rewrite Hc.
    rewrite (wasmCache_calculate_cached _ _ _ _ _ Hc). reflexivity. }
  assert (forall wasm, wasmCache (vars sha224_ts w) = Some wasm ->
            sha224 data w = settled (wasm_calculate wasm data (Some 224) w)) as Hsha.
  { intros wasm Hc. unfold sha224. rewrite Hc.
    rewrite (wasmCache_calculate_cached _ _ _ _ _ Hc). reflexivity. }
  assert (forall wasm, wasmCache (vars xxhash64_ts w) = Some wasm ->
            is_uint32 (default (num 0) seedLow) -> is_uint32 (default (num 0) seedHigh) ->
            xxhash64 data seedLow seedHigh w
            = settled (seeded_calculate wasm data (default (num 0) seedLow)
                         (default (num 0) seedHigh) w)) as Hxxh.
  { intros wasm Hc Hlo Hhi. apply validateSeed_None in Hlo, Hhi.
    unfold xxhash64. rewrite Hlo, Hhi, Hc.
    rewrite (seeded_body_cached _ _ _ _ _ Hc). reflexivity. }
  split; [exact Hcrc|]. split; [exact Hsha|]. split; [exact Hxxh|].
  split; [|split].
  - intros wasm cm Hc Hcm. cbv zeta. rewrite (Hcrc wasm Hc).
    rewrite outcome_settled, snd_settled, (wasm_calculate_run _ _ _ _ _ Hcm).
    cbv zeta. simpl. split; [reflexivity|]. split; [reflexivity|].
    apply list_lookup_insert_eq. eapply lookup_lt_Some. exact Hcm.
  - intros wasm cm Hc Hcm. cbv zeta. rewrite (Hsha wasm Hc).
    rewrite outcome_settled, snd_settled, (wasm_calculate_run _ _ _ _ _ Hcm).
    cbv zeta. simpl. split; [reflexivity|]. split; [reflexivity|].
    apply list_lookup_insert_eq. eapply lookup_lt_Some. exact Hcm.
  - intros wasm cm zl zh Hc Hcm Hlo Hhi Hlen Hfit. cbv zeta.
    rewrite (Hxxh wasm Hc (ex_intro _ zl Hlo) (ex_intro _ zh Hhi)).
    rewrite outcome_settled, snd_settled.
    rewrite (seeded_calculate_run _ _ _ _ _ cm Hlen Hcm).
    rewrite (ToUint32_seed_value _ _ Hlo), (ToUint32_seed_value _ _ Hhi).
    apply Nat.leb_le in Hfit. rewrite Hfit. simpl.
    split; [reflexivity|]. split; [reflexivity|].
    apply list_lookup_insert_eq. eapply lookup_lt_Some. exact Hcm.
Qed.

(** C5 (as amended): every error of a one-shot call surfaces as a rejected
    promise: on every path the promise is a rejection passed on from the load
    or from the seed validation, or the settlement of the calculation, whose
    error rejects it; this holds in particular for the calculation that a
    first-use call runs once its load has succeeded.  A call made while the
    shared instance is cached leaves the cached reference as it is, failing
    or not, and a first-use call whose load fails leaves the cache empty; a
    first-use call whose load succeeds stores the new instance in the cache
    before it computes, so the reference is set even when the computation
    then fails. *)
Theorem one_shot_failure data seedLow seedHigh o w :
  ((* the module-level state after each of the three calls *)
   one_shot_outcome crc32_ts w (complete o (crc32 data w)) /\
   one_shot_outcome sha224_ts w (complete o (sha224 data w)) /\
   one_shot_outcome xxhash64_ts w (complete o (xxhash64 data seedLow seedHigh w)) /\
   (* an error thrown on the cached instance rejects the promise *)
   (forall wasm e w',
      wasmCache (vars crc32_ts w) = Some wasm ->
      wasm_calculate wasm data None w = (inl e, w') ->
      crc32 data w = (Rejected e, w')) /\
   (forall wasm e w',
      wasmCache (vars sha224_ts w) = Some wasm ->
      wasm_calculate wasm data (Some 224) w = (inl e, w') ->
      sha224 data w = (Rejected e, w')) /\
   (forall wasm e w',
      wasmCache (vars xxhash64_ts w) = Some wasm ->
      is_uint32 (default (num 0) seedLow) -> is_uint32 (default (num 0) seedHigh) ->
      bind (writeSeed_seedBuffer (default (num 0) seedLow) (default (num 0) seedHigh))
        (fun _ => bind (wasmCache_writeMemory_seedBuffer xxhash64_ts)
        (fun _ => wasmCache_calculate xxhash64_ts data None)) w = (inl e, w') ->
      xxhash64 data seedLow seedHigh w = (Rejected e, w')) /\
   (* a failed load rejects the promise and leaves the cache empty *)
   (forall e,
      o = LoaderFailed e ->
      mutex (vars crc32_ts w) = Empty -> wasmCache (vars crc32_ts w) = None ->
      exists w', complete o (crc32 data w) = (Rejected e, w') /\
                 wasmCache (vars crc32_ts w') = None) /\
   (forall e,
      o = LoaderFailed e ->
      mutex (vars sha224_ts w) = Empty -> wasmCache (vars sha224_ts w) = None ->
      exists w', complete o (sha224 data w) = (Rejected e, w') /\
                 wasmCache (vars sha224_ts w') = None) /\
   (forall e,
      o = LoaderFailed e ->
      is_uint32 (default (num 0) seedLow) -> is_uint32 (default (num 0) seedHigh) ->
      mutex (vars xxhash64_ts w) = Empty -> wasmCache (vars xxhash64_ts w) = None ->
      exists w', complete o (xxhash64 data seedLow seedHigh w) = (Rejected e, w') /\
                 wasmCache (vars xxhash64_ts w') = None) /\
   (* a successful first load is cached, whatever the computation does *)
   (o = Instantiated ->
    mutex (vars crc32_ts w) = Empty -> wasmCache (vars crc32_ts w) = None ->
    wasmCache (vars crc32_ts (snd (complete o (crc32 data w))))
    = Some (length (heap w))) /\
   (o = Instantiated ->
    mutex (vars sha224_ts w) = Empty -> wasmCache (vars sha224_ts w) = None ->
    wasmCache (vars sha224_ts (snd (complete o (sha224 data w))))
    = Some (length (heap w))) /\
   (o = Instantiated ->
    is_uint32 (default (num 0) seedLow) -> is_uint32 (default (num 0) seedHigh) ->
    mutex (vars xxhash64_ts w) = Empty -> wasmCache (vars xxhash64_ts w) = None ->
    wasmCache (vars xxhash64_ts (snd (complete o (xxhash64 data seedLow seedHigh w))))
    = Some (length (heap w)))) /\
  (* on every path, the promise is what the calculation gives *)
  surfaces crc32_ts (fun wasm => wasm_calculate wasm data None) w
    (complete o (crc32 data w)) /\
  surfaces sha224_ts (fun wasm => wasm_calculate wasm data (Some 224)) w
    (complete o (sha224 data w)) /\
  surfaces xxhash64_ts
    (fun wasm => seeded_calculate wasm data (default (num 0) seedLow)
                   (default (num 0) seedHigh)) w
    (complete o (xxhash64 data seedLow seedHigh w)) /\
  (* the calculation of a first-use call whose load succeeded *)
  (mutex (vars crc32_ts w) = Empty -> wasmCache (vars crc32_ts w) = None ->
   match wasm_calculate (length (heap w)) data None
           (cached crc32_ts (length (heap w))
              (installed crc32_ts (started crc32_ts crc32_wasm 4 w))) with
   | (inr s, w') => complete Instantiated (crc32 data w) = (Resolved s, w')
   | (inl e, w') => complete Instantiated (crc32 data w) = (Rejected e, w')
   end) /\
  (mutex (vars sha224_ts w) = Empty -> wasmCache (vars sha224_ts w) = None ->
   match wasm_calculate (length (heap w)) data (Some 224)
           (cached sha224_ts (length (heap w))
              (installed sha224_ts (started sha224_ts sha256_wasm 28 w))) with
   | (inr s, w') => complete Instantiated (sha224 data w) = (Resolved s, w')
   | (inl e, w') => complete Instantiated (sha224 data w) = (Rejected e, w')
   end) /\
  (mutex (vars xxhash64_ts w) = Empty -> wasmCache (vars xxhash64_ts w) = None ->
   is_uint32 (default (num 0) seedLow) -> is_uint32 (default (num 0) seedHigh) ->
   match seeded_calculate (length (heap w)) data (default (num 0) seedLow)
           (default (num 0) seedHigh)
           (cached xxhash64_ts (length (heap w))
              (installed xxhash64_ts (started xxhash64_ts xxhash64_wasm 8 w))) with
   | (inr s, w') =>
       complete Instantiated (xxhash64 data seedLow seedHigh w) = (Resolved s, w')
   | (inl e, w') =>
       complete Instantiated (xxhash64 data seedLow seedHigh w) = (Rejected e, w')
   end).
Proof.
  split; [apply one_shot_failure_cases|].
  split; [|split; [|split; [|split; [|split]]]].
  - unfold crc32. destruct (wasmCache (vars crc32_ts w)) as [wasm|] eqn:Hc.
    + rewrite (wasmCache_calculate_cached _ _ _ _ _ Hc).
      apply (settled_surfaces crc32_ts (fun wasm => wasm_calculate wasm data None)).
      exact Hc.
    + apply locked_surfaces; [exact Hc | intros; apply crc32_loaded_run].
  - unfold sha224. destruct (wasmCache (vars sha224_ts w)) as [wasm|] eqn:Hc.
    + rewrite (wasmCache_calculate_cached _ _ _ _ _ Hc).
      apply (settled_surfaces sha224_ts (fun wasm => wasm_calculate wasm data (Some 224))).
      exact Hc.
    + apply locked_surfaces; [exact Hc | intros; apply sha224_loaded_run].
  - unfold xxhash64.
    destruct (validateSeed (default (num 0) seedLow)) as [err|];
      [left; exists err, w; auto|].
    destruct (validateSeed (default (num 0) seedHigh)) as [err|];
      [left; exists err, w; auto|].
    destruct (wasmCache (vars xxhash64_ts w)) as [wasm|] eqn:Hc.
    + rewrite (seeded_body_cached _ _ _ _ _ Hc).
      apply (settled_surfaces xxhash64_ts
               (fun wasm => seeded_calculate wasm data (default (num 0) seedLow)
                              (default (num 0) seedHigh))).
      exact Hc.
    + apply locked_surfaces; [exact Hc | intros; apply xxhash64_loaded_run].
  - intros Hm Hc. unfold crc32. rewrite Hc, locked_complete, Hm. cbv beta iota zeta.
    rewrite crc32_loaded_run.
    change (length (heap (started crc32_ts crc32_wasm 4 w))) with (length (heap w)).
    destruct (wasm_calculate _ _ _ _) as [[e|s0] w']; reflexivity.
  - intros Hm Hc. unfold sha224. rewrite Hc, locked_complete, Hm. cbv beta iota zeta.
    rewrite sha224_loaded_run.
    change (length (heap (started sha224_ts sha256_wasm 28 w))) with (length (heap w)).
    destruct (wasm_calculate _ _ _ _) as [[e|s0] w']; reflexivity.
  - intros Hm Hc Hlo Hhi. apply validateSeed_None in Hlo, Hhi.
    unfold xxhash64. rewrite Hlo, Hhi, Hc, locked_complete, Hm. cbv beta iota zeta.
    rewrite xxhash64_loaded_run.
    change (length (heap (started xxhash64_ts xxhash64_wasm 8 w)))
      with (length (heap w)).
    destruct (seeded_calculate _ _ _ _ _) as [[e|s0] w']; reflexivity.
Qed.

(** C2 (as amended): a seeded one-shot call encodes its seed into the one
    module-level buffer, which it overwrites in full whatever an earlier call
    left there, and copies exactly these bytes, once and at offset 0, into
    the shared instance before anything is computed: the copy is the first
    call made on the instance (after the load only, on first use), the
    calculation follows it and starts from the memory holding the seed;
    [createXXHash64] does not use the module-level buffer. *)
Theorem one_shot_seed_buffer data seedLow seedHigh zl zh o w :
  seed_value (default (num 0) seedLow) zl ->
  seed_value (default (num 0) seedHigh) zh ->
  length (seedBuffer w) = 8%nat ->
  let seed := le32 zl ++ le32 zh in
  seed_through_module_buffer seed data w
    (complete o (xxhash64 data seedLow seedHigh w)) /\
  (forall wasm,
     wasmCache (vars xxhash64_ts w) = Some wasm ->
     seedBuffer (snd (xxhash64 data seedLow seedHigh w)) = seed) /\
  length (seedBuffer (snd (complete o (xxhash64 data seedLow seedHigh w)))) = 8%nat /\
  (* on the cached instance: the seed first, then the calculation on it *)
  (forall wasm cm,
     wasmCache (vars xxhash64_ts w) = Some wasm -> heap w !! wasm = Some cm ->
     (8 <= length (cm_memory cm))%nat ->
     let cm1 := with_memory (seed ++ drop 8 (cm_memory cm)) cm in
     let v := calculate_result (cm_binary cm) (cm_hashLength cm) None (cm_memory cm1) data in
     let r := complete o (xxhash64 data seedLow seedHigh w) in
     outcome (fst r) = Some v /\
     trace (snd r) = trace w ++ EvWriteMemory wasm seed 0
                       :: calculate_events wasm None data v /\
     heap (snd r) !! wasm = Some (calculated cm1 None data)) /\
  (* on first use: the load, the seed, then the calculation *)
  (mutex (vars xxhash64_ts w) = Empty -> wasmCache (vars xxhash64_ts w) = None ->
   o = Instantiated -> (8 <= length (memory_of xxhash64_wasm))%nat ->
   let wasm := length (heap w) in
   let cm1 := with_memory (seed ++ drop 8 (memory_of xxhash64_wasm))
                (fresh_module xxhash64_wasm 8) in
   let v := calculate_result xxhash64_wasm 8 None (cm_memory cm1) data in
   let r := complete o (xxhash64 data seedLow seedHigh w) in
   outcome (fst r) = Some v /\
   trace (snd r) = trace w ++ EvInstantiate xxhash64_wasm 8
                     :: EvWriteMemory wasm seed 0
                     :: calculate_events wasm None data v /\
   heap (snd r) !! wasm = Some (calculated cm1 None data)) /\
  seedBuffer (snd (complete o (createXXHash64 seedLow seedHigh w))) = seedBuffer w.
Proof.
  intros Hlo Hhi Hlen seed.
  pose proof (proj2 (validateSeed_None _) (ex_intro _ zl Hlo)) as Hvl.
  pose proof (proj2 (validateSeed_None _) (ex_intro _ zh Hhi)) as Hvh.
  assert (le32 (ToUint32 (default (num 0) seedLow))
            ++ le32 (ToUint32 (default (num 0) seedHigh)) = seed) as Hseed.
  { unfold seed.
    rewrite (ToUint32_seed_value _ _ Hlo), (ToUint32_seed_value _ _ Hhi). reflexivity. }
  assert (forall wasm, wasmCache (vars xxhash64_ts w) = Some wasm ->
            xxhash64 data seedLow seedHigh w
            = settled (seeded_calculate wasm data (default (num 0) seedLow)
                         (default (num 0) seedHigh) w)) as Hhit.
  { intros wasm Hc. unfold xxhash64. rewrite Hvl, Hvh, Hc.
    rewrite (seeded_body_cached _ _ _ _ _ Hc). reflexivity. }
  assert (seed_through_module_buffer seed data w
            (complete o (xxhash64 data seedLow seedHigh w))) as Hmain.
  { destruct (wasmCache (vars xxhash64_ts w)) as [wasm|] eqn:Hc.
    - rewrite (Hhit wasm eq_refl), complete_settled.
      pose proof (seeded_calculate_seed wasm data (default (num 0) seedLow)
                    (default (num 0) seedHigh) w Hlen) as (Hsb & tail & Htr & Htail).
      rewrite Hseed in Hsb, Htr.
      pose proof (seeded_body_cached data (default (num 0) seedLow)
                    (default (num 0) seedHigh) wasm w Hc) as Hbody.
      pose proof (seeded_calculate_touches data (default (num 0) seedLow)
                    (default (num 0) seedHigh) w wasm Hc) as Ht.
      cbv zeta in Ht. rewrite Hbody in Ht.
      right. exists wasm, [], tail. rewrite snd_settled.
      split; [rewrite (touched_vars _ _ _ Ht); exact Hc|].
      split; [exact Htr|]. split; [left; reflexivity|]. split; [exact Htail | exact Hsb].
    - unfold xxhash64. rewrite Hvl, Hvh, Hc.
      destruct (locked_cases xxhash64_ts xxhash64_wasm 8
                  (xxhash64_loaded data (default (num 0) seedLow)
                     (default (num 0) seedHigh)) o w)
        as [(e & w1 & Hr & _ & _ & Hsb & Htr) | (wasm & w1 & Hr & Hsb & Htr)];
        cbv zeta in Hr; rewrite Hr.
      + left. exists e. simpl.
        destruct Htr as [Htr | Htr].
        * exists []. rewrite app_nil_r. auto.
        * exists [EvInstantiate xxhash64_wasm 8]. auto.
      + rewrite xxhash64_loaded_run.
        assert (length (seedBuffer (cached xxhash64_ts wasm w1)) = 8%nat) as Hlen1
          by (simpl; rewrite Hsb; exact Hlen).
        pose proof (seeded_calculate_seed wasm data (default (num 0) seedLow)
                      (default (num 0) seedHigh) _ Hlen1)
          as (Hsb2 & tail & Htr2 & Htail).
        rewrite Hseed in Hsb2, Htr2.
        pose proof (wasmCache_cached xxhash64_ts wasm w1) as Hc1.
        pose proof (seeded_body_cached data (default (num 0) seedLow)
                      (default (num 0) seedHigh) wasm _ Hc1) as Hbody.
        pose proof (seeded_calculate_touches data (default (num 0) seedLow)
                      (default (num 0) seedHigh) _ wasm Hc1) as Ht.
        cbv zeta in Ht. rewrite Hbody in Ht.
        right. destruct Htr as [Htr | Htr].
        * exists wasm, [], tail. rewrite snd_settled.
          split; [rewrite (touched_vars _ _ _ Ht); exact Hc1|].
          split; [rewrite Htr2; simpl; rewrite Htr; reflexivity|].
          split; [left; reflexivity|]. split; [exact Htail | exact Hsb2].
        * exists wasm, [EvInstantiate xxhash64_wasm 8], tail. rewrite snd_settled.
          split; [rewrite (touched_vars _ _ _ Ht); exact Hc1|].
          split; [rewrite Htr2; simpl; rewrite Htr, <- app_assoc; reflexivity|].
          split; [right; reflexivity|]. split; [exact Htail | exact Hsb2]. }
  split; [exact Hmain|].
  split.
  { intros wasm Hc. rewrite (Hhit wasm Hc), snd_settled.
    pose proof (seeded_calculate_seed wasm data (default (num 0) seedLow)
                  (default (num 0) seedHigh) w Hlen) as (Hsb & _).
    rewrite Hseed in Hsb. exact Hsb. }
  split.
  { destruct Hmain as [(e & pre & _ & _ & _ & ->) | (wasm & pre & tail & _ & _ & _ & _ & ->)];
      [exact Hlen | reflexivity]. }
  split.
  { intros wasm cm Hc Hcm Hfit. cbv zeta.
    rewrite (Hhit wasm Hc), complete_settled, outcome_settled, snd_settled.
    rewrite (seeded_calculate_run _ _ _ _ _ cm Hlen Hcm), Hseed.
    apply Nat.leb_le in Hfit. rewrite Hfit. simpl.
    split; [reflexivity|]. split; [reflexivity|].
    apply list_lookup_insert_eq. eapply lookup_lt_Some. exact Hcm. }
  split.
  { intros Hm Hc -> Hfit. cbv zeta.
    unfold xxhash64. rewrite Hvl, Hvh, Hc, locked_complete, Hm. cbv beta iota zeta.
    rewrite xxhash64_loaded_run, outcome_settled, snd_settled.
    change (length (heap (started xxhash64_ts xxhash64_wasm 8 w))) with (length (heap w)).
    rewrite (seeded_calculate_run _ _ _ _ _ (fresh_module xxhash64_wasm 8));
      [|simpl; rewrite ?installed_seedBuffer; exact Hlen
       |exact (lookup_installed_started xxhash64_ts xxhash64_wasm 8 w)].
    rewrite Hseed.
    change (cm_memory (fresh_module xxhash64_wasm 8)) with (memory_of xxhash64_wasm).
    apply Nat.leb_le in Hfit. rewrite Hfit. simpl.
    split; [reflexivity|].
    split; [rewrite ?installed_trace; simpl; rewrite <- ?app_assoc; reflexivity|].
    apply list_lookup_insert_eq. eapply lookup_lt_Some.
    apply (lookup_installed_started xxhash64_ts xxhash64_wasm 8). }
  unfold createXXHash64. rewrite Hvl, Hvh.
  rewrite create_complete. destruct o; [|reflexivity].
  rewrite snd_settled.
  apply (touched_seedBuffer _ _ _
           (createXXHash64_callback_touches _ _ (length (heap w))
              (loaded xxhash64_wasm 8 w))).
Qed.

(** ** Hashers in full *)





End InFull.

(** * The statements at concrete inputs *)

#[local] Existing Instance sum_platform.


Lemma three_halves_invalid : ~ is_uint32 (Fin (3 # 2)).
Proof. intros (z & Hz & Hq). unfold Qeq in Hq. simpl in Hq. lia. Qed.

Lemma seed_value_num z : 0 <= z <= 4294967295 -> seed_value (num z) z.
Proof. intros Hz. split; [exact Hz | reflexivity]. Qed.

Lemma hasher_sizes_witness :
  (exists h w', complete Instantiated (createCRC32 sum_w0) = (Resolved h, w') /\
                blockSize h = 4 /\ digestSize h = 4) /\
  (exists h w', complete Instantiated (createSHA224 sum_w0) = (Resolved h, w') /\
                blockSize h = 64 /\ digestSize h = 28) /\
  (exists h w', complete Instantiated (createXXHash64 (Some (num 7)) None sum_w0)
                = (Resolved h, w') /\
                blockSize h = 32 /\ digestSize h = 8).
Proof.
  split; [|split]; eexists _, _.
  - split; [reflexivity|].
    eapply (proj1 (hasher_sizes Instantiated sum_w0 _ _)). reflexivity.
  - split; [reflexivity|].
    eapply (proj1 (proj2 (hasher_sizes Instantiated sum_w0 _ _))). reflexivity.
  - split; [reflexivity|].
    eapply (proj2 (proj2 (hasher_sizes Instantiated sum_w0 _ _)) (Some (num 7)) None).
    reflexivity.
Defined.

Lemma invalid_seed_rejected_witness :
  ~ is_uint32 (Fin (3 # 2)) /\
  xxhash64 [1] (Some (Fin (3 # 2))) None sum_w0
  = (Rejected (JsError seed_message), sum_w0) /\
  createXXHash64 (Some (Fin (3 # 2))) None sum_w0
  = (Rejected (JsError seed_message), sum_w0).
Proof.
  split; [exact three_halves_invalid|].
  apply (invalid_seed_rejected (P := sum_platform) [1] (Some (Fin (3 # 2))) None
           (Fin (3 # 2)) sum_w0).
  - left. reflexivity.
  - exact three_halves_invalid.
Defined.

Lemma seed_written_before_init_witness :
  seed_value (num 258) 258 /\ seed_value (num 0) 0 /\
  exists h w',
    complete Instantiated (createXXHash64 (Some (num 258)) None sum_w0)
    = (Resolved h, w') /\
    trace w' = trace sum_w0 ++ [EvInstantiate xxhash64_wasm 8;
                                EvWriteMemory (this_wasm h) (le32 258 ++ le32 0) 0;
                                EvInit (this_wasm h) None].
Proof.
  assert (seed_value (num 258) 258) as Hlo by (apply seed_value_num; lia).
  assert (seed_value (num 0) 0) as Hhi by (apply seed_value_num; lia).
  split; [exact Hlo|]. split; [exact Hhi|].
  eexists _, _. split; [reflexivity|].
  apply (seed_written_before_init (P := sum_platform) (Some (num 258)) None 258 0
           Instantiated sum_w0 _ _ Hlo Hhi eq_refl).
Defined.

Lemma single_flight_witness :
  single_flight_outcome crc32_ts crc32_loaded [[1]; [2]; [3]] Instantiated sum_w0
    (concurrent_first_use crc32_ts (map crc32 [[1]; [2]; [3]]) Instantiated sum_w0) /\
  single_flight_outcome sha224_ts sha224_loaded [[1]; [2]; [3]] Instantiated sum_w0
    (concurrent_first_use sha224_ts (map sha224 [[1]; [2]; [3]]) Instantiated sum_w0) /\
  single_flight_outcome xxhash64_ts xxhash64_call_loaded
    [([1], Some (num 1), None); ([2], None, Some (num 5))] Instantiated sum_w0
    (concurrent_first_use xxhash64_ts
       (map xxhash64_call [([1], Some (num 1), None); ([2], None, Some (num 5))])
       Instantiated sum_w0).
Proof.
  pose proof (single_flight (P := sum_platform) [[1]; [2]; [3]]
                [([1], Some (num 1), None); ([2], None, Some (num 5))]
                Instantiated sum_w0) as (Hcrc & Hsha & Hxxh).
  split; [apply Hcrc; [discriminate | reflexivity | reflexivity]|].
  split; [apply Hsha; [discriminate | reflexivity | reflexivity]|].
  apply Hxxh; [discriminate | | reflexivity | reflexivity].
  repeat constructor; simpl.
  - exists 1. apply seed_value_num. lia.
  - exists 0. apply seed_value_num. lia.
  - exists 0. apply seed_value_num. lia.
  - exists 5. apply seed_value_num. lia.
Defined.

(** C2 as stated fails: two seeded one-shot calls in a row encode their seeds
    into the same module-level buffer, and the bytes copied into the shared
    instance are read from it both times. *)
Lemma seedBuffer_reused_across_calls :
  let w1 := snd (complete Instantiated
                   (xxhash64 [1] (Some (num 1)) (Some (num 2)) sum_w0)) in
  let w2 := snd (xxhash64 [1] (Some (num 3)) (Some (num 4)) w1) in
  seedBuffer sum_w0 = [0; 0; 0; 0; 0; 0; 0; 0] /\
  seedBuffer w1 = [1; 0; 0; 0; 2; 0; 0; 0] /\
  seedBuffer w2 = [3; 0; 0; 0; 4; 0; 0; 0] /\
  seedBuffer w1 <> seedBuffer sum_w0 /\
  seedBuffer w2 <> seedBuffer w1 /\
  trace w2 =
    [ EvInstantiate xxhash64_wasm 8;
      EvWriteMemory 0 [1; 0; 0; 0; 2; 0; 0; 0] 0;
      EvInit 0 None; EvUpdate 0 [1]; EvDigest 0 hex;
      EvWriteMemory 0 [3; 0; 0; 0; 4; 0; 0; 0] 0;
      EvInit 0 None; EvUpdate 0 [1]; EvDigest 0 hex ].
Proof. vm_compute. repeat split; discriminate. Qed.

(** C5 as stated fails: a first-use call whose computation is rejected
    nevertheless changes the cached reference, from empty to the new
    instance. *)
Lemma failing_first_call_sets_cache :
  let r := complete Instantiated (crc32 [256] sum_w0) in
  fst r = Rejected (ComputeError 2) /\
  wasmCache (vars crc32_ts sum_w0) = None /\
  wasmCache (vars crc32_ts (snd r)) = Some 0%nat /\
  wasmCache (vars crc32_ts (snd r)) <> wasmCache (vars crc32_ts sum_w0).
Proof. vm_compute. repeat split; discriminate. Qed.

(** ** The further properties at concrete inputs *)

Lemma validateSeed_accepts_exactly_uint32_witness :
  validateSeed (num 4294967295) = None /\
  validateSeed (num 4294967296) = Some (JsError seed_message) /\
  validateSeed (num (-1)) = Some (JsError seed_message) /\
  validateSeed (Fin (3 # 2)) = Some (JsError seed_message) /\
  exists z, (7 # 1 == inject_Z z)%Q.
Proof.
  pose proof (validateSeed_accepts_exactly_uint32 (num 4294967295)) as (_ & _ & Hz & _).
  pose proof (validateSeed_accepts_exactly_uint32 (num 4294967296)) as (_ & Hbig & Hzb & _).
  pose proof (validateSeed_accepts_exactly_uint32 (num (-1))) as (_ & Hneg & Hzn & _).
  pose proof (validateSeed_accepts_exactly_uint32 (Fin (3 # 2))) as (Hfr & Hfr' & _).
  pose proof (validateSeed_accepts_exactly_uint32 (Fin (7 # 1))) as (_ & _ & _ & _ & _ & Hint).
  split; [apply Hz; lia|].
  split; [apply Hbig; rewrite Hzb; lia|].
  split; [apply Hneg; rewrite Hzn; lia|].
  split; [apply Hfr'; rewrite Hfr; exact three_halves_invalid|].
  apply (Hint (7 # 1)). reflexivity.
Defined.

Lemma writeSeed_round_trip_witness :
  seed_value (num 258) 258 /\ seed_value (num 1) 1 /\
  exists bs,
    writeSeed [9; 9; 9; 9; 9; 9; 9; 9; 5] (num 258) (num 1) = (inr tt, bs) /\
    length bs = 9%nat /\
    le32_value (take 4 bs) = 258 /\
    le32_value (take 4 (drop 4 bs)) = 1 /\
    drop 8 bs = [5].
Proof.
  assert (seed_value (num 258) 258) as Hlo by (apply seed_value_num; lia).
  assert (seed_value (num 1) 1) as Hhi by (apply seed_value_num; lia).
  split; [exact Hlo|]. split; [exact Hhi|].
  destruct (writeSeed_round_trip [9; 9; 9; 9; 9; 9; 9; 9; 5] (num 258) (num 1) 258 1
              Hlo Hhi ltac:(simpl; lia))
    as (bs & Hw & Hlen & _ & Hl & Hh & Hrest).
  exists bs. auto.
Defined.

Lemma writeSeed_injective_witness :
  seed_value (num 258) 258 /\ seed_value (num 1) 1 /\
  take 8 (snd (writeSeed (replicate 8 0) (num 258) (num 1)))
  = take 8 (snd (writeSeed (replicate 9 7) (num 258) (num 1))) /\
  258 = 258 /\ 1 = 1.
Proof.
  assert (seed_value (num 258) 258) as Hlo by (apply seed_value_num; lia).
  assert (seed_value (num 1) 1) as Hhi by (apply seed_value_num; lia).
  split; [exact Hlo|]. split; [exact Hhi|]. split; [reflexivity|].
  apply (writeSeed_injective (replicate 8 0) (replicate 9 7)
           (num 258) (num 1) (num 258) (num 1) 258 1 258 1 Hlo Hhi Hlo Hhi);
    [simpl; lia | simpl; lia | reflexivity].
Defined.

Lemma hasher_touches_only_its_instance_witness :
  exists h w',
    complete Instantiated (createXXHash64 (Some (num 7)) None sum_w3) = (Resolved h, w') /\
    touches_only (this_wasm h) w' (snd (init h w')) /\
    touches_only (this_wasm h) w' (snd (update h [1; 2] w')) /\
    touches_only (this_wasm h) w' (snd (call_save h w')).
Proof.
  eexists _, _. split; [reflexivity|].
  match goal with
  | |- touches_only _ ?w1 _ /\ _ =>
      pose proof (hasher_touches_only_its_instance (P := sum_platform) (Some (num 7)) None
                    Instantiated sum_w3 _ _ (or_intror (or_intror eq_refl))
                    [1; 2] hex [] w1) as (Hi & Hu & _ & Hs & _)
  end.
  split; [exact Hi|]. split; [exact Hu | exact Hs].
Defined.

Lemma one_shot_leaves_other_instances_witness :
  let w := snd (complete Instantiated (createCRC32 sum_w3)) in
  (3 < length (heap w))%nat /\
  heap (snd (complete Instantiated (crc32 [4] w))) !! 3%nat = heap w !! 3%nat /\
  heap (snd (complete Instantiated (sha224 [4] w))) !! 3%nat = heap w !! 3%nat /\
  heap (snd (complete Instantiated (xxhash64 [4] (Some (num 9)) None w))) !! 3%nat
  = heap w !! 3%nat.
Proof.
  cbv zeta.
  assert (3 < length (heap (snd (complete Instantiated (createCRC32 sum_w3)))))%nat
    as Hi by (vm_compute; lia).
  split; [exact Hi|].
  pose proof (one_shot_leaves_other_instances (P := sum_platform) [4] (Some (num 9)) None
                Instantiated _ 3%nat Hi) as (Hcrc & Hsha & Hxxh).
  split; [apply Hcrc; vm_compute; discriminate|].
  split; [apply Hsha; vm_compute; discriminate|].
  apply Hxxh; vm_compute; discriminate.
Defined.

Lemma sequential_calls_load_once_witness :
  loads (trace (snd (sequentially (map crc32 [[1]; [2]; [3]]) Instantiated sum_w0)))
  = 1%nat /\
  loads (trace (snd (sequentially (map sha224 [[1]; [2]; [3]]) Instantiated sum_w0)))
  = 1%nat /\
  loads (trace (snd (sequentially
                       (map xxhash64_call
                          [([1], Some (num 1), None); ([2], None, Some (num 5))])
                       Instantiated sum_w0)))
  = 1%nat.
Proof.
  pose proof (sequential_calls_load_once (P := sum_platform) [1] [[2]; [3]]
                ([1], Some (num 1), None) [([2], None, Some (num 5))] sum_w0)
    as (Hcrc & Hsha & Hxxh).
  split; [apply Hcrc; reflexivity|].
  split; [apply Hsha; reflexivity|].
  apply Hxxh; try reflexivity.
  split; simpl.
  - exists 1. apply seed_value_num. lia.
  - exists 0. apply seed_value_num. lia.
Defined.

Lemma create_protocol_witness :
  complete (LoaderFailed (LoadError 3)) (createXXHash64 (Some (num 7)) None sum_w0)
  = (Rejected (LoadError 3),
     with_trace (trace sum_w0 ++ [EvInstantiate xxhash64_wasm 8]) sum_w0) /\
  trace (snd (init (createSHA224_obj 1) sum_w3))
  = trace sum_w3 ++ [EvInit 1 (Some 224)].
Proof.
  pose proof (create_protocol (P := sum_platform) (Some (num 7)) None sum_w0)
    as (_ & _ & Hfail & _).
  pose proof (create_protocol (P := sum_platform) None None
                (snd (complete Instantiated (crc32 [1] sum_w0))))
    as (_ & _ & _ & Hinit).
  split.
  - apply (Hfail (LoadError 3)).
    + exists 7. apply seed_value_num. lia.
    + exists 0. apply seed_value_num. lia.
  - cbv zeta in Hinit.
    destruct (Hinit sum_w3 _ eq_refl) as (_ & _ & Htr & _). exact Htr.
Defined.

Lemma fresh_hasher_agrees_with_first_call_witness :
  (exists h wh,
     complete Instantiated (createCRC32 sum_w0) = (Resolved h, wh) /\
     outcome (fst (complete Instantiated (crc32 [1; 2; 3] sum_w0)))
     = Some (update_digest_hex h [1; 2; 3] wh)) /\
  (exists h wh,
     complete Instantiated (createSHA224 sum_w0) = (Resolved h, wh) /\
     outcome (fst (complete Instantiated (sha224 [256] sum_w0)))
     = Some (update_digest_hex h [256] wh)) /\
  (exists h wh,
     complete Instantiated (createXXHash64 (Some (num 258)) None sum_w0)
     = (Resolved h, wh) /\
     outcome (fst (complete Instantiated (xxhash64 [1] (Some (num 258)) None sum_w0)))
     = Some (update_digest_hex h [1] wh)).
Proof.
  split; [|split]; eexists _, _; (split; [reflexivity|]).
  - apply (proj1 (fresh_hasher_agrees_with_first_call (P := sum_platform)
                    [1; 2; 3] None None sum_w0 _ _)); reflexivity.
  - apply (proj1 (proj2 (fresh_hasher_agrees_with_first_call (P := sum_platform)
                           [256] None None sum_w0 _ _))); reflexivity.
  - apply (proj2 (proj2 (fresh_hasher_agrees_with_first_call (P := sum_platform)
                           [1] (Some (num 258)) None sum_w0 _ _))); reflexivity.
Defined.

Lemma cached_module_reused_witness :
  served_from_cache crc32_ts 0 sum_w3 (crc32 [2] sum_w3) /\
  served_from_cache sha224_ts 1 sum_w3 (sha224 [2] sum_w3) /\
  served_from_cache xxhash64_ts 2 sum_w3 (xxhash64 [2] (Some (num 9)) None sum_w3) /\
  wasmCache (vars crc32_ts sum_w0) = None /\
  wasmCache (vars sha224_ts sum_w0) = None /\
  wasmCache (vars xxhash64_ts sum_w0) = None /\
  crc32 [2] sum_w3 = settled (wasm_calculate 0 [2] None sum_w3) /\
  sha224 [2] sum_w3 = settled (wasm_calculate 1 [2] (Some 224) sum_w3) /\
  xxhash64 [2] (Some (num 9)) None sum_w3
  = settled (seeded_calculate 2 [2] (num 9) (num 0) sum_w3) /\
  (outcome (fst (crc32 [2] sum_w3)) = Some (inr "02"%string) /\
   trace (snd (crc32 [2] sum_w3))
   = trace sum_w3 ++ [EvInit 0 None; EvUpdate 0 [2]; EvDigest 0 hex]) /\
  (outcome (fst (sha224 [2] sum_w3)) = Some (inr "02"%string) /\
   trace (snd (sha224 [2] sum_w3))
   = trace sum_w3 ++ [EvInit 1 (Some 224); EvUpdate 1 [2]; EvDigest 1 hex]) /\
  (outcome (fst (xxhash64 [2] (Some (num 9)) None sum_w3)) = Some (inr "0b"%string) /\
   trace (snd (xxhash64 [2] (Some (num 9)) None sum_w3))
   = trace sum_w3 ++ [EvWriteMemory 2 (le32 9 ++ le32 0) 0;
                      EvInit 2 None; EvUpdate 2 [2]; EvDigest 2 hex]).
Proof.
  assert (seed_value (num 9) 9) as H9 by (apply seed_value_num; lia).
  assert (seed_value (num 0) 0) as H0 by (apply seed_value_num; lia).
  pose proof (cached_module_reused (P := sum_platform) [2] (Some (num 9)) None sum_w3)
    as ((Hcrc & Hsha & Hxxh & _) & Ecrc & Esha & Exxh & Vcrc & Vsha & Vxxh).
  pose proof (cached_module_reused (P := sum_platform) [2] (Some (num 9)) None sum_w0)
    as ((_ & _ & _ & Mcrc & Msha & Mxxh) & _).
  split; [apply Hcrc; reflexivity|].
  split; [apply Hsha; reflexivity|].
  split; [apply Hxxh; reflexivity|].
  split; [apply Mcrc; vm_compute; lia|].
  split; [apply Msha; vm_compute; lia|].
  split; [apply Mxxh; vm_compute; lia|].
  split; [apply (Ecrc 0%nat); reflexivity|].
  split; [apply (Esha 1%nat); reflexivity|].
  split; [apply (Exxh 2%nat); [reflexivity | exists 9; exact H9 | exists 0; exact H0]|].
  split; [destruct (Vcrc 0%nat _ eq_refl eq_refl) as (Ho & Ht & _);
          split; [exact Ho | exact Ht]|].
  split; [destruct (Vsha 1%nat _ eq_refl eq_refl) as (Ho & Ht & _);
          split; [exact Ho | exact Ht]|].
  destruct (Vxxh 2%nat _ 9 0 eq_refl eq_refl H9 H0 eq_refl) as (Ho & Ht & _);
    [vm_compute; lia|].
  split; [exact Ho | exact Ht].
Defined.

Lemma one_shot_failure_witness :
  one_shot_outcome crc32_ts sum_w3 (complete Instantiated (crc32 [256] sum_w3)) /\
  (exists w', crc32 [256] sum_w3 = (Rejected (ComputeError 2), w')) /\
  (exists w', sha224 [256] sum_w3 = (Rejected (ComputeError 2), w')) /\
  (exists w', xxhash64 [256] None None sum_w3 = (Rejected (ComputeError 2), w')) /\
  (exists w', complete (LoaderFailed (LoadError 1)) (crc32 [1] sum_w0)
              = (Rejected (LoadError 1), w') /\
              wasmCache (vars crc32_ts w') = None) /\
  (exists w', complete (LoaderFailed (LoadError 1)) (sha224 [1] sum_w0)
              = (Rejected (LoadError 1), w') /\
              wasmCache (vars sha224_ts w') = None) /\
  (exists w', complete (LoaderFailed (LoadError 1)) (xxhash64 [1] (Some (num 7)) None sum_w0)
              = (Rejected (LoadError 1), w') /\
              wasmCache (vars xxhash64_ts w') = None) /\
  wasmCache (vars crc32_ts (snd (complete Instantiated (crc32 [256] sum_w0))))
  = Some (length (heap sum_w0)) /\
  wasmCache (vars sha224_ts (snd (complete Instantiated (sha224 [256] sum_w0))))
  = Some (length (heap sum_w0)) /\
  wasmCache (vars xxhash64_ts
               (snd (complete Instantiated (xxhash64 [256] None None sum_w0))))
  = Some (length (heap sum_w0)) /\
  surfaces crc32_ts (fun wasm => wasm_calculate wasm [256] None) sum_w0
    (complete Instantiated (crc32 [256] sum_w0)) /\
  surfaces sha224_ts (fun wasm => wasm_calculate wasm [256] (Some 224)) sum_w3
    (complete Instantiated (sha224 [256] sum_w3)) /\
  surfaces xxhash64_ts (fun wasm => seeded_calculate wasm [256] (num 0) (num 0)) sum_w0
    (complete (LoaderFailed (LoadError 1)) (xxhash64 [256] None None sum_w0)) /\
  (exists w', complete Instantiated (crc32 [256] sum_w0)
              = (Rejected (ComputeError 2), w')) /\
  (exists w', complete Instantiated (sha224 [256] sum_w0)
              = (Rejected (ComputeError 2), w')) /\
  (exists w', complete Instantiated (xxhash64 [256] (Some (num 7)) None sum_w0)
              = (Rejected (ComputeError 2), w')).
Proof.
  assert (is_uint32 (num 0)) as H0 by (exists 0; apply seed_value_num; lia).
  assert (is_uint32 (num 7)) as H7 by (exists 7; apply seed_value_num; lia).
  pose proof (one_shot_failure (P := sum_platform) [256] None None Instantiated sum_w3)
    as ((Hout & _ & _ & Hcrc & Hsha & Hxxh & _) & _ & Ssha & _).
  pose proof (one_shot_failure (P := sum_platform) [1] (Some (num 7)) None
                (LoaderFailed (LoadError 1)) sum_w0)
    as ((_ & _ & _ & _ & _ & _ & Lcrc & Lsha & Lxxh & _) & _).
  pose proof (one_shot_failure (P := sum_platform) [256] None None Instantiated sum_w0)
    as ((_ & _ & _ & _ & _ & _ & _ & _ & _ & Ccrc & Csha & Cxxh)
        & Scrc & _ & _ & Fcrc & Fsha & _).
  pose proof (one_shot_failure (P := sum_platform) [256] None None
                (LoaderFailed (LoadError 1)) sum_w0)
    as (_ & _ & _ & Sxxh & _).
  pose proof (one_shot_failure (P := sum_platform) [256] (Some (num 7)) None
                Instantiated sum_w0)
    as (_ & _ & _ & _ & _ & _ & Fxxh).
  split; [exact Hout|].
  split; [eexists; eapply (Hcrc 0%nat); [reflexivity | vm_compute; reflexivity]|].
  split; [eexists; eapply (Hsha 1%nat); [reflexivity | vm_compute; reflexivity]|].
  split; [eexists; eapply (Hxxh 2%nat); [reflexivity | exact H0 | exact H0
                                        | vm_compute; reflexivity]|].
  split; [apply (Lcrc (LoadError 1)); reflexivity|].
  split; [apply (Lsha (LoadError 1)); reflexivity|].
  split; [apply (Lxxh (LoadError 1)); try reflexivity; assumption|].
  split; [apply Ccrc; reflexivity|].
  split; [apply Csha; reflexivity|].
  split; [apply Cxxh; try reflexivity; exact H0|].
  split; [exact Scrc|]. split; [exact Ssha|]. split; [exact Sxxh|].
  split; [eexists; exact (Fcrc eq_refl eq_refl)|].
  split; [eexists; exact (Fsha eq_refl eq_refl)|].
  eexists; exact (Fxxh eq_refl eq_refl H7 H0).
Defined.

Lemma one_shot_seed_buffer_witness :
  seed_value (num 258) 258 /\ seed_value (num 0) 0 /\
  length (seedBuffer sum_w0) = 8%nat /\ length (seedBuffer sum_w3) = 8%nat /\
  seed_through_module_buffer (le32 258 ++ le32 0) [1] sum_w0
    (complete Instantiated (xxhash64 [1] (Some (num 258)) None sum_w0)) /\
  trace (snd (complete Instantiated (xxhash64 [1] (Some (num 258)) None sum_w0)))
  = trace sum_w0 ++ [EvInstantiate xxhash64_wasm 8;
                     EvWriteMemory 0 (le32 258 ++ le32 0) 0;
                     EvInit 0 None; EvUpdate 0 [1]; EvDigest 0 hex] /\
  seed_through_module_buffer (le32 258 ++ le32 0) [1] sum_w3
    (complete Instantiated (xxhash64 [1] (Some (num 258)) None sum_w3)) /\
  trace (snd (complete Instantiated (xxhash64 [1] (Some (num 258)) None sum_w3)))
  = trace sum_w3 ++ [EvWriteMemory 2 (le32 258 ++ le32 0) 0;
                     EvInit 2 None; EvUpdate 2 [1]; EvDigest 2 hex].
Proof.
  assert (seed_value (num 258) 258) as Hlo by (apply seed_value_num; lia).
  assert (seed_value (num 0) 0) as Hhi by (apply seed_value_num; lia).
  split; [exact Hlo|]. split; [exact Hhi|].
  split; [reflexivity|]. split; [reflexivity|].
  pose proof (one_shot_seed_buffer (P := sum_platform) [1] (Some (num 258)) None 258 0
                Instantiated sum_w0 Hlo Hhi eq_refl) as (H0 & _ & _ & _ & F0 & _).
  pose proof (one_shot_seed_buffer (P := sum_platform) [1] (Some (num 258)) None 258 0
                Instantiated sum_w3 Hlo Hhi eq_refl) as (H3 & _ & _ & C3 & _).
  split; [exact H0|].
  split; [destruct (F0 eq_refl eq_refl eq_refl) as (_ & Ht & _);
          [vm_compute; lia | exact Ht]|].
  split; [exact H3|].
  destruct (C3 2%nat _ eq_refl eq_refl) as (_ & Ht & _); [vm_compute; lia | exact Ht].
Defined.

